(** * Galaxy control module: channel actions, embedded and verified

    A shallow embedding of the action callbacks of the Meyer Sound Galaxy
    Companion module (actions/inputs.js, actions/outputs.js,
    actions/matrix.js) and the properties of its channel parameter core:
    unit conversion of delays, solo/mute snapshots, rotary acceleration
    tiers, the A/B gain toggle, channel-selection guards, value clamping
    and the logarithmic HF attenuation curve.

    Conventions of the embedding.
    - A JavaScript [number] is idealised as an exact rational ([Q]); a
      value that is not finite (NaN) is [None] in [Js.number].  The one
      transcendental operation of the code, [Math.log], is taken in the
      real numbers ([ln]) and immediately rounded back to tenths, so that
      stored and transmitted values stay rational.
    - The module instance [self] is the record [Self] (the stores) inside a
      [World], which also carries what a callback can observe or cause:
      the helper methods defined on the instance, the clock, the command
      lines handed to the Device Link, the log, and the calls to helpers
      whose body lives in the main module.
    - A command line [`${path}=${value}`] is kept structured ([Cmd]): the
      path as its segments, the value before it is printed.
    - Display variables ([setVariableValues]) and feedback refreshes
      ([checkFeedbacks]) are presentation effects and are not part of the
      [World]. *)

From Stdlib Require Import ZArith QArith Qround Qminmax Qabs Qreals Reals Lra Lia.
From stdpp Require Import base option list gmap strings.

Open Scope Z_scope.

(** ** JavaScript numbers and [Math] *)

Module Js.

(** [None] is NaN (or any non-finite value); [Some q] a finite number. *)
Definition number : Type := option Q.

Definition Number_isFinite (n : number) : bool :=
  match n with Some _ => true | None => false end.

Definition Math_max (a b : Q) : Q := Qmax a b.
Definition Math_min (a b : Q) : Q := Qmin a b.

(** [Math.round]: nearest integer, ties towards +infinity. *)
Definition Math_round (x : Q) : Z := Qfloor (x + (1 # 2)).

Definition Math_ceil (x : Q) : Z := Qceiling x.

Definition Math_abs (x : Q) : Q := Qabs x.

(** [Math.round] on a real argument (used after [Math.log]). *)
Definition Math_roundR (x : R) : Z := Zfloor (x + / 2)%R.

(** [x < y], [x <= y] on rationals, as the booleans JavaScript computes. *)
Definition ltb (x y : Q) : bool := negb (Qle_bool y x).
Definition leb (x y : Q) : bool := Qle_bool x y.

(** [n || d] on a number: [d] when [n] is NaN or zero. *)
Definition or_default (n : number) (d : Q) : Q :=
  match n with
  | Some q => if Qeq_bool q 0 then d else q
  | None => d
  end.

End Js.

(** ** The world a callback runs in *)

Inductive Domain : Type := Input | Output.

#[global] Instance Domain_eq_dec : EqDecision Domain.
Proof. solve_decision. Defined.

Definition domain_name (d : Domain) : string :=
  match d with Input => "input" | Output => "output" end.

(** One segment of a command path: literal text or an interpolated integer. *)
Inductive Seg : Type :=
| T (s : string)
| Idx (z : Z).

(** The value printed after [=], or passed to a helper: a number, bare
    text ([true]), text in single quotes (['1']), or a path. *)
Inductive Value : Type :=
| VNum (q : Q)
| VText (s : string)
| VQuote (s : string)
| VPath (p : list Seg).

Record Cmd : Type := mkCmd { cmd_path : list Seg; cmd_value : Value }.

Record LogEntry : Type := mkLog { log_level : string; log_text : string }.

(** A call to a helper method of the instance whose body is not in the
    action files; the arguments are kept as values. *)
Record Call : Type := mkCall { call_name : string; call_args : list Value }.

(** [self._rotaryAccel[key]] *)
Record Rotation : Type := mkRotation { time : Z; count : Z }.

(** [self.outputSoloState] / [self.inputSoloState] *)
Record SoloState : Type := mkSolo {
  soloChannels : gset Z;
  prevMute : gmap Z bool
}.

(** One band object of [self.outputUShaping[ch][band]] (and of the EQ
    stores); an absent property is [None]. *)
Record Band : Type := mkBand {
  gain : option Q;
  frequency : option Q;
  slope : option Q;
  bandwidth : option Q;
  band_bypass : option bool
}.

Definition no_band : Band := mkBand None None None None None.

(** [self.outputUShaping[ch]]: the numbered band objects and the
    channel-level [bypass] property. *)
Record Strip : Type := mkStrip {
  bypass : option bool;
  bands : gmap Z Band
}.

Definition no_strip : Strip := mkStrip None ∅.

(** [self.matrixDelay[`${i}-${o}`]] *)
Record MatrixDelay : Type := mkMatrixDelay {
  md_type : option string;
  md_samples : option Z;
  md_bypass : option bool
}.

Definition no_matrix_delay : MatrixDelay := mkMatrixDelay None None None.

(** [self._eqKnobControlOutput] and its siblings. *)
Record KnobControl : Type := mkKnob {
  selected : option (list Z);
  selectedBand : option Z
}.

(** The stores hanging off the module instance that the embedded
    callbacks read or write. *)
Record Self : Type := mkSelf {
  inMute : gmap Z bool;
  outMute : gmap Z bool;
  inputSoloState : option SoloState;
  outputSoloState : option SoloState;
  inputGain : gmap Z Q;
  outputGain : gmap Z Q;
  _inputGainToggle : gmap Z string;
  _outputGainToggle : gmap Z string;
  matrixDelay : gmap (Z * Z) MatrixDelay;
  _rotaryAccel : gmap string Rotation;
  _rotaryPressState : gmap string bool;
  inputUShaping : gmap Z Strip;
  outputUShaping : gmap Z Strip;
  inputEQ : gmap Z Strip;
  outputEQ : gmap Z Strip;
  _ushapingKnobControl : option KnobControl;
  _ushapingKnobControlOutput : option KnobControl;
  _eqKnobControl : option KnobControl;
  _eqKnobControlOutput : option KnobControl
}.

Record World : Type := mkWorld {
  self : Self;
  (** names of the helper methods defined on the instance
      ([typeof self._x === 'function']) *)
  methods : gset string;
  (** [Date.now()], in milliseconds *)
  now : Z;
  (** lines handed to [self._cmdSendLine], oldest first *)
  sent : list Cmd;
  (** [self.log(level, text)], oldest first *)
  logs : list LogEntry;
  (** helper calls, oldest first *)
  calls : list Call;
  (** divisions whose divisor was zero (instrumentation) *)
  div0 : nat
}.

Definition with_self (f : Self → Self) (w : World) : World :=
  mkWorld (f w.(self)) w.(methods) w.(now) w.(sent) w.(logs) w.(calls) w.(div0).

Definition _cmdSendLine (c : Cmd) (w : World) : World :=
  mkWorld w.(self) w.(methods) w.(now) (w.(sent) ++ [c]) w.(logs) w.(calls) w.(div0).

Definition log (level text : string) (w : World) : World :=
  mkWorld w.(self) w.(methods) w.(now) w.(sent) (w.(logs) ++ [mkLog level text]) w.(calls) w.(div0).

Definition call (name : string) (args : list Value) (w : World) : World :=
  mkWorld w.(self) w.(methods) w.(now) w.(sent) w.(logs) (w.(calls) ++ [mkCall name args]) w.(div0).

Definition fault (n : nat) (w : World) : World :=
  mkWorld w.(self) w.(methods) w.(now) w.(sent) w.(logs) w.(calls) (w.(div0) + n)%nat.

(** [typeof self[name] === 'function'] *)
Definition has (name : string) (w : World) : bool :=
  bool_decide (name ∈ w.(methods)).

(** Time passing between two callbacks. *)
Definition advance (dt : Z) (w : World) : World :=
  mkWorld w.(self) w.(methods) (w.(now) + dt) w.(sent) w.(logs) w.(calls) w.(div0).
(** Assignments [self.field = v]. *)

Definition set_inMute (v : gmap Z bool) (s : Self) : Self :=
  mkSelf v s.(outMute) s.(inputSoloState) s.(outputSoloState) s.(inputGain)
    s.(outputGain) s.(_inputGainToggle) s.(_outputGainToggle) s.(matrixDelay)
    s.(_rotaryAccel) s.(_rotaryPressState) s.(inputUShaping)
    s.(outputUShaping) s.(inputEQ) s.(outputEQ) s.(_ushapingKnobControl)
    s.(_ushapingKnobControlOutput) s.(_eqKnobControl)
    s.(_eqKnobControlOutput).

Definition set_outMute (v : gmap Z bool) (s : Self) : Self :=
  mkSelf s.(inMute) v s.(inputSoloState) s.(outputSoloState) s.(inputGain)
    s.(outputGain) s.(_inputGainToggle) s.(_outputGainToggle) s.(matrixDelay)
    s.(_rotaryAccel) s.(_rotaryPressState) s.(inputUShaping)
    s.(outputUShaping) s.(inputEQ) s.(outputEQ) s.(_ushapingKnobControl)
    s.(_ushapingKnobControlOutput) s.(_eqKnobControl)
    s.(_eqKnobControlOutput).

Definition set_inputSoloState (v : option SoloState) (s : Self) : Self :=
  mkSelf s.(inMute) s.(outMute) v s.(outputSoloState) s.(inputGain)
    s.(outputGain) s.(_inputGainToggle) s.(_outputGainToggle) s.(matrixDelay)
    s.(_rotaryAccel) s.(_rotaryPressState) s.(inputUShaping)
    s.(outputUShaping) s.(inputEQ) s.(outputEQ) s.(_ushapingKnobControl)
    s.(_ushapingKnobControlOutput) s.(_eqKnobControl)
    s.(_eqKnobControlOutput).

Definition set_outputSoloState (v : option SoloState) (s : Self) : Self :=
  mkSelf s.(inMute) s.(outMute) s.(inputSoloState) v s.(inputGain)
    s.(outputGain) s.(_inputGainToggle) s.(_outputGainToggle) s.(matrixDelay)
    s.(_rotaryAccel) s.(_rotaryPressState) s.(inputUShaping)
    s.(outputUShaping) s.(inputEQ) s.(outputEQ) s.(_ushapingKnobControl)
    s.(_ushapingKnobControlOutput) s.(_eqKnobControl)
    s.(_eqKnobControlOutput).

Definition set__inputGainToggle (v : gmap Z string) (s : Self) : Self :=
  mkSelf s.(inMute) s.(outMute) s.(inputSoloState) s.(outputSoloState)
    s.(inputGain) s.(outputGain) v s.(_outputGainToggle) s.(matrixDelay)
    s.(_rotaryAccel) s.(_rotaryPressState) s.(inputUShaping)
    s.(outputUShaping) s.(inputEQ) s.(outputEQ) s.(_ushapingKnobControl)
    s.(_ushapingKnobControlOutput) s.(_eqKnobControl)
    s.(_eqKnobControlOutput).

Definition set__outputGainToggle (v : gmap Z string) (s : Self) : Self :=
  mkSelf s.(inMute) s.(outMute) s.(inputSoloState) s.(outputSoloState)
    s.(inputGain) s.(outputGain) s.(_inputGainToggle) v s.(matrixDelay)
    s.(_rotaryAccel) s.(_rotaryPressState) s.(inputUShaping)
    s.(outputUShaping) s.(inputEQ) s.(outputEQ) s.(_ushapingKnobControl)
    s.(_ushapingKnobControlOutput) s.(_eqKnobControl)
    s.(_eqKnobControlOutput).

Definition set_matrixDelay (v : gmap (Z * Z) MatrixDelay) (s : Self) : Self :=
  mkSelf s.(inMute) s.(outMute) s.(inputSoloState) s.(outputSoloState)
    s.(inputGain) s.(outputGain) s.(_inputGainToggle) s.(_outputGainToggle) v
    s.(_rotaryAccel) s.(_rotaryPressState) s.(inputUShaping)
    s.(outputUShaping) s.(inputEQ) s.(outputEQ) s.(_ushapingKnobControl)
    s.(_ushapingKnobControlOutput) s.(_eqKnobControl)
    s.(_eqKnobControlOutput).

Definition set__rotaryAccel (v : gmap string Rotation) (s : Self) : Self :=
  mkSelf s.(inMute) s.(outMute) s.(inputSoloState) s.(outputSoloState)
    s.(inputGain) s.(outputGain) s.(_inputGainToggle) s.(_outputGainToggle)
    s.(matrixDelay) v s.(_rotaryPressState) s.(inputUShaping)
    s.(outputUShaping) s.(inputEQ) s.(outputEQ) s.(_ushapingKnobControl)
    s.(_ushapingKnobControlOutput) s.(_eqKnobControl)
    s.(_eqKnobControlOutput).

Definition set_inputUShaping (v : gmap Z Strip) (s : Self) : Self :=
  mkSelf s.(inMute) s.(outMute) s.(inputSoloState) s.(outputSoloState)
    s.(inputGain) s.(outputGain) s.(_inputGainToggle) s.(_outputGainToggle)
    s.(matrixDelay) s.(_rotaryAccel) s.(_rotaryPressState) v
    s.(outputUShaping) s.(inputEQ) s.(outputEQ) s.(_ushapingKnobControl)
    s.(_ushapingKnobControlOutput) s.(_eqKnobControl)
    s.(_eqKnobControlOutput).

Definition set_outputUShaping (v : gmap Z Strip) (s : Self) : Self :=
  mkSelf s.(inMute) s.(outMute) s.(inputSoloState) s.(outputSoloState)
    s.(inputGain) s.(outputGain) s.(_inputGainToggle) s.(_outputGainToggle)
    s.(matrixDelay) s.(_rotaryAccel) s.(_rotaryPressState) s.(inputUShaping) v
    s.(inputEQ) s.(outputEQ) s.(_ushapingKnobControl)
    s.(_ushapingKnobControlOutput) s.(_eqKnobControl)
    s.(_eqKnobControlOutput).

Definition set_inputEQ (v : gmap Z Strip) (s : Self) : Self :=
  mkSelf s.(inMute) s.(outMute) s.(inputSoloState) s.(outputSoloState)
    s.(inputGain) s.(outputGain) s.(_inputGainToggle) s.(_outputGainToggle)
    s.(matrixDelay) s.(_rotaryAccel) s.(_rotaryPressState) s.(inputUShaping)
    s.(outputUShaping) v s.(outputEQ) s.(_ushapingKnobControl)
    s.(_ushapingKnobControlOutput) s.(_eqKnobControl)
    s.(_eqKnobControlOutput).

Definition set_outputEQ (v : gmap Z Strip) (s : Self) : Self :=
  mkSelf s.(inMute) s.(outMute) s.(inputSoloState) s.(outputSoloState)
    s.(inputGain) s.(outputGain) s.(_inputGainToggle) s.(_outputGainToggle)
    s.(matrixDelay) s.(_rotaryAccel) s.(_rotaryPressState) s.(inputUShaping)
    s.(outputUShaping) s.(inputEQ) v s.(_ushapingKnobControl)
    s.(_ushapingKnobControlOutput) s.(_eqKnobControl)
    s.(_eqKnobControlOutput).

Definition set__ushapingKnobControl (v : option KnobControl) (s : Self) : Self :=
  mkSelf s.(inMute) s.(outMute) s.(inputSoloState) s.(outputSoloState)
    s.(inputGain) s.(outputGain) s.(_inputGainToggle) s.(_outputGainToggle)
    s.(matrixDelay) s.(_rotaryAccel) s.(_rotaryPressState) s.(inputUShaping)
    s.(outputUShaping) s.(inputEQ) s.(outputEQ) v
    s.(_ushapingKnobControlOutput) s.(_eqKnobControl)
    s.(_eqKnobControlOutput).

Definition set__ushapingKnobControlOutput (v : option KnobControl) (s : Self) : Self :=
  mkSelf s.(inMute) s.(outMute) s.(inputSoloState) s.(outputSoloState)
    s.(inputGain) s.(outputGain) s.(_inputGainToggle) s.(_outputGainToggle)
    s.(matrixDelay) s.(_rotaryAccel) s.(_rotaryPressState) s.(inputUShaping)
    s.(outputUShaping) s.(inputEQ) s.(outputEQ) s.(_ushapingKnobControl) v
    s.(_eqKnobControl) s.(_eqKnobControlOutput).

Definition set__eqKnobControl (v : option KnobControl) (s : Self) : Self :=
  mkSelf s.(inMute) s.(outMute) s.(inputSoloState) s.(outputSoloState)
    s.(inputGain) s.(outputGain) s.(_inputGainToggle) s.(_outputGainToggle)
    s.(matrixDelay) s.(_rotaryAccel) s.(_rotaryPressState) s.(inputUShaping)
    s.(outputUShaping) s.(inputEQ) s.(outputEQ) s.(_ushapingKnobControl)
    s.(_ushapingKnobControlOutput) v s.(_eqKnobControlOutput).

Definition set__eqKnobControlOutput (v : option KnobControl) (s : Self) : Self :=
  mkSelf s.(inMute) s.(outMute) s.(inputSoloState) s.(outputSoloState)
    s.(inputGain) s.(outputGain) s.(_inputGainToggle) s.(_outputGainToggle)
    s.(matrixDelay) s.(_rotaryAccel) s.(_rotaryPressState) s.(inputUShaping)
    s.(outputUShaping) s.(inputEQ) s.(outputEQ) s.(_ushapingKnobControl)
    s.(_ushapingKnobControlOutput) s.(_eqKnobControl) v.

(** The stores of one domain, under the names the two action files use
    ([self.inMute] in inputs.js is [self.outMute] in outputs.js, and so on). *)
Definition mute_of (d : Domain) (s : Self) : gmap Z bool :=
  match d with Input => s.(inMute) | Output => s.(outMute) end.

Definition set_mute_of (d : Domain) (v : gmap Z bool) (s : Self) : Self :=
  match d with Input => set_inMute v s | Output => set_outMute v s end.

Definition soloState_of (d : Domain) (s : Self) : option SoloState :=
  match d with Input => s.(inputSoloState) | Output => s.(outputSoloState) end.

Definition set_soloState_of (d : Domain) (v : option SoloState) (s : Self) : Self :=
  match d with Input => set_inputSoloState v s | Output => set_outputSoloState v s end.

Definition gain_of (d : Domain) (s : Self) : gmap Z Q :=
  match d with Input => s.(inputGain) | Output => s.(outputGain) end.

Definition gainToggle_of (d : Domain) (s : Self) : gmap Z string :=
  match d with Input => s.(_inputGainToggle) | Output => s.(_outputGainToggle) end.

Definition set_gainToggle_of (d : Domain) (v : gmap Z string) (s : Self) : Self :=
  match d with Input => set__inputGainToggle v s | Output => set__outputGainToggle v s end.

Definition ushaping_of (d : Domain) (s : Self) : gmap Z Strip :=
  match d with Input => s.(inputUShaping) | Output => s.(outputUShaping) end.

Definition set_ushaping_of (d : Domain) (v : gmap Z Strip) (s : Self) : Self :=
  match d with Input => set_inputUShaping v s | Output => set_outputUShaping v s end.

Definition eq_of (d : Domain) (s : Self) : gmap Z Strip :=
  match d with Input => s.(inputEQ) | Output => s.(outputEQ) end.

Definition set_eq_of (d : Domain) (v : gmap Z Strip) (s : Self) : Self :=
  match d with Input => set_inputEQ v s | Output => set_outputEQ v s end.

Definition ushapingKnob_of (d : Domain) (s : Self) : option KnobControl :=
  match d with
  | Input => s.(_ushapingKnobControl)
  | Output => s.(_ushapingKnobControlOutput)
  end.


Definition set_eqKnob_of (d : Domain) (v : option KnobControl) (s : Self) : Self :=
  match d with
  | Input => set__eqKnobControl v s
  | Output => set__eqKnobControlOutput v s
  end.

(** ["Input"] / ["Output"], as spliced into helper names
    ([_setInputDelayMs], [_setOutputDelayMs]). *)
Definition Cap (d : Domain) : string :=
  match d with Input => "Input" | Output => "Output" end.

(** ** Channel Set Validator *)

(** One raw entry of a channel multi-select: [Some n] when the entry
    denotes the integer [n] (the number itself or its decimal string),
    [None] for any other token. *)
Definition Token : Type := option Z.

(** First occurrences, in order. *)
Fixpoint dedup (seen l : list Z) : list Z :=
  match l with
  | [] => []
  | x :: r => if bool_decide (x ∈ seen) then dedup seen r else x :: dedup (x :: seen) r
  end.

(** Modelled from the spec: [safeGetChannels] is defined in
    actions-helpers.js, which is not among the action files.  Section 4.1:
    the result is "an ordered sequence of unique integers in [1, max];
    out-of-range or non-numeric tokens are dropped silently". *)
Definition safeGetChannels (sel : list Token) (max : Z) : list Z :=
  dedup [] (filter (λ n, 1 ≤ n ≤ max)%Z (omap (λ t : Token, t) sel)).

(** [xs.length === 0] *)
Definition is_empty {A} (xs : list A) : bool :=
  match xs with [] => true | _ => false end.

(** ** Unit Converter and the delay actions *)

(** The three closures every delay callback declares. *)
Definition clamp (v lo hi : Q) : Q := Js.Math_max lo (Js.Math_min hi v).

Definition roundTo01 (v : Q) : Q :=
  inject_Z (Js.Math_round (v / (1 # 100))) * (1 # 100).

Definition SPEED_FT_PER_SEC : Q := 1125.
Definition SPEED_M_PER_SEC : Q := 343.

Definition valueToMs (val : Js.number) (typeKey : string) : Q :=
  match val with
  | None => 0
  | Some n =>
    if String.eqb typeKey "1" then (n * 1000) / SPEED_FT_PER_SEC
    else if String.eqb typeKey "2" then (n * 1000) / SPEED_M_PER_SEC
    else if String.eqb typeKey "3" then (n / 24) * 1000
    else if String.eqb typeKey "4" then (n / 25) * 1000
    else if String.eqb typeKey "5" then (n / 30) * 1000
    else if String.eqb typeKey "6" then n / 96
    else n
  end.

(** [String(x || 'unchanged')] for a dropdown id; a missing id is [""]. *)
Definition or_unchanged (x : string) : string :=
  if String.eqb x "" then "unchanged" else x.

Definition delay_path (d : Domain) (ch : Z) : list Seg :=
  [T "processing"; T (domain_name d); Idx ch; T "delay"].

Definition VInt (z : Z) : Value := VNum (inject_Z z).

(** Modelled from the spec: [_setInputDelayMs] and [_setOutputDelayMs] are
    defined in the main module, which is not among the action files.
    Section 4.2: the millisecond value is "converted to an integer sample
    count (round(ms * 96)) for transmission"; section 4.8: the store update
    and the transmission happen in the same step. *)
Definition _setDelayMs (d : Domain) (ch : Z) (ms : Q) (w : World) : World :=
  let samples := Js.Math_round (ms * 96) in
  call ("_apply" +:+ Cap d +:+ "Delay") [VInt ch; VInt samples]
    (_cmdSendLine (mkCmd (delay_path d ch) (VInt samples)) w).

Record DelayOptions : Type := mkDelayOptions {
  (** [e.options.chs] *)
  delay_chs : list Token;
  (** [e.options.type] *)
  delay_type : string;
  (** [Number(e.options.value)] *)
  delay_value : Js.number
}.

(** The body of [for (const ch of chs)] in the delay callbacks. *)
Definition delay_body (d : Domain) (hi : Q) (typeId : string) (valueRaw : Js.number)
    (w : World) (ch : Z) : World :=
  if String.eqb typeId "unchanged" then w
  else
    let msFromValue := valueToMs valueRaw typeId in
    let targetMs := roundTo01 (clamp msFromValue 0 hi) in
    if has ("_set" +:+ Cap d +:+ "DelayMs") w then _setDelayMs d ch targetMs w
    else if has "_cmdSendLine" w then
      let samples := Js.Math_round (targetMs * 96) in
      let w := _cmdSendLine (mkCmd (delay_path d ch) (VInt samples)) w in
      if has ("_apply" +:+ Cap d +:+ "Delay") w
      then call ("_apply" +:+ Cap d +:+ "Delay") [VInt ch; VInt samples] w
      else w
    else w.

(** [input_delay_set] and [output_delay_set]: the two callbacks differ
    only in the domain ([NUM], the helper names, the path) and in the upper
    clamp [hi] (500 for inputs, 2000 for outputs). *)
Definition delay_set (d : Domain) (NUM : Z) (hi : Q) (o : DelayOptions) (w : World) : World :=
  let chs := safeGetChannels o.(delay_chs) NUM in
  if is_empty chs then
    log "warn" ("No valid " +:+ domain_name d +:+ " channels selected") w
  else
    let typeId := or_unchanged o.(delay_type) in
    let valueRaw := o.(delay_value) in
    foldl (delay_body d hi typeId valueRaw) w chs.

Record MatrixDelayOptions : Type := mkMatrixDelayOptions {
  matrix_inputs : list Token;
  matrix_outputs : list Token;
  (** [e.options.type] *)
  matrix_type : string;
  (** [Number(e.options.value)] *)
  matrix_value : Js.number;
  (** [e.options.delay_status] *)
  delay_status : string
}.

Definition matrix_path (i o : Z) (leaf : string) : list Seg :=
  [T "processing"; T "matrix"; Idx i; Idx o; T leaf].

Definition matrix_entry (i o : Z) (s : Self) : MatrixDelay :=
  default no_matrix_delay (s.(matrixDelay) !! (i, o)).

(** Modelled from the spec: the three [_applyMatrixDelay...] helpers are
    defined in the main module.  Section 4.8: a mutation updates the
    Parameter Store in the same step as the transmission; the store is
    [self.matrixDelay], which the callback itself reads for the toggle. *)
Definition _applyMatrixDelayType (i o : Z) (ty : string) (s : Self) : Self :=
  let e := matrix_entry i o s in
  set_matrixDelay (<[(i, o) := mkMatrixDelay (Some ty) e.(md_samples) e.(md_bypass)]> s.(matrixDelay)) s.

Definition _applyMatrixDelay (i o : Z) (samples : Z) (s : Self) : Self :=
  let e := matrix_entry i o s in
  set_matrixDelay (<[(i, o) := mkMatrixDelay e.(md_type) (Some samples) e.(md_bypass)]> s.(matrixDelay)) s.

Definition _applyMatrixDelayBypass (i o : Z) (b : bool) (s : Self) : Self :=
  let e := matrix_entry i o s in
  set_matrixDelay (<[(i, o) := mkMatrixDelay e.(md_type) e.(md_samples) (Some b)]> s.(matrixDelay)) s.

(** [self._apply...?.(...)]: the helper runs when it is defined. *)
Definition optionally (name : string) (f : Self → Self) (w : World) : World :=
  if has name w then with_self f w else w.

Definition bool_text (b : bool) : string := if b then "true" else "false".

Definition matrix_delay_body (typeId : string) (valueRaw : Js.number) (statusMode : string)
    (i o : Z) (w : World) : World :=
  (* Delay type *)
  let w :=
    if negb (String.eqb typeId "unchanged") then
      optionally "_applyMatrixDelayType" (_applyMatrixDelayType i o typeId)
        (_cmdSendLine (mkCmd (matrix_path i o "delay_type") (VQuote typeId)) w)
    else w in
  (* Delay value (converted from selected unit) only when a unit is chosen *)
  let w :=
    if negb (String.eqb typeId "unchanged") then
      let msFromValue := valueToMs valueRaw typeId in
      let targetMs := roundTo01 (clamp msFromValue 0 500) in
      let samples := Js.Math_round (targetMs * 96) in
      optionally "_applyMatrixDelay" (_applyMatrixDelay i o samples)
        (_cmdSendLine (mkCmd (matrix_path i o "delay") (VInt samples)) w)
    else w in
  (* Bypass *)
  if negb (String.eqb statusMode "unchanged") then
    let newState :=
      if String.eqb statusMode "toggle" then
        let current := default false (matrix_entry i o w.(self)).(md_bypass) in
        negb current
      else String.eqb statusMode "off" in
    optionally "_applyMatrixDelayBypass" (_applyMatrixDelayBypass i o newState)
      (_cmdSendLine (mkCmd (matrix_path i o "delay_bypass") (VQuote (bool_text newState))) w)
  else w.

(** ** The action callbacks *)

Section Actions.

(** [registerInputActions(actions, self, NUM_INPUTS, NUM_OUTPUTS)] and its
    siblings close over the channel counts. *)
Variables NUM_INPUTS NUM_OUTPUTS : Z.

(** [_getPrevInputGain(ch, btnId)] / [_getPrevOutputGain(ch, btnId)]: the
    recall helper of the main module, taken as a parameter; [None] is its
    [null] answer. *)
Variable _getPrevGain : Domain → Z → option string → World → option Q.

Definition NUM (d : Domain) : Z :=
  match d with Input => NUM_INPUTS | Output => NUM_OUTPUTS end.

Definition input_delay_set : DelayOptions → World → World :=
  delay_set Input NUM_INPUTS 500.

Definition output_delay_set : DelayOptions → World → World :=
  delay_set Output NUM_OUTPUTS 2000.

Definition matrix_delay_full (o : MatrixDelayOptions) (w : World) : World :=
  let inputs := safeGetChannels o.(matrix_inputs) 32 in
  let outs := safeGetChannels o.(matrix_outputs) NUM_OUTPUTS in
  if is_empty inputs || is_empty outs then
    log "warn" "No valid matrix channels selected" w
  else
    let typeId := or_unchanged o.(matrix_type) in
    let valueRaw := o.(matrix_value) in
    let statusMode := or_unchanged o.(delay_status) in
    foldl (λ w i,
      foldl (λ w o, matrix_delay_body typeId valueRaw statusMode i o w) w outs)
      w inputs.

(** *** Mute and solo *)

Definition mute_path (d : Domain) (ch : Z) : list Seg :=
  [T "processing"; T (domain_name d); Idx ch; T "mute"].

(** [!!self?.outMute?.[ch]] *)
Definition muted (d : Domain) (s : Self) (ch : Z) : bool :=
  default false (mute_of d s !! ch).

(** Modelled from the spec: [_setMute(domain, ch, value)] is defined in
    the main module, which is not among the action files.  Section 4.8:
    "the Parameter Store is updated and a Device Link command is
    transmitted in the same step"; the store is the one the solo callback
    snapshots, [self.inMute] / [self.outMute]. *)
Definition _setMute (d : Domain) (ch : Z) (v : bool) (w : World) : World :=
  _cmdSendLine (mkCmd (mute_path d ch) (VText (bool_text v)))
    (with_self (λ s, set_mute_of d (<[ch := v]> (mute_of d s)) s) w).

(** Modelled from the spec: [_toggleMute(domain, ch)], likewise defined in
    the main module: the mute flag of the channel is inverted. *)
Definition _toggleMute (d : Domain) (ch : Z) (w : World) : World :=
  _setMute d ch (negb (muted d w.(self) ch)) w.

Record ChannelOpOptions : Type := mkChannelOp {
  (** [e.options.operation] *)
  operation : string;
  (** [e.options.chs] *)
  chs : list Token
}.

(** [input_mute_control] / [output_mute_control] *)
Definition mute_control (d : Domain) (o : ChannelOpOptions) (w : World) : World :=
  let op := o.(operation) in
  let chs := safeGetChannels o.(chs) (NUM d) in
  if is_empty chs then
    log "warn" ("No valid " +:+ domain_name d +:+ " channels selected") w
  else
    foldl (λ w ch,
      if String.eqb op "on" && has "_setMute" w then _setMute d ch true w
      else if String.eqb op "off" && has "_setMute" w then _setMute d ch false w
      else if has "_toggleMute" w then _toggleMute d ch w
      else w) w chs.

Definition input_mute_control := mute_control Input.
Definition output_mute_control := mute_control Output.

(** [currentSoloState && size === size && [...soloSet].every(has)] *)
Definition isSameSolo (currentSoloState : option SoloState) (soloSet : gset Z) : bool :=
  match currentSoloState with
  | None => false
  | Some c =>
    bool_decide (size c.(soloChannels) = size soloSet)
    && forallb (λ ch, bool_decide (ch ∈ c.(soloChannels))) (elements soloSet)
  end.

Definition shouldApplySolo (op : string) (currentSoloState : option SoloState)
    (soloSet : gset Z) : bool :=
  if String.eqb op "on" then true
  else if String.eqb op "off" then false
  else negb (isSameSolo currentSoloState soloSet).

(** The snapshot closure: [snap[ch] = !!self?.outMute?.[ch]] for every
    channel of the domain. *)
Definition snapshot (d : Domain) (s : Self) : gmap Z bool :=
  foldl (λ snap ch, <[ch := muted d s ch]> snap) ∅ (seqZ 1 (NUM d)).

Definition setMute_if_defined (d : Domain) (ch : Z) (v : bool) (w : World) : World :=
  if has "_setMute" w then _setMute d ch v w else w.

(** "Apply solo: unmute selected, mute others". *)
Definition solo_apply (d : Domain) (soloSet : gset Z) (w : World) : World :=
  foldl (λ w ch,
    if bool_decide (ch ∈ soloSet) then setMute_if_defined d ch false w
    else setMute_if_defined d ch true w) w (seqZ 1 (NUM d)).

(** "Unsolo: restore previous mute states if known". *)
Definition solo_restore (d : Domain) (prevMute : gmap Z bool) (w : World) : World :=
  foldl (λ w ch,
    let shouldMute := default false (prevMute !! ch) in
    setMute_if_defined d ch shouldMute w) w (seqZ 1 (NUM d)).

(** [input_solo] / [output_solo] *)
Definition solo (d : Domain) (o : ChannelOpOptions) (w : World) : World :=
  let op := o.(operation) in
  let soloChannels := safeGetChannels o.(chs) (NUM d) in
  if is_empty soloChannels then
    log "warn" ("No valid " +:+ domain_name d +:+ " channels selected for solo") w
  else
    let soloSet : gset Z := list_to_set soloChannels in
    let currentSoloState := soloState_of d w.(self) in
    if shouldApplySolo op currentSoloState soloSet then
      let prevMute :=
        match currentSoloState with
        | Some c => c.(prevMute)
        | None => snapshot d w.(self)
        end in
      let w := solo_apply d soloSet w in
      let w := with_self (set_soloState_of d (Some (mkSolo soloSet prevMute))) w in
      log "info" ("Soloed " +:+ domain_name d +:+ " channels") w
    else
      let prevMute :=
        match currentSoloState with
        | Some c => c.(prevMute)
        | None => ∅
        end in
      let w := solo_restore d prevMute w in
      let w := with_self (set_soloState_of d None) w in
      log "info" "Unsolo - restored previous mute states" w.

Definition input_solo := solo Input.
Definition output_solo := solo Output.

(** *** Gain *)

Record GainOptions : Type := mkGainOptions {
  (** [e.options.chs] *)
  gain_chs : list Token;
  (** [e.options.target] *)
  gain_target : string;
  (** [Number(e.options.gain)] *)
  gain_value : Q;
  (** [Number(e.options.delta)] *)
  gain_delta : Js.number;
  (** [Number(e.options.gain_a)], [Number(e.options.gain_b)] *)
  gain_a : Q;
  gain_b : Q;
  (** [Number(e.options.fadeMs)] *)
  gain_fadeMs : Js.number;
  (** [e.options.curve] *)
  gain_curve : string;
  (** [e?.controlId || e?.event?.controlId || null] *)
  gain_btnId : option string
}.

Definition gain_path (d : Domain) (ch : Z) : list Seg :=
  [T "processing"; T (domain_name d); Idx ch; T "gain"].

Definition VBtn (b : option string) : Value :=
  match b with Some s => VQuote s | None => VText "null" end.

(** A helper of the main module, called when it is defined. *)
Definition call_if_defined (name : string) (args : list Value) (w : World) : World :=
  if has name w then call name args w else w.

(** [if (dur > 0 && typeof self._start...GainFade === 'function') ...
     else if (typeof self._set...Gain === 'function') ...] *)
Definition apply_gain (d : Domain) (ch : Z) (g dur : Q) (curve : string) (w : World) : World :=
  if Js.ltb 0 dur && has ("_start" +:+ Cap d +:+ "GainFade") w then
    call ("_start" +:+ Cap d +:+ "GainFade") [VInt ch; VNum g; VNum dur; VText curve] w
  else if has ("_set" +:+ Cap d +:+ "Gain") w then
    call ("_set" +:+ Cap d +:+ "Gain") [VInt ch; VNum g] w
  else w.

(** The three calls that precede a gain change: subscribe to the path, arm
    the capture window, remember the previous value. *)
Definition begin_gain_change (d : Domain) (ch : Z) (btn : option string) (w : World) : World :=
  let w := call_if_defined "_subWrite" [VPath (gain_path d ch)] w in
  let w := call_if_defined "_beginPrevCaptureWindow"
             [VQuote (domain_name d); VInt ch; VBtn btn; VInt 300] w in
  call_if_defined ("_rememberPrev" +:+ Cap d +:+ "Gain") [VInt ch; VBtn btn] w.

(** The loop bodies of the four modes. *)
Definition gain_last_body (d : Domain) (dur : Q) (curve : string) (btnId : option string)
    (w : World) (ch : Z) : World :=
  let prev :=
    if has ("_getPrev" +:+ Cap d +:+ "Gain") w then _getPrevGain d ch btnId w
    else None in
  match prev with
  | None => log "debug" "no last dB stored" w
  | Some prev => apply_gain d ch prev dur curve w
  end.

Definition gain_nudge_body (d : Domain) (dl : Js.number) (curveNudge : string)
    (btnId : option string) (w : World) (ch : Z) : World :=
  let durNudge : Q := 0%Q in
  let w := begin_gain_change d ch btnId w in
  let base := default 0%Q (gain_of d w.(self) !! ch) in
  let target := (base + default 0%Q dl)%Q in
  apply_gain d ch target durNudge curveNudge w.

Definition gain_pair_body (d : Domain) (gA gB dur : Q) (curve : string)
    (btnId : option string) (w : World) (ch : Z) : World :=
  let w := call_if_defined "_subWrite" [VPath (gain_path d ch)] w in
  let lastWasA := bool_decide (gainToggle_of d w.(self) !! ch = Some "A") in
  let targetGain := if lastWasA then gB else gA in
  let w :=
    with_self (λ s, set_gainToggle_of d
      (<[ch := if lastWasA then "B" else "A"]> (gainToggle_of d s)) s) w in
  let w := call_if_defined "_beginPrevCaptureWindow"
             [VQuote (domain_name d); VInt ch; VBtn btnId; VInt 300] w in
  let w := call_if_defined ("_rememberPrev" +:+ Cap d +:+ "Gain") [VInt ch; VBtn btnId] w in
  apply_gain d ch targetGain dur curve w.

Definition gain_value_body (d : Domain) (g dur : Q) (curve : string)
    (btnId : option string) (w : World) (ch : Z) : World :=
  let w := begin_gain_change d ch btnId w in
  apply_gain d ch g dur curve w.

(** [input_gain_set] / [output_gain_set] *)
Definition gain_set (d : Domain) (o : GainOptions) (w : World) : World :=
  let chs := safeGetChannels o.(gain_chs) (NUM d) in
  if is_empty chs then
    log "warn" ("No valid " +:+ domain_name d +:+ " channels selected") w
  else
    let mode :=
      if String.eqb o.(gain_target) "last" || String.eqb o.(gain_target) "prev" then "last"
      else if String.eqb o.(gain_target) "pair" then "pair"
      else if String.eqb o.(gain_target) "nudge" then "nudge"
      else "value" in
    let dur := Js.Math_max 0 (Js.or_default o.(gain_fadeMs) 0) in
    let curve := if String.eqb o.(gain_curve) "log" then "log" else "linear" in
    let btnId := o.(gain_btnId) in
    if String.eqb mode "last" then
      foldl (gain_last_body d dur curve btnId) w chs
    else if String.eqb mode "nudge" then
      let dl := o.(gain_delta) in
      let curveNudge := if String.eqb o.(gain_curve) "log" then "log" else "linear" in
      foldl (gain_nudge_body d dl curveNudge btnId) w chs
    else if String.eqb mode "pair" then
      let gA := o.(gain_a) in
      let gB := o.(gain_b) in
      foldl (gain_pair_body d gA gB dur curve btnId) w chs
    else
      let g := o.(gain_value) in
      foldl (gain_value_body d g dur curve btnId) w chs.

Definition input_gain_set := gain_set Input.
Definition output_gain_set := gain_set Output.

(** *** Band stores ([self.outputUShaping], [self.inputEQ], ...) *)

(** [store[ch]] and [store[ch][band]], read with the empty object for a
    missing entry. *)
Definition strip_of (m : gmap Z Strip) (ch : Z) : Strip :=
  default no_strip (m !! ch).

Definition band_of (m : gmap Z Strip) (ch band : Z) : Band :=
  default no_band ((strip_of m ch).(bands) !! band).

(** [if (!store[ch]) store[ch] = {}; if (!store[ch][band]) store[ch][band] = {}]
    followed by assignments [f] to properties of the band object. *)
Definition update_band (ch band : Z) (f : Band → Band) (m : gmap Z Strip) : gmap Z Strip :=
  let st := strip_of m ch in
  <[ch := mkStrip st.(bypass) (<[band := f (band_of m ch band)]> st.(bands))]> m.

Definition set_gain (v : Q) (b : Band) : Band :=
  mkBand (Some v) b.(frequency) b.(slope) b.(bandwidth) b.(band_bypass).

Definition set_frequency (v : Q) (b : Band) : Band :=
  mkBand b.(gain) (Some v) b.(slope) b.(bandwidth) b.(band_bypass).

Definition set_slope (v : Q) (b : Band) : Band :=
  mkBand b.(gain) b.(frequency) (Some v) b.(bandwidth) b.(band_bypass).

Definition set_bypass (v : bool) (st : Strip) : Strip :=
  mkStrip (Some v) st.(bands).

Definition ushaping_path (d : Domain) (ch band : Z) (field : string) : list Seg :=
  [T "processing"; T (domain_name d); Idx ch; T "ushaping"; Idx band; T field].

(** *** Rotary knobs and the acceleration tier *)

Record RotaryEvent : Type := mkRotaryEvent {
  (** [e.surfaceId]; [None] when undefined *)
  surfaceId : option string;
  (** [e.controlId] *)
  controlId : option string;
  (** [e.event.surfaceId], [e.event.controlId] *)
  event_surfaceId : option string;
  event_controlId : option string;
  (** [e.encoder_delta] when it is a number *)
  encoder_delta : option Q
}.

(** [a || b] on strings that may be undefined: the empty string is falsy. *)
Definition or_string (a b : option string) : option string :=
  match a with
  | Some s => if String.eqb s "" then b else Some s
  | None => b
  end.

Definition buildRotaryKey (ev : RotaryEvent) : option string :=
  let surf := default "default" (or_string ev.(surfaceId) ev.(event_surfaceId)) in
  let ctrl := or_string ev.(controlId) ev.(event_controlId) in
  match ctrl with
  | Some c => Some (surf +:+ "::" +:+ c)
  | None => None
  end.

(** [`${prefix}${e.surfaceId || 'default'}`] *)
Definition accelKey (prefix : string) (ev : RotaryEvent) : string :=
  prefix +:+ default "default" (or_string ev.(surfaceId) None).

(** The acceleration block every accelerated knob contains, verbatim up to
    the key prefix: read the last rotation, compute the tier, store
    [{ time: now, count: speedTier }]; the tier is returned. *)
Definition accelerate (prefix : string) (ev : RotaryEvent) (w : World) : Z * World :=
  let now := w.(now) in
  let accelKey := accelKey prefix ev in
  let lastRotation := default (mkRotation 0 0) (w.(self).(_rotaryAccel) !! accelKey) in
  let timeDiff := now - lastRotation.(time) in
  let speedTier :=
    if timeDiff <? 100 then Z.min (lastRotation.(count) + 1) 3 else 0 in
  (speedTier,
   with_self (λ s, set__rotaryAccel
     (<[accelKey := mkRotation now speedTier]> s.(_rotaryAccel)) s) w).

(** [table[speedTier]]; the tier is always a valid index (0..3). *)
Definition tier_lookup {A} (table : list A) (speedTier : Z) (dflt : A) : A :=
  nth (Z.to_nat speedTier) table dflt.

(** [selectedOutputs || [1]] and [selectedBand || 1] *)
Definition knob_channels (k : option KnobControl) : list Z :=
  match k with
  | Some (mkKnob (Some l) _) => l
  | _ => [1]
  end.

Definition knob_band (k : option KnobControl) : Z :=
  match k with
  | Some (mkKnob _ (Some b)) => if b =? 0 then 1 else b
  | _ => 1
  end.

(** [delta >= 0 ? 1 : -1] *)
Definition sign_of (delta : Q) : Q := if Js.leb 0 delta then 1%Q else (-1)%Q.

Definition slopeValues : list Q := [6; 12; 18; 24; 30; 36; 42; 48]%Q.

(** The "find closest slope value" loop. *)
Definition closestIndex (vals : list Q) (currentValue : Q) : nat :=
  snd (foldl (λ '(minDiff, currentIndex) i,
         let diff := Js.Math_abs (nth i vals 0 - currentValue)%Q in
         if Js.ltb diff minDiff then (diff, i) else (minDiff, currentIndex))
       (Js.Math_abs (nth 0 vals 0 - currentValue)%Q, 0%nat)
       (seq 1 (length vals - 1)%nat)).

(** The body of [for (const ch of chs)] in [output_ushaping_knob_slope]. *)
Definition knob_slope_body (direction : string) (stepCount band : Z) (w : World) (ch : Z) : World :=
  let currentValue := default 12%Q (band_of w.(self).(outputUShaping) ch band).(slope) in
  let currentIndex := Z.of_nat (closestIndex slopeValues currentValue) in
  let len := Z.of_nat (length slopeValues) in
  let newIndex :=
    if String.eqb direction "up" then Z.rem (currentIndex + stepCount) len
    else Z.rem (currentIndex - stepCount + len) len in
  let finalValue := nth (Z.to_nat newIndex) slopeValues 0%Q in
  let w := with_self (λ s, set_outputUShaping
             (update_band ch band (set_slope finalValue) s.(outputUShaping)) s) w in
  let w := _cmdSendLine (mkCmd (ushaping_path Output ch band "slope") (VNum finalValue)) w in
  let w := call_if_defined "_applyOutputUShaping"
             [VInt ch; VInt band; VQuote "slope"; VNum finalValue] w in
  log "info" "U-Shaping: Output slope" w.

(** [output_ushaping_knob_slope]; [direction] is [e.options.direction]. *)
Definition output_ushaping_knob_slope (e : RotaryEvent) (direction : string) (w : World) : World :=
  if negb (has "_cmdSendLine" w) then w
  else
    let chs := knob_channels w.(self).(_ushapingKnobControlOutput) in
    let band := knob_band w.(self).(_ushapingKnobControlOutput) in
    let direction := if String.eqb direction "" then "up" else direction in
    (* Time-based acceleration for rotary encoders *)
    let '(stepCount, w) :=
      match e.(surfaceId) with
      | Some _ =>
        let '(speedTier, w) := accelerate "ushaping_slope_" e w in
        (tier_lookup [1; 2; 3; 4] speedTier 0, w)
      | None => (1, w)
      end in
    foldl (knob_slope_body direction stepCount band) w chs.

(** The octave table of the frequency knobs, chosen by the current value. *)
Definition freq_deltaTiers (currentValue : Q) : list Q :=
  (if Js.ltb currentValue 31 then [1 # 2; 1; 2; 4]
   else if Js.ltb currentValue 63 then [1; 2; 5; 10]
   else if Js.ltb currentValue 125 then [2; 5; 10; 20]
   else if Js.ltb currentValue 250 then [5; 10; 20; 40]
   else if Js.ltb currentValue 500 then [10; 20; 50; 100]
   else if Js.ltb currentValue 1000 then [20; 50; 100; 200]
   else if Js.ltb currentValue 2000 then [50; 100; 200; 500]
   else if Js.ltb currentValue 4000 then [100; 200; 500; 1000]
   else if Js.ltb currentValue 8000 then [200; 500; 1000; 2000]
   else if Js.ltb currentValue 16000 then [500; 1000; 2000; 4000]
   else [1000; 2000; 3000; 5000])%Q.

Record FreqRange : Type := mkRange { range_min : Q; range_max : Q; range_default : Q }.

Definition freqRanges (band : Z) : FreqRange :=
  (if band =? 1 then mkRange 20 2500 62
   else if band =? 2 then mkRange 40 5000 250
   else if band =? 3 then mkRange 80 10000 1000
   else if band =? 4 then mkRange 160 20000 4000
   else mkRange 20 20000 1000)%Q.

(** The body of [for (const ch of chs)] in [output_ushaping_knob_frequency]. *)
Definition knob_frequency_body (e : RotaryEvent) (delta : Q) (band : Z) (range : FreqRange)
    (w : World) (ch : Z) : World :=
  let currentValue :=
    default range.(range_default) (band_of w.(self).(outputUShaping) ch band).(frequency) in
  (* Time-based acceleration for rotary encoders with range-based tiers *)
  let '(delta, w) :=
    match e.(surfaceId) with
    | Some _ =>
      let '(speedTier, w) := accelerate "ushaping_freq_" e w in
      let deltaTiers := freq_deltaTiers currentValue in
      ((tier_lookup deltaTiers speedTier 0 * sign_of delta)%Q, w)
    | None => (delta, w)
    end in
  let newValue := (currentValue + delta)%Q in
  let finalValue := Js.Math_max range.(range_min) (Js.Math_min range.(range_max) newValue) in
  let w := with_self (λ s, set_outputUShaping
             (update_band ch band (set_frequency finalValue) s.(outputUShaping)) s) w in
  let w := _cmdSendLine (mkCmd (ushaping_path Output ch band "frequency") (VNum finalValue)) w in
  let w := call_if_defined "_applyOutputUShaping"
             [VInt ch; VInt band; VQuote "frequency"; VNum finalValue] w in
  log "info" "U-Shaping: Output frequency" w.

(** [output_ushaping_knob_frequency]; [delta] is [Number(e.options.delta ?? 0)]. *)
Definition output_ushaping_knob_frequency (e : RotaryEvent) (delta : Q) (w : World) : World :=
  if negb (has "_cmdSendLine" w) then w
  else
    let chs := knob_channels w.(self).(_ushapingKnobControlOutput) in
    let band := knob_band w.(self).(_ushapingKnobControlOutput) in
    (* Band 5 doesn't have frequency *)
    if band =? 5 then
      log "warn" "U-Shaping: Band 5 (HF) does not have frequency parameter" w
    else
      let range := freqRanges band in
      foldl (knob_frequency_body e delta band range) w chs.

(** The body of [for (const ch of chs)] in the U-Shaping gain knobs. *)
Definition knob_gain_body (d : Domain) (delta : Q) (band : Z) (w : World) (ch : Z) : World :=
  let currentValue := default 0%Q (band_of (ushaping_of d w.(self)) ch band).(gain) in
  let newValue := (currentValue + delta)%Q in
  let finalValue := Js.Math_max (-15) (Js.Math_min 15 newValue) in
  (* Update internal state *)
  let w := with_self (λ s, set_ushaping_of d
             (update_band ch band (set_gain finalValue) (ushaping_of d s)) s) w in
  let w := _cmdSendLine (mkCmd (ushaping_path d ch band "gain") (VNum finalValue)) w in
  let w := call_if_defined ("_apply" +:+ Cap d +:+ "UShaping")
             [VInt ch; VInt band; VQuote "gain"; VNum finalValue] w in
  log "info" "U-Shaping: gain" w.

(** [output_ushaping_knob_gain]; [delta_fine] and [delta_coarse] are
    [Number(e.options.delta_fine)] and [Number(e.options.delta_coarse)]. *)
Definition output_ushaping_knob_gain (e : RotaryEvent) (delta_fine delta_coarse : Js.number)
    (w : World) : World :=
  if negb (has "_cmdSendLine" w) then w
  else
    let chs := knob_channels w.(self).(_ushapingKnobControlOutput) in
    let band := knob_band w.(self).(_ushapingKnobControlOutput) in
    let key := buildRotaryKey e in
    let isCoarse :=
      match key with
      | Some k => default false (w.(self).(_rotaryPressState) !! k)
      | None => false
      end in
    let base := Js.or_default (if isCoarse then delta_coarse else delta_fine)
                  (if isCoarse then 1 # 2 else 1 # 10)%Q in
    let sign :=
      match e.(encoder_delta) with
      | Some ed =>
        if Qeq_bool ed 0 then sign_of base
        else if Js.ltb 0 ed then 1%Q else (-1)%Q
      | None => sign_of base
      end in
    let delta := (Js.Math_abs base * sign)%Q in
    foldl (knob_gain_body Output delta band) w chs.

(** [input_ushaping_knob_gain]; [delta] is [Number(e.options.delta ?? 0)]. *)
Definition input_ushaping_knob_gain (e : RotaryEvent) (delta : Q) (w : World) : World :=
  if negb (has "_cmdSendLine" w) then w
  else
    let chs := knob_channels w.(self).(_ushapingKnobControl) in
    let band := knob_band w.(self).(_ushapingKnobControl) in
    (* Time-based acceleration for rotary encoders *)
    let '(delta, w) :=
      match e.(surfaceId) with
      | Some _ =>
        let '(speedTier, w) := accelerate "ushaping_gain_" e w in
        let deltaTiers := [1 # 10; 1 # 2; 1; 2]%Q in
        ((tier_lookup deltaTiers speedTier 0 * sign_of delta)%Q, w)
      | None => (delta, w)
      end in
    foldl (knob_gain_body Input delta band) w chs.

(** *** Array Curve Distributor: [output_hf_attenuation] *)

Record HfOptions : Type := mkHfOptions {
  (** [Number(e.options.start_output)] *)
  start_output : Js.number;
  (** [Number(e.options.total)] *)
  total : Js.number;
  (** [Number(e.options.ratio)] *)
  ratio : Js.number
}.

(** [Math.log] of a positive integer. *)
Definition Math_log (x : Z) : R := ln (IZR x).

(** A division on reals, instrumented: the second component counts a
    divisor equal to zero. *)
Definition divide (a b : R) : R * nat :=
  ((a / b)%R, if Req_dec_T b 0 then 1%nat else 0%nat).

(** [Math.round(v * 10) / 10], with [-0] turned into [0] (a rational has
    one zero). *)
Definition roundTenth (v : R) : Q := Js.Math_roundR (v * 10) # 10.

(** The curve value of one loudspeaker, before rounding. *)
Definition rawDb (span boxIndex : Z) (posMax negMax : Q) : R * nat :=
  let logBase := Math_log span in
  if boxIndex <=? span then
    let '(t, f) := divide (Math_log boxIndex) logBase in
    ((Q2R posMax * (1 - t))%R, f)
  else
    let j := Z.max 1 (2 * span - boxIndex + 1) in
    let '(s, f) := divide (logBase - Math_log j)%R logBase in
    ((- Q2R negMax * s)%R, f).

Definition band4Frequency : Q := 8000.
Definition band4Slope : Q := 1.

(** "Update local state for U-Shaping Bands 4 (freq/slope) and 5 (HF
    gain)": the three assignments of one loop turn. *)
Definition hf_store (ch : Z) (db : Q) (m : gmap Z Strip) : gmap Z Strip :=
  update_band ch 5 (set_gain db)
    (update_band ch 4 (λ b, set_slope band4Slope (set_frequency band4Frequency b)) m).

(** "Send to device": the three lines of one loop turn. *)
Definition hf_lines (ch : Z) (db : Q) : list Cmd :=
  [mkCmd (ushaping_path Output ch 4 "frequency") (VNum band4Frequency);
   mkCmd (ushaping_path Output ch 4 "slope") (VNum band4Slope);
   mkCmd (ushaping_path Output ch 5 "gain") (VNum db)].

(** The body of the [for (let i = 0; i < total; i++)] loop; [break] ends
    the recursion. *)
Fixpoint hf_loop (start span : Z) (posMax negMax : Q) (idxs : list Z)
    (acc : World * list (Z * Q)) : World * list (Z * Q) :=
  match idxs with
  | [] => acc
  | i :: rest =>
    let '(w, assignments) := acc in
    let boxIndex := i + 1 in
    let ch := start + i in
    if ch >? NUM_OUTPUTS then acc
    else
      let '(raw, f) := rawDb span boxIndex posMax negMax in
      let db := roundTenth raw in
      let w := fault f w in
      let w := with_self (λ s, set_outputUShaping (hf_store ch db s.(outputUShaping)) s) w in
      let w := foldl (λ w c, _cmdSendLine c w) w (hf_lines ch db) in
      hf_loop start span posMax negMax rest (w, assignments ++ [(ch, db)])
  end.

Definition hf_start (o : HfOptions) : Z :=
  Z.max 1 (Z.min NUM_OUTPUTS (Js.Math_round (Js.or_default o.(start_output) 1))).

Definition hf_total (o : HfOptions) : Z :=
  let total :=
    match o.(total) with
    | Some totalRaw => Js.Math_round totalRaw
    | None => NUM_OUTPUTS
    end in
  Z.max 1 (Z.min total (NUM_OUTPUTS - hf_start o + 1)).

(** Half the selected array length, the positive-curve span. *)
Definition hf_span (o : HfOptions) : Z :=
  Z.max 1 (Js.Math_ceil (inject_Z (hf_total o) / 2)).

Definition hf_totalSwing (o : HfOptions) : Q :=
  Js.Math_max (1 # 10) (Js.Math_min 24 (default 8%Q o.(ratio))).

Definition output_hf_attenuation (o : HfOptions) (w : World) : World :=
  if negb (has "_cmdSendLine" w) then w
  else
    let start := hf_start o in
    let total := hf_total o in
    let span := hf_span o in
    let logBase := Math_log span in
    if Rle_dec logBase 0 then
      log "warn" "HF attenuation: invalid span (must be > 1)" w
    else
      let totalSwing := hf_totalSwing o in
      let posMax := (totalSwing / 3)%Q in
      let negMax := ((totalSwing * 2) / 3)%Q in
      let '(w, assignments) :=
        hf_loop start span posMax negMax (seqZ 0 total) (w, []) in
      if is_empty assignments then w
      else log "info" "HF attenuation from output" w.

(** *** Parametric EQ bypass and knob selection *)

Record EqBypassOptions : Type := mkEqBypass {
  (** [e.options.chs] *)
  eq_chs : list Token;
  (** [e.options.mode]; [None] when undefined *)
  eq_mode : option string;
  (** [e.options.state] *)
  eq_state : string
}.

Definition eq_bypass_path (d : Domain) (ch : Z) : list Seg :=
  [T "processing"; T (domain_name d); Idx ch; T "eq"; T "bypass"].

(** Modelled from the spec: [_applyInputEQBypass] / [_applyOutputEQBypass]
    are defined in the main module.  Section 4.8: the Parameter Store is
    updated in the same step as the transmission; the store is the
    [bypass] property the callback reads for its toggle. *)
Definition _applyEQBypass (d : Domain) (ch : Z) (state : bool) (s : Self) : Self :=
  set_eq_of d (<[ch := set_bypass state (strip_of (eq_of d s) ch)]> (eq_of d s)) s.

(** The body of [for (const ch of chs)] in the EQ bypass callbacks. *)
Definition eq_bypass_body (d : Domain) (mode state_opt : string) (w : World) (ch : Z) : World :=
  let state :=
    if String.eqb mode "toggle" then
      let current := default false (strip_of (eq_of d w.(self)) ch).(bypass) in
      negb current
    else String.eqb state_opt "true" in
  let w := _cmdSendLine (mkCmd (eq_bypass_path d ch) (VText (bool_text state))) w in
  let w := optionally ("_apply" +:+ Cap d +:+ "EQBypass") (_applyEQBypass d ch state) w in
  log "info" "Parametric EQ: bypass" w.

(** [input_eq_bypass] / [output_eq_bypass] *)
Definition eq_bypass (d : Domain) (o : EqBypassOptions) (w : World) : World :=
  let chs := safeGetChannels o.(eq_chs) (NUM d) in
  let mode := default "set" o.(eq_mode) in
  foldl (eq_bypass_body d mode o.(eq_state)) w chs.

Definition input_eq_bypass := eq_bypass Input.
Definition output_eq_bypass := eq_bypass Output.

(** [output_eq_select_output]: the argument is [e.options.chs]. *)
Definition output_eq_select_output (sel : list Token) (w : World) : World :=
  let chs := safeGetChannels sel NUM_OUTPUTS in
  with_self (λ s,
    set__eqKnobControlOutput
      (Some (mkKnob (Some chs)
         (match s.(_eqKnobControlOutput) with Some k => k.(selectedBand) | None => None end)))
      s) w.

(** [output_ushaping_select_output]: the argument is [e.options.chs]. *)
Definition output_ushaping_select_output (sel : list Token) (w : World) : World :=
  let chs := safeGetChannels sel NUM_OUTPUTS in
  if is_empty chs then
    log "warn" "No valid output channels selected" w
  else
    let w :=
      with_self (λ s,
        set__ushapingKnobControlOutput
          (Some (mkKnob (Some chs)
             (match s.(_ushapingKnobControlOutput) with
              | Some k => k.(selectedBand)
              | None => None
              end)))
          s) w in
    log "info" "U-Shaping: Selected output(s)" w.

End Actions.

(** ** Observations used in the statements *)

(** An instance with empty stores, and a world around it: the given helper
    methods are defined, the clock reads [t], nothing has happened yet. *)
Definition empty_self : Self :=
  mkSelf ∅ ∅ None None ∅ ∅ ∅ ∅ ∅ ∅ ∅ ∅ ∅ ∅ ∅ None None None None.

Definition idle_world (defined : list string) (t : Z) : World :=
  mkWorld empty_self (list_to_set defined) t [] [] [] 0.

(** What a callback appended to the transmitted lines, to the log and to
    the helper calls. *)
Definition sent_since (w w' : World) : list Cmd := drop (length w.(sent)) w'.(sent).
Definition logged_since (w w' : World) : list LogEntry := drop (length w.(logs)) w'.(logs).
Definition called_since (w w' : World) : list Call := drop (length w.(calls)) w'.(calls).

(** The gain handed to [_set...Gain] or [_start...GainFade] by one helper
    call: the channel and the target value. *)
Definition applied_gain (d : Domain) (c : Call) : option (Z * Q) :=
  if String.eqb c.(call_name) ("_set" +:+ Cap d +:+ "Gain")
     || String.eqb c.(call_name) ("_start" +:+ Cap d +:+ "GainFade")
  then
    match c.(call_args) with
    | VNum ch :: VNum g :: _ => Some (Qfloor ch, g)
    | _ => None
    end
  else None.

Definition gains_applied (d : Domain) (cs : list Call) : list (Z * Q) :=
  omap (applied_gain d) cs.

(** The [assignments] array of [output_hf_attenuation]: channel and
    rounded curve value, in loop order. *)
Definition hf_assignments (NUM_OUTPUTS : Z) (o : HfOptions) (w : World) : list (Z * Q) :=
  let totalSwing := hf_totalSwing o in
  snd (hf_loop NUM_OUTPUTS (hf_start NUM_OUTPUTS o) (hf_span NUM_OUTPUTS o)
         (totalSwing / 3)%Q ((totalSwing * 2) / 3)%Q
         (seqZ 0 (hf_total NUM_OUTPUTS o)) (w, [])).

(** The rounded curve value of the loudspeaker at loop index [i]. *)
Definition hf_db (NUM_OUTPUTS : Z) (o : HfOptions) (i : Z) : Q :=
  roundTenth (fst (rawDb (hf_span NUM_OUTPUTS o) (i + 1)
                     (hf_totalSwing o / 3) ((hf_totalSwing o * 2) / 3))).

(** The stored tier of an acceleration key. *)
Definition tier (key : string) (w : World) : option Z :=
  count <$> w.(self).(_rotaryAccel) !! key.


(** Every stored tier is between 0 and 3. *)
Definition tiers_bounded (w : World) : Prop :=
  ∀ key r, _rotaryAccel (self w) !! key = Some r → 0 ≤ count r ≤ 3.

(** What a world may differ in after a matrix delay request whose unit is
    "unchanged": only [delay_bypass] lines were transmitted, no helper
    outside the matrix store was called, and in the matrix store the type
    and the sample count of every cross-point are as before. *)
Definition bypass_only (w0 w : World) : Prop :=
  methods w = methods w0 ∧ calls w = calls w0 ∧ logs w = logs w0 ∧
  (∃ cs, sent w = sent w0 ++ cs ∧
         ∀ c, c ∈ cs → ∃ i j v, c = mkCmd (matrix_path i j "delay_bypass") v) ∧
  self w = set_matrixDelay (matrixDelay (self w)) (self w0) ∧
  ∀ i j, md_type (matrix_entry i j (self w)) = md_type (matrix_entry i j (self w0)) ∧
         md_samples (matrix_entry i j (self w)) = md_samples (matrix_entry i j (self w0)).

(** A run of rotation events on the slope knob: before each event the
    clock advances by the next gap (in milliseconds). *)
Definition knob_slope_turns (e : RotaryEvent) (direction : string) (gaps : list Z)
    (w : World) : World :=
  foldl (λ w dt, output_ushaping_knob_slope e direction (advance dt w)) w gaps.


(** A helper call that starts a gain fade of the domain. *)
Definition is_fade (d : Domain) (c : Call) : bool :=
  String.eqb c.(call_name) ("_start" +:+ Cap d +:+ "GainFade").


(** ** Further actions of the three files *)

(** *** Coarse mode and the band bypass button *)

Definition set__rotaryPressState (v : gmap string bool) (s : Self) : Self :=
  mkSelf s.(inMute) s.(outMute) s.(inputSoloState) s.(outputSoloState)
    s.(inputGain) s.(outputGain) s.(_inputGainToggle) s.(_outputGainToggle)
    s.(matrixDelay) s.(_rotaryAccel) v s.(inputUShaping)
    s.(outputUShaping) s.(inputEQ) s.(outputEQ) s.(_ushapingKnobControl)
    s.(_ushapingKnobControlOutput) s.(_eqKnobControl)
    s.(_eqKnobControlOutput).

(** The callback of the coarse-mode actions, which differ in the text of
    their warning only: [output_ushaping_gain_coarse_mode],
    [output_eq_gain_coarse_mode], [output_allpass_q_coarse_mode] and the
    two Chingonizer coarse modes of the inputs.  [mode] is
    [e.options.mode]. *)
Definition coarse_mode (warning : string) (e : RotaryEvent) (mode : string) (w : World) : World :=
  match buildRotaryKey e with
  | None => log "warn" warning w
  | Some key =>
    with_self (λ s,
      let st := s.(_rotaryPressState) in
      set__rotaryPressState
        (if String.eqb mode "press" then <[key := true]> st
         else if String.eqb mode "release" then delete key st
         else
           (* [st[key] = !st[key]; if (!st[key]) delete st[key]] *)
           let v := negb (default false (st !! key)) in
           if v then <[key := v]> st else delete key st) s) w
  end.

Definition output_ushaping_gain_coarse_mode : RotaryEvent → string → World → World :=
  coarse_mode "U-Shaping coarse mode: no controlId/surfaceId available".

Definition output_eq_gain_coarse_mode : RotaryEvent → string → World → World :=
  coarse_mode "Output PEQ coarse mode: no controlId/surfaceId available".

Definition set_band_bypass (v : bool) (b : Band) : Band :=
  mkBand b.(gain) b.(frequency) b.(slope) b.(bandwidth) (Some v).

(** The body of [for (const ch of chs)] in the U-Shaping band bypass
    buttons; [continue] skips a channel outside [1, NUM]. *)
Definition knob_band_bypass_body (d : Domain) (NUM band : Z) (w : World) (ch : Z) : World :=
  if (ch <? 1) || (ch >? NUM) then w
  else
    (* Get current bypass state (default to false if unknown) *)
    let currentBypass := default false (band_of (ushaping_of d w.(self)) ch band).(band_bypass) in
    let newBypass := negb currentBypass in
    let w := _cmdSendLine (mkCmd (ushaping_path d ch band "band_bypass")
                             (VText (bool_text newBypass))) w in
    let w := with_self (λ s, set_ushaping_of d
               (update_band ch band (set_band_bypass newBypass) (ushaping_of d s)) s) w in
    log "info" "U-Shaping: band bypass" w.

(** [output_ushaping_knob_band_bypass] and [input_ushaping_knob_band_bypass];
    [NUM] is [NUM_OUTPUTS] or [NUM_INPUTS].  The callbacks call
    [self._cmdSendLine] without testing for it. *)
Definition ushaping_knob_band_bypass (d : Domain) (NUM : Z) (w : World) : World :=
  match ushapingKnob_of d w.(self) with
  | None => w
  | Some k =>
    let chs := knob_channels (Some k) in
    let band := knob_band (Some k) in
    (* U-Shaping has 5 bands *)
    if (band <? 1) || (band >? 5) then w
    else foldl (knob_band_bypass_body d NUM band) w chs
  end.


(** *** Numbers that may be NaN *)

(** [Math.max(lo, Math.min(hi, n))]: NaN stays NaN. *)
Definition clampN (lo hi : Q) (n : Js.number) : Js.number :=
  (λ q, Js.Math_max lo (Js.Math_min hi q)) <$> n.

(** [-n] *)
Definition negN (n : Js.number) : Js.number := Qopp <$> n.

(** [a + b]: NaN when either is. *)
Definition addN (a b : Js.number) : Js.number :=
  match a, b with Some x, Some y => Some (x + y)%Q | _, _ => None end.

(** A number as a template literal prints it. *)
Definition VNumber (n : Js.number) : Value :=
  match n with Some q => VNum q | None => VText "NaN" end.

(** *** Chingonizer and the U-Shaping adjust action of the inputs *)

Record ChingonizerOptions : Type := mkChingonizer {
  (** [e.options.chs] *)
  ching_chs : list Token;
  (** [Number(e.options.frequency ?? 1000)] *)
  ching_frequency : Js.number;
  (** [Number(e.options.gain ?? 0)] *)
  ching_gain : Js.number
}.

(** "Frequencies and slopes for bands 1-4": one turn of the inner loop. *)
Definition chingonizer_band (ch : Z) (freq : Js.number) (w : World) (band : Z) : World :=
  let slopeValue : Q := 1%Q in
  let w := _cmdSendLine (mkCmd (ushaping_path Input ch band "frequency") (VNumber freq)) w in
  let w := _cmdSendLine (mkCmd (ushaping_path Input ch band "slope") (VNum slopeValue)) w in
  if has "_applyInputUShaping" w then
    call "_applyInputUShaping" [VInt ch; VInt band; VQuote "slope"; VNum slopeValue]
      (call "_applyInputUShaping" [VInt ch; VInt band; VQuote "frequency"; VNumber freq] w)
  else w.

Definition chingonizer_body (freq band1Gain band5Gain : Js.number) (w : World) (ch : Z) : World :=
  let w := foldl (chingonizer_band ch freq) w (seqZ 1 4) in
  (* Mirrored gains for bands 1 and 5 *)
  let w := _cmdSendLine (mkCmd (ushaping_path Input ch 1 "gain") (VNumber band1Gain)) w in
  let w := _cmdSendLine (mkCmd (ushaping_path Input ch 5 "gain") (VNumber band5Gain)) w in
  let w :=
    if has "_applyInputUShaping" w then
      call "_applyInputUShaping" [VInt ch; VInt 5; VQuote "gain"; VNumber band5Gain]
        (call "_applyInputUShaping" [VInt ch; VInt 1; VQuote "gain"; VNumber band1Gain] w)
    else w in
  log "info" "Chingonizer: Input" w.

(** [input_ushaping_chingonizer] *)
Definition input_ushaping_chingonizer (NUM_INPUTS : Z) (o : ChingonizerOptions) (w : World) : World :=
  if negb (has "_cmdSendLine" w) then w
  else
    let chs := safeGetChannels o.(ching_chs) NUM_INPUTS in
    if is_empty chs then log "warn" "No valid input channels selected" w
    else
      let freq := clampN 160 2500 o.(ching_frequency) in
      let band1Gain := clampN (-18) 18 o.(ching_gain) in
      let band5Gain := clampN (-18) 18 (negN band1Gain) in
      foldl (chingonizer_body freq band1Gain band5Gain) w chs.

Record UShapingAdjustOptions : Type := mkUShapingAdjust {
  (** [e.options.chs] *)
  adj_chs : list Token;
  (** [Number(e.options.band)]; the dropdown ids are '1' to '5' *)
  adj_band : Z;
  (** [e.options.param], [e.options.mode] *)
  adj_param : string;
  adj_mode : string;
  (** [Number(e.options.gain_delta ?? 0)] and the like *)
  adj_gain_delta : Js.number;
  adj_frequency_delta : Js.number;
  adj_slope_delta : Js.number;
  adj_gain_value : Js.number;
  adj_frequency_value : Js.number;
  adj_slope_value : Js.number
}.

(** [finalValue] of one channel; [None] is [undefined] (a parameter that is
    none of the three). *)
Definition adjust_finalValue (o : UShapingAdjustOptions) (s : Self) (ch : Z) : option Js.number :=
  let band := band_of s.(inputUShaping) ch o.(adj_band) in
  if String.eqb o.(adj_mode) "adjust" then
    (* Get current value and adjust it *)
    if String.eqb o.(adj_param) "gain" then
      Some (clampN (-18) 18 (addN (Some (default 0%Q band.(gain))) o.(adj_gain_delta)))
    else if String.eqb o.(adj_param) "frequency" then
      Some (clampN 10 20000 (addN (Some (default 1000%Q band.(frequency))) o.(adj_frequency_delta)))
    else if String.eqb o.(adj_param) "slope" then
      Some (clampN (1 # 10) 2 (addN (Some (default 1%Q band.(slope))) o.(adj_slope_delta)))
    else None
  else
    (* Set to absolute value *)
    if String.eqb o.(adj_param) "gain" then Some (clampN (-18) 18 o.(adj_gain_value))
    else if String.eqb o.(adj_param) "frequency" then Some (clampN 10 20000 o.(adj_frequency_value))
    else if String.eqb o.(adj_param) "slope" then Some (clampN (1 # 10) 2 o.(adj_slope_value))
    else None.

Definition VFinal (v : option Js.number) : Value :=
  match v with Some n => VNumber n | None => VText "undefined" end.

Definition adjust_body (o : UShapingAdjustOptions) (w : World) (ch : Z) : World :=
  let finalValue := adjust_finalValue o w.(self) ch in
  (* Send the command *)
  let w := _cmdSendLine (mkCmd (ushaping_path Input ch o.(adj_band) o.(adj_param))
                           (VFinal finalValue)) w in
  (* Update internal state if available *)
  let w := call_if_defined "_applyInputUShaping"
             [VInt ch; VInt o.(adj_band); VQuote o.(adj_param); VFinal finalValue] w in
  log "info" "Input: U-Shaping" w.

(** [input_ushaping_adjust] *)
Definition input_ushaping_adjust (NUM_INPUTS : Z) (o : UShapingAdjustOptions) (w : World) : World :=
  if negb (has "_cmdSendLine" w) then w
  else
    let chs := safeGetChannels o.(adj_chs) NUM_INPUTS in
    if is_empty chs then log "warn" "No valid input channels selected" w
    else
      (* Band 5 only supports gain *)
      if (o.(adj_band) =? 5) && negb (String.eqb o.(adj_param) "gain") then
        log "warn" "Band 5 only supports gain parameter" w
      else foldl (adjust_body o) w chs.


(** *** Parametric EQ knobs *)









(** *** Matrix gain *)

Record MatrixGainOptions : Type := mkMatrixGainOptions {
  mg_inputs : list Token;
  mg_outputs : list Token;
  (** [e.options.mode] *)
  mg_mode : string;
  (** [Number(e.options.gain)], [Number(e.options.delta)], [Number(e.options.fadeMs)] *)
  mg_gain : Js.number;
  mg_delta : Js.number;
  mg_fadeMs : Js.number;
  (** [e.options.curve] *)
  mg_curve : string
}.

(** An array of output numbers handed to a helper. *)
Definition VOuts (outs : list Z) : Value := VPath (Idx <$> outs).

(** [matrix_gain]: the three helpers [_nudgeMatrixGainMulti],
    [_startMatrixGainFadeMulti] and [_setMatrixGainMulti] live in the main
    module; the callback's part is to choose one and its arguments. *)
Definition matrix_gain (NUM_OUTPUTS : Z) (o : MatrixGainOptions) (w : World) : World :=
  let inputs := safeGetChannels o.(mg_inputs) 32 in
  let outs := safeGetChannels o.(mg_outputs) NUM_OUTPUTS in
  if is_empty inputs || is_empty outs then
    log "warn" "No valid matrix channels selected" w
  else
    let mode :=
      if String.eqb o.(mg_mode) "nudge" || String.eqb o.(mg_mode) "minus6"
      then o.(mg_mode) else "set" in
    if String.eqb mode "nudge" then
      let d := o.(mg_delta) in
      foldl (λ w i,
        call_if_defined "_nudgeMatrixGainMulti" [VInt i; VOuts outs; VNumber d] w) w inputs
    else
      let targetGain : Q :=
        if String.eqb mode "minus6" then (-6)%Q else default 0%Q o.(mg_gain) in
      let dur : Q :=
        if String.eqb mode "minus6" then 0%Q
        else Js.Math_max 0 (Js.or_default o.(mg_fadeMs) 0) in
      let curve := if String.eqb o.(mg_curve) "log" then "log" else "linear" in
      foldl (λ w i,
        if Js.ltb 0 dur && has "_startMatrixGainFadeMulti" w then
          call "_startMatrixGainFadeMulti"
            [VInt i; VOuts outs; VNum targetGain; VNum dur; VText curve] w
        else if has "_setMatrixGainMulti" w then
          call "_setMatrixGainMulti" [VInt i; VOuts outs; VNum targetGain] w
        else w) w inputs.


(** *** Link groups, filters and atmospheric correction *)

(** [self.outputAtmospheric[ch]] *)
Record Atmospheric : Type := mkAtmospheric {
  atm_bypass : option bool;
  atm_distance : option Z;
  atm_gain : option Z
}.

(** The module instance with the stores these actions read or write
    beside those of [Self]. *)
Record Galaxy : Type := mkGalaxy {
  world : World;
  inputLinkGroupBypass : gmap Z bool;
  outputLinkGroupBypass : gmap Z bool;
  (** [self.outputHighpass[ch].bypass], [self.outputLowpass[ch].bypass] *)
  outputHighpass : gmap Z bool;
  outputLowpass : gmap Z bool;
  outputAtmospheric : gmap Z Atmospheric
}.

Definition in_world (f : World → World) (g : Galaxy) : Galaxy :=
  mkGalaxy (f g.(world)) g.(inputLinkGroupBypass) g.(outputLinkGroupBypass)
    g.(outputHighpass) g.(outputLowpass) g.(outputAtmospheric).

Definition linkGroupBypass_of (d : Domain) (g : Galaxy) : gmap Z bool :=
  match d with Input => g.(inputLinkGroupBypass) | Output => g.(outputLinkGroupBypass) end.

Definition set_linkGroupBypass_of (d : Domain) (v : gmap Z bool) (g : Galaxy) : Galaxy :=
  match d with
  | Input => mkGalaxy g.(world) v g.(outputLinkGroupBypass)
               g.(outputHighpass) g.(outputLowpass) g.(outputAtmospheric)
  | Output => mkGalaxy g.(world) g.(inputLinkGroupBypass) v
                g.(outputHighpass) g.(outputLowpass) g.(outputAtmospheric)
  end.

Definition link_group_path (d : Domain) (group : Z) : list Seg :=
  [T "device"; T (domain_name d +:+ "_link_group"); Idx group; T "bypass"].

(** The body of [for (const group of groups)]. *)
Definition link_group_bypass_body (d : Domain) (op : string) (g : Galaxy) (group : Z) : Galaxy :=
  let currentBypass := linkGroupBypass_of d g !! group in
  let targetBypass :=
    if String.eqb op "on" then true
    else if String.eqb op "off" then false
    else negb (bool_decide (currentBypass = Some true)) in
  let value := bool_text targetBypass in
  let g := in_world (_cmdSendLine (mkCmd (link_group_path d group) (VQuote value))) g in
  (* Update local state *)
  let g := set_linkGroupBypass_of d (<[group := targetBypass]> (linkGroupBypass_of d g)) g in
  in_world (log "info" (Cap d +:+ " Link Group bypass")) g.

(** [input_link_group_bypass] (four groups) and [output_link_group_bypass]
    (eight); [groups] is [e.options.groups], [None] an entry that
    [Number] turns into NaN.  The callbacks call [self._cmdSendLine]
    without testing for it. *)
Definition link_group_bypass (d : Domain) (op : string) (groups : list Token) (g : Galaxy) : Galaxy :=
  let top := match d with Input => 4 | Output => 8 end in
  let groups := filter (λ n, 1 ≤ n ≤ top) (omap (λ t : Token, t) groups) in
  if is_empty groups then
    in_world (log "warn" ("No valid " +:+ domain_name d +:+ " link groups selected")) g
  else foldl (link_group_bypass_body d op) g groups.

(** Whether a link group counts as bypassed ([currentBypass === true]). *)
Definition link_group_bypassed (d : Domain) (g : Galaxy) (group : Z) : bool :=
  bool_decide (linkGroupBypass_of d g !! group = Some true).


(** *** High-pass and low-pass bypass *)

Inductive Filter : Type := Highpass | Lowpass.

Definition filter_name (f : Filter) : string :=
  match f with Highpass => "highpass" | Lowpass => "lowpass" end.

Definition Filter_Name (f : Filter) : string :=
  match f with Highpass => "Highpass" | Lowpass => "Lowpass" end.

(** The text the callback compares the operation with to engage the
    filter: [op === 'Enabled'] in [output_highpass_bypass], [op === 'on'] in
    [output_lowpass_bypass]. *)
Definition filter_engage_id (f : Filter) : string :=
  match f with Highpass => "Enabled" | Lowpass => "on" end.

Definition filterBypass_of (f : Filter) (g : Galaxy) : gmap Z bool :=
  match f with Highpass => g.(outputHighpass) | Lowpass => g.(outputLowpass) end.

Definition filter_bypass_path (f : Filter) (ch : Z) : list Seg :=
  [T "processing"; T "output"; Idx ch; T (filter_name f); T "bypass"].

(** The fallback of both branches: transmit when [_cmdSendLine] is
    defined, then tell [_applyOutputFilter] when it is. *)
Definition filter_bypass_send (f : Filter) (ch : Z) (bypass : bool) (w : World) : World :=
  let w :=
    if has "_cmdSendLine" w
    then _cmdSendLine (mkCmd (filter_bypass_path f ch) (VText (bool_text bypass))) w
    else w in
  call_if_defined "_applyOutputFilter"
    [VQuote (filter_name f); VInt ch; VQuote "bypass"; VText (bool_text bypass)] w.

(** The body of [for (const ch of chs)]. *)
Definition filter_bypass_body (f : Filter) (op : string) (g : Galaxy) (ch : Z) : Galaxy :=
  let toggle := "_toggleOutput" +:+ Filter_Name f +:+ "Bypass" in
  let set := "_setOutput" +:+ Filter_Name f +:+ "Bypass" in
  if String.eqb op "toggle" then
    if has toggle g.(world) then in_world (call toggle [VInt ch]) g
    else
      let current := default false (filterBypass_of f g !! ch) in
      if has set g.(world) then
        in_world (call set [VInt ch; VText (bool_text (negb current))]) g
      else
        let next := negb current in
        in_world (filter_bypass_send f ch next) g
  else
    let wantEngaged := String.eqb op (filter_engage_id f) in
    let bypass := negb wantEngaged in
    if has set g.(world) then in_world (call set [VInt ch; VText (bool_text bypass)]) g
    else in_world (filter_bypass_send f ch bypass) g.

(** [output_highpass_bypass] and [output_lowpass_bypass]; [operation] is
    [e.options.operation]. *)
Definition output_filter_bypass (f : Filter) (NUM_OUTPUTS : Z) (chs : list Token)
    (operation : string) (g : Galaxy) : Galaxy :=
  let chs := safeGetChannels chs NUM_OUTPUTS in
  if is_empty chs then in_world (log "warn" "No valid output channels selected") g
  else
    let op := if String.eqb operation "" then "toggle" else operation in
    foldl (filter_bypass_body f op) g chs.


(** * Properties *)

(** ** Worlds *)

Ltac unfold_world :=
  unfold optionally, call_if_defined, _cmdSendLine, log, call, fault, with_self, has in *;
  simpl in *.

Lemma sent_since_app (w w' : World) (cs : list Cmd) :
  sent w' = sent w ++ cs → sent_since w w' = cs.
Proof. intros E. unfold sent_since. rewrite E. apply drop_app_length. Qed.

Lemma logged_since_app (w w' : World) (ls : list LogEntry) :
  logs w' = logs w ++ ls → logged_since w w' = ls.
Proof. intros E. unfold logged_since. rewrite E. apply drop_app_length. Qed.

Lemma called_since_app (w w' : World) (cs : list Call) :
  calls w' = calls w ++ cs → called_since w w' = cs.
Proof. intros E. unfold called_since. rewrite E. apply drop_app_length. Qed.

Lemma sent_since_refl (w : World) : sent_since w w = [].
Proof. apply sent_since_app. by rewrite app_nil_r. Qed.

(** ** Channel Set Validator *)

Lemma dedup_spec (seen l : list Z) :
  NoDup (dedup seen l) ∧ ∀ x, x ∈ dedup seen l ↔ x ∈ l ∧ x ∉ seen.
Proof.
  revert seen. induction l as [|a l IH]; intros seen; simpl.
  - split; [constructor|]. intros x. rewrite elem_of_nil. tauto.
  - case_bool_decide as Ha.
    + destruct (IH seen) as [Hnd Hel]. split; [done|].
      intros x. rewrite Hel, elem_of_cons. split; [tauto|].
      intros [[->|?] ?]; tauto.
    + destruct (IH (a :: seen)) as [Hnd Hel]. split.
      * constructor; [|done]. rewrite Hel, elem_of_cons. tauto.
      * intros x. rewrite !elem_of_cons, Hel, elem_of_cons.
        destruct (decide (x = a)) as [->|]; tauto.
Qed.

(** The validated selection has no duplicates and lies in [1, max]. *)
Lemma safeGetChannels_NoDup (sel : list Token) (max : Z) :
  NoDup (safeGetChannels sel max).
Proof. apply dedup_spec. Qed.

Lemma safeGetChannels_range (sel : list Token) (max ch : Z) :
  ch ∈ safeGetChannels sel max → 1 ≤ ch ≤ max.
Proof.
  unfold safeGetChannels. intros [Hin _]%dedup_spec.
  by apply list_elem_of_filter in Hin as [? _].
Qed.

Example safeGetChannels_example :
  safeGetChannels [Some 2; Some 2; Some 5; Some 99] 16 = [2; 5].
Proof. reflexivity. Qed.

(** ** Unit Converter and the delay actions *)

Section Delay.

Variables (d : Domain) (hi : Q) (typeId : string) (valueRaw : Js.number).

(** The sample count the loop transmits for every channel. *)
Let samples : Z :=
  Js.Math_round (roundTo01 (clamp (valueToMs valueRaw typeId) 0 hi) * 96).

Lemma delay_body_unchanged (w : World) (ch : Z) :
  typeId = "unchanged" → delay_body d hi typeId valueRaw w ch = w.
Proof. by intros ->. Qed.

Lemma delay_loop_unchanged (l : list Z) (w : World) :
  typeId = "unchanged" → foldl (delay_body d hi typeId valueRaw) w l = w.
Proof.
  intros E. induction l as [|ch l IH]; simpl; [done|].
  by rewrite delay_body_unchanged.
Qed.

Lemma delay_body_sent (w : World) (ch : Z) :
  String.eqb typeId "unchanged" = false →
  let w' := delay_body d hi typeId valueRaw w ch in
  methods w' = methods w ∧ self w' = self w ∧ logs w' = logs w ∧
  sent w' = sent w ++
    (if has ("_set" +:+ Cap d +:+ "DelayMs") w || has "_cmdSendLine" w
     then [mkCmd (delay_path d ch) (VInt samples)] else []).
Proof.
  intros Hty. unfold delay_body. rewrite Hty. unfold _setDelayMs.
  destruct (has ("_set" +:+ Cap d +:+ "DelayMs") w) eqn:E1; simpl.
  - unfold_world. done.
  - destruct (has "_cmdSendLine" w) eqn:E2; simpl.
    + destruct (has _ (_cmdSendLine _ w)); unfold_world; done.
    + by rewrite app_nil_r.
Qed.

Lemma delay_loop_sent (l : list Z) (w : World) :
  String.eqb typeId "unchanged" = false →
  let w' := foldl (delay_body d hi typeId valueRaw) w l in
  methods w' = methods w ∧ self w' = self w ∧ logs w' = logs w ∧
  sent w' = sent w ++
    (if has ("_set" +:+ Cap d +:+ "DelayMs") w || has "_cmdSendLine" w
     then map (λ ch, mkCmd (delay_path d ch) (VInt samples)) l else []).
Proof.
  intros Hty. revert w. induction l as [|ch l IH]; intros w; simpl.
  - repeat split; try done. by destruct (has _ w || has _ w); rewrite app_nil_r.
  - destruct (IH (delay_body d hi typeId valueRaw w ch)) as (Hm & Hs & Hl & Hsent).
    destruct (delay_body_sent w ch Hty) as (Hm' & Hs' & Hl' & Hsent').
    rewrite Hm, Hs, Hl, Hsent, Hsent'.
    repeat split; try done.
    unfold has. rewrite Hm'.
    destruct (bool_decide _ || bool_decide _); simpl;
      rewrite ?app_nil_r, <- ?app_assoc; done.
Qed.

End Delay.

Lemma is_empty_nil {A} (l : list A) : is_empty l = true ↔ l = [].
Proof. by destruct l. Qed.

(** What a delay request in a unit other than "unchanged" transmits. *)
Lemma delay_set_sent (d : Domain) (NUM : Z) (hi : Q) (o : DelayOptions) (w : World) :
  String.eqb (or_unchanged o.(delay_type)) "unchanged" = false →
  sent_since w (delay_set d NUM hi o w) =
    if has ("_set" +:+ Cap d +:+ "DelayMs") w || has "_cmdSendLine" w
    then map (λ ch, mkCmd (delay_path d ch)
                 (VInt (Js.Math_round
                    (roundTo01 (clamp (valueToMs o.(delay_value) (or_unchanged o.(delay_type))) 0 hi) * 96))))
           (safeGetChannels o.(delay_chs) NUM)
    else [].
Proof.
  intros Hty. apply sent_since_app. unfold delay_set.
  destruct (safeGetChannels (delay_chs o) NUM) as [|ch l] eqn:E; simpl is_empty; cbv iota.
  - unfold_world. by destruct (bool_decide _ || bool_decide _); rewrite app_nil_r.
  - rewrite <- E. by apply delay_loop_sent.
Qed.

Lemma matrix_body_sent (typeId : string) (valueRaw : Js.number) (i o : Z) (w : World) :
  String.eqb typeId "unchanged" = false →
  let w' := matrix_delay_body typeId valueRaw "unchanged" i o w in
  methods w' = methods w ∧ logs w' = logs w ∧
  sent w' = sent w ++
    [mkCmd (matrix_path i o "delay_type") (VQuote typeId);
     mkCmd (matrix_path i o "delay")
       (VInt (Js.Math_round (roundTo01 (clamp (valueToMs valueRaw typeId) 0 500) * 96)))].
Proof.
  intros Hty. unfold matrix_delay_body. rewrite Hty. simpl.
  unfold optionally.
  repeat (match goal with |- context [has ?n ?x] => destruct (has n x) end);
    unfold_world; rewrite <- ?app_assoc; done.
Qed.

Lemma matrix_loop_sent (typeId : string) (valueRaw : Js.number) (ins outs : list Z) (w : World) :
  String.eqb typeId "unchanged" = false →
  let w' := foldl (λ w i, foldl (λ w o,
              matrix_delay_body typeId valueRaw "unchanged" i o w) w outs) w ins in
  methods w' = methods w ∧ logs w' = logs w ∧
  sent w' = sent w ++
    flat_map (λ i, flat_map (λ o,
      [mkCmd (matrix_path i o "delay_type") (VQuote typeId);
       mkCmd (matrix_path i o "delay")
         (VInt (Js.Math_round (roundTo01 (clamp (valueToMs valueRaw typeId) 0 500) * 96)))])
      outs) ins.
Proof.
  intros Hty. 
  assert (Hin : ∀ i outs w,
    let w' := foldl (λ w o, matrix_delay_body typeId valueRaw "unchanged" i o w) w outs in
    methods w' = methods w ∧ logs w' = logs w ∧
    sent w' = sent w ++ flat_map (λ o,
      [mkCmd (matrix_path i o "delay_type") (VQuote typeId);
       mkCmd (matrix_path i o "delay")
         (VInt (Js.Math_round (roundTo01 (clamp (valueToMs valueRaw typeId) 0 500) * 96)))])
      outs).
  { intros i os. induction os as [|o os IH]; intros w0; simpl.
    - by rewrite app_nil_r.
    - destruct (IH (matrix_delay_body typeId valueRaw "unchanged" i o w0)) as (Hm & Hl & Hs).
      destruct (matrix_body_sent typeId valueRaw i o w0 Hty) as (Hm' & Hl' & Hs').
      rewrite Hm, Hl, Hs, Hs'. repeat split; try done. by rewrite <- app_assoc. }
  revert w. induction ins as [|i ins IH]; intros w; simpl.
  - by rewrite app_nil_r.
  - destruct (IH (foldl (λ w o, matrix_delay_body typeId valueRaw "unchanged" i o w) w outs))
      as (Hm & Hl & Hs).
    destruct (Hin i outs w) as (Hm' & Hl' & Hs').
    rewrite Hm, Hl, Hs, Hs'. repeat split; try done. by rewrite <- app_assoc.
Qed.

Lemma feet_100_ms : (valueToMs (Some 100%Q) "1" == 100 * 1000 / 1125)%Q.
Proof. reflexivity. Qed.

Lemma feet_100_samples_500 :
  Js.Math_round (roundTo01 (clamp (valueToMs (Some 100%Q) "1") 0 500) * 96) = 8533.
Proof. reflexivity. Qed.

Lemma feet_100_samples_2000 :
  Js.Math_round (roundTo01 (clamp (valueToMs (Some 100%Q) "1") 0 2000) * 96) = 8533.
Proof. reflexivity. Qed.

(** C2, as stated, fails: for [unit = feet], [value = 100] the output delay
    action does not transmit the sample count 8534. *)
Lemma delay_feet_100_not_8534 :
  sent (output_delay_set 16 (mkDelayOptions [Some 3] "1" (Some 100%Q))
          (idle_world ["_cmdSendLine"] 0))
  ≠ [mkCmd (delay_path Output 3) (VInt 8534)].
Proof. vm_compute. discriminate. Qed.

(** C2 (amended): a delay request with [unit = feet] and [value = 100]
    converts to [100 * 1000 / 1125] ms, which after clamping (to [0, 500]
    for input and matrix delays, to [0, 2000] for output delays) and
    rounding to 0.01 ms is 88.89 ms; the sample count
    [round(88.89 * 96)] is 8533, and this is the value each of the three
    delay actions transmits for every selected channel (or cross-point). *)
Theorem delay_feet_100 :
  let ms := valueToMs (Some 100%Q) "1" in
  (ms == 100 * 1000 / 1125)%Q ∧
  (roundTo01 (clamp ms 0 500) == 8889 # 100)%Q ∧
  (roundTo01 (clamp ms 0 2000) == 8889 # 100)%Q ∧
  Js.Math_round ((8889 # 100) * 96) = 8533 ∧
  (∀ NUM_INPUTS sel w,
     sent_since w (input_delay_set NUM_INPUTS (mkDelayOptions sel "1" (Some 100%Q)) w) =
       if has "_setInputDelayMs" w || has "_cmdSendLine" w
       then map (λ ch, mkCmd (delay_path Input ch) (VInt 8533)) (safeGetChannels sel NUM_INPUTS)
       else []) ∧
  (∀ NUM_OUTPUTS sel w,
     sent_since w (output_delay_set NUM_OUTPUTS (mkDelayOptions sel "1" (Some 100%Q)) w) =
       if has "_setOutputDelayMs" w || has "_cmdSendLine" w
       then map (λ ch, mkCmd (delay_path Output ch) (VInt 8533)) (safeGetChannels sel NUM_OUTPUTS)
       else []) ∧
  (∀ NUM_OUTPUTS ins outs w,
     sent_since w (matrix_delay_full NUM_OUTPUTS
                     (mkMatrixDelayOptions ins outs "1" (Some 100%Q) "") w) =
       flat_map (λ i, flat_map (λ o,
         [mkCmd (matrix_path i o "delay_type") (VQuote "1");
          mkCmd (matrix_path i o "delay") (VInt 8533)])
         (safeGetChannels outs NUM_OUTPUTS)) (safeGetChannels ins 32)).
Proof.
  cbv zeta. split; [reflexivity|]. split; [reflexivity|]. split; [reflexivity|].
  split; [reflexivity|]. split; [|split].
  - intros NUM sel w. unfold input_delay_set. rewrite delay_set_sent by reflexivity.
    cbn [delay_type delay_value delay_chs]. change (or_unchanged "1") with "1".
    by rewrite feet_100_samples_500.
  - intros NUM sel w. unfold output_delay_set. rewrite delay_set_sent by reflexivity.
    cbn [delay_type delay_value delay_chs]. change (or_unchanged "1") with "1".
    by rewrite feet_100_samples_2000.
  - intros NUM ins outs w. apply sent_since_app. unfold matrix_delay_full.
    cbn [matrix_inputs matrix_outputs matrix_type matrix_value delay_status].
    change (or_unchanged "1") with "1". change (or_unchanged "") with "unchanged".
    set (ins' := safeGetChannels ins 32). set (outs' := safeGetChannels outs NUM).
    destruct (is_empty ins' || is_empty outs') eqn:E.
    + unfold log. cbn [sent].
      match goal with |- _ = _ ++ ?x => assert (x = []) as -> end; [|by rewrite app_nil_r].
      apply orb_true_iff in E as [E|E]; apply is_empty_nil in E; rewrite E; [done|].
      induction ins'; simpl; auto.
    + destruct (matrix_loop_sent "1" (Some 100%Q) ins' outs' w eq_refl) as (_ & _ & Hs).
      rewrite Hs. by rewrite feet_100_samples_500.
Qed.

(** *** The "unchanged" unit *)

Lemma bypass_only_refl (w : World) : bypass_only w w.
Proof.
  repeat split; try done.
  - exists []. split; [by rewrite app_nil_r|]. intros c Hc. by apply elem_of_nil in Hc.
  - by destruct (self w).
Qed.

Lemma matrix_entry_apply_bypass (i j i' j' : Z) (b : bool) (s : Self) :
  md_type (matrix_entry i' j' (_applyMatrixDelayBypass i j b s)) = md_type (matrix_entry i' j' s) ∧
  md_samples (matrix_entry i' j' (_applyMatrixDelayBypass i j b s)) = md_samples (matrix_entry i' j' s).
Proof.
  unfold matrix_entry, _applyMatrixDelayBypass, set_matrixDelay. simpl.
  destruct (decide ((i, j) = (i', j'))) as [Heq|Hne].
  - injection Heq as -> ->. rewrite lookup_insert_eq. simpl. done.
  - by rewrite lookup_insert_ne.
Qed.

Lemma matrix_body_unchanged (valueRaw : Js.number) (statusMode : string) (i j : Z)
    (w0 w : World) :
  bypass_only w0 w →
  bypass_only w0 (matrix_delay_body "unchanged" valueRaw statusMode i j w).
Proof.
  intros Hw. pose proof Hw as (Hm & Hcalls & Hl & (cs & Hs & Hcs) & Hself & Hmd).
  unfold matrix_delay_body. simpl.
  destruct (negb (statusMode =? "unchanged")%string); [|done].
  set (b := if (statusMode =? "toggle")%string then _ else _). clearbody b.
  assert (Hsent : ∀ c, c ∈ cs ++ [mkCmd (matrix_path i j "delay_bypass") (VQuote (bool_text b))] →
            ∃ i j v, c = mkCmd (matrix_path i j "delay_bypass") v).
  { intros c [Hin|Hin]%elem_of_app; [by apply Hcs|].
    apply list_elem_of_singleton in Hin as ->. by eexists _, _, _. }
  unfold optionally.
  destruct (has "_applyMatrixDelayBypass" _);
    unfold bypass_only, _cmdSendLine, with_self; cbn [methods calls logs sent self].
  - repeat split; try done.
    + eexists. rewrite Hs, <- app_assoc. done.
    + rewrite Hself. by destruct (self w0).
    + destruct (matrix_entry_apply_bypass i j i0 j0 b (self w)) as [-> _]. apply Hmd.
    + destruct (matrix_entry_apply_bypass i j i0 j0 b (self w)) as [_ ->]. apply Hmd.
  - repeat split; try done; try apply Hmd.
    eexists. rewrite Hs, <- app_assoc. done.
Qed.

Lemma matrix_loop_unchanged (valueRaw : Js.number) (statusMode : string)
    (ins outs : list Z) (w0 w : World) :
  bypass_only w0 w →
  bypass_only w0 (foldl (λ w i, foldl (λ w o,
    matrix_delay_body "unchanged" valueRaw statusMode i o w) w outs) w ins).
Proof.
  revert w. induction ins as [|i ins IH]; intros w Hw; simpl; [done|].
  apply IH. clear IH. revert w Hw.
  induction outs as [|o outs IH]; intros w Hw; simpl; [done|].
  apply IH. by apply matrix_body_unchanged.
Qed.

Lemma matrix_body_idle (valueRaw : Js.number) (i j : Z) (w : World) :
  matrix_delay_body "unchanged" valueRaw "unchanged" i j w = w.
Proof. reflexivity. Qed.

Lemma matrix_loop_idle (valueRaw : Js.number) (ins outs : list Z) (w : World) :
  foldl (λ w i, foldl (λ w o,
    matrix_delay_body "unchanged" valueRaw "unchanged" i o w) w outs) w ins = w.
Proof.
  induction ins as [|i ins IH]; simpl; [done|].
  assert (foldl (λ w o, matrix_delay_body "unchanged" valueRaw "unchanged" i o w) w outs = w)
    as -> by (induction outs; simpl; auto).
  exact IH.
Qed.

(** The cross-points of a matrix request, in the order the two nested
    loops visit them. *)
Lemma foldl_cross {A} (f : Z → Z → A → A) (ins outs : list Z) (a : A) :
  foldl (λ a i, foldl (λ a o, f i o a) a outs) a ins =
  foldl (λ a (p : Z * Z), f p.1 p.2 a) a (flat_map (λ i, map (pair i) outs) ins).
Proof.
  revert a. induction ins as [|i ins IH]; intros a; cbn [foldl flat_map]; [done|].
  rewrite foldl_app, IH. f_equal.
  generalize a. clear. induction outs as [|o outs IH]; intros a; cbn [foldl map]; [done|].
  by rewrite IH.
Qed.

Lemma elem_of_cross (ins outs : list Z) (i o : Z) :
  (i, o) ∈ flat_map (λ i, map (pair i) outs) ins ↔ i ∈ ins ∧ o ∈ outs.
Proof.
  induction ins as [|a ins IH]; cbn [flat_map].
  { rewrite !elem_of_nil. tauto. }
  rewrite elem_of_app, IH, elem_of_cons, list_elem_of_fmap. split.
  - intros [(o' & Heq & Ho)|[Hi Ho]]; [|tauto]. injection Heq as -> ->. tauto.
  - intros [[->|Hi] Ho]; [left; by exists o|tauto].
Qed.

Lemma NoDup_cross (ins outs : list Z) :
  NoDup ins → NoDup outs → NoDup (flat_map (λ i, map (pair i) outs) ins).
Proof.
  intros Hi Ho. induction Hi as [|a ins Ha Hi IH]; cbn [flat_map]; [constructor|].
  apply NoDup_app. split; [|split; [|done]].
  - apply NoDup_fmap_2; [|done]. by intros x y [= ->].
  - intros [i o] (o' & Heq & _)%list_elem_of_fmap [Hin _]%elem_of_cross.
    injection Heq as -> ->. done.
Qed.

Lemma map_cross {B} (f : Z → Z → B) (ins outs : list Z) :
  map (λ p : Z * Z, f p.1 p.2) (flat_map (λ i, map (pair i) outs) ins) =
  flat_map (λ i, map (f i) outs) ins.
Proof.
  induction ins as [|i ins IH]; cbn [flat_map map]; [done|].
  rewrite map_app, IH. f_equal. by rewrite map_map.
Qed.

(** The flag the bypass branch of [matrix_delay_full] chooses for a
    cross-point: the negation of the stored flag for "toggle", otherwise
    [statusMode === 'off']. *)
Lemma matrix_body_bypass (valueRaw : Js.number) (statusMode : string) (i j : Z) (w : World) :
  String.eqb statusMode "unchanged" = false →
  let b := if String.eqb statusMode "toggle"
           then negb (default false (md_bypass (matrix_entry i j (self w))))
           else String.eqb statusMode "off" in
  let w' := matrix_delay_body "unchanged" valueRaw statusMode i j w in
  methods w' = methods w ∧
  sent w' = sent w ++ [mkCmd (matrix_path i j "delay_bypass") (VQuote (bool_text b))] ∧
  (has "_applyMatrixDelayBypass" w = true →
     md_bypass (matrix_entry i j (self w')) = Some b) ∧
  (∀ p, p ≠ (i, j) → matrixDelay (self w') !! p = matrixDelay (self w) !! p).
Proof.
  intros Hst. unfold matrix_delay_body. cbn [negb String.eqb Ascii.eqb Bool.eqb]. 
  change (negb ("unchanged" =? "unchanged")%string) with false. cbv iota. rewrite Hst.
  cbn [negb]. cbv zeta. unfold optionally, has, _cmdSendLine, with_self. cbn [methods self sent].
  destruct (bool_decide _) eqn:E; cbn [methods self sent]; repeat split; try done.
  - intros _. unfold matrix_entry, _applyMatrixDelayBypass, set_matrixDelay. cbn [matrixDelay].
    by rewrite lookup_insert_eq.
  - intros p Hp. unfold _applyMatrixDelayBypass, set_matrixDelay. cbn [matrixDelay].
    by rewrite lookup_insert_ne.
Qed.

Lemma matrix_bypass_pairs (valueRaw : Js.number) (statusMode : string)
    (l : list (Z * Z)) (w : World) :
  String.eqb statusMode "unchanged" = false →
  NoDup l →
  let target := λ (w : World) (p : Z * Z),
    if String.eqb statusMode "toggle"
    then negb (default false (md_bypass (matrix_entry p.1 p.2 (self w))))
    else String.eqb statusMode "off" in
  let w' := foldl (λ w (p : Z * Z),
              matrix_delay_body "unchanged" valueRaw statusMode p.1 p.2 w) w l in
  methods w' = methods w ∧
  sent w' = sent w ++
    map (λ p, mkCmd (matrix_path p.1 p.2 "delay_bypass") (VQuote (bool_text (target w p)))) l ∧
  (has "_applyMatrixDelayBypass" w = true →
     ∀ p, p ∈ l → md_bypass (matrix_entry p.1 p.2 (self w')) = Some (target w p)) ∧
  (∀ p, p ∉ l → matrixDelay (self w') !! p = matrixDelay (self w) !! p).
Proof.
  intros Hst Hnd target. revert w.
  induction Hnd as [|[i j] l Hp Hnd IH]; intros w; cbn [foldl map].
  { repeat split; try done. - by rewrite app_nil_r. - intros _ p Hin. by apply elem_of_nil in Hin. }
  destruct (matrix_body_bypass valueRaw statusMode i j w Hst) as (Hm1 & Hs1 & Hb1 & Ho1).
  cbn [fst snd] in *.
  set (w1 := matrix_delay_body "unchanged" valueRaw statusMode i j w) in *.
  destruct (IH w1) as (Hm & Hs & Hb & Ho).
  assert (Ht : ∀ p, p ≠ (i, j) → target w1 p = target w p).
  { intros [a b] Hne. unfold target, matrix_entry. cbn [fst snd]. by rewrite (Ho1 (a, b) Hne). }
  split; [by rewrite Hm|]. split; [|split].
  - rewrite Hs, Hs1, <- app_assoc. cbn [app]. do 2 f_equal.
    apply map_ext_in. intros p Hin%list_elem_of_In. rewrite Ht; [done|].
    intros ->. done.
  - intros Happly p [->|Hin]%elem_of_cons.
    + cbn [fst snd]. unfold matrix_entry. rewrite (Ho (i, j) Hp).
      by apply Hb1.
    + rewrite Hb; [|by unfold has in *; rewrite Hm1|done].
      f_equal. apply Ht. intros ->. done.
  - intros p [Hne Hnin]%not_elem_of_cons. by rewrite Ho, Ho1.
Qed.

(** C7, as stated, fails: with the unit "unchanged" the matrix delay action
    still transmits a command and changes the stored delay state of the
    cross-point when its delay-status option is not "unchanged". *)
Lemma unit_unchanged_matrix_still_transmits :
  let w := idle_world ["_cmdSendLine"; "_applyMatrixDelayBypass"] 0 in
  let w' := matrix_delay_full 16
              (mkMatrixDelayOptions [Some 1] [Some 1] "unchanged" (Some 5%Q) "on") w in
  sent w' ≠ sent w ∧ matrixDelay (self w') ≠ matrixDelay (self w).
Proof. vm_compute. split; discriminate. Qed.

(** C7 (amended): when the unit option is "unchanged", the input and
    output delay actions convert nothing, transmit nothing and leave the
    instance untouched; the matrix delay action transmits no [delay_type]
    and no [delay] line and leaves the stored type and sample count of
    every cross-point as they were.  But it still transmits and stores the
    bypass flag when its separate delay-status option is not "unchanged":
    one [delay_bypass] line per selected cross-point, in loop order,
    carrying the negation of the stored flag for "toggle" and otherwise
    [statusMode === 'off'], and (through [_applyMatrixDelayBypass], when
    defined) that flag as the stored bypass flag of every selected
    cross-point, the other cross-points being left alone.  With both
    options "unchanged" it does nothing at all. *)
Theorem delay_unit_unchanged :
  (∀ d NUM hi o w,
     or_unchanged o.(delay_type) = "unchanged" →
     let w' := delay_set d NUM hi o w in
     sent w' = sent w ∧ self w' = self w ∧ calls w' = calls w) ∧
  (∀ NUM_OUTPUTS o w,
     or_unchanged o.(matrix_type) = "unchanged" →
     let w' := matrix_delay_full NUM_OUTPUTS o w in
     let ins := safeGetChannels o.(matrix_inputs) 32 in
     let outs := safeGetChannels o.(matrix_outputs) NUM_OUTPUTS in
     let status := or_unchanged o.(delay_status) in
     let flag := λ i j,
       if String.eqb status "toggle"
       then negb (default false (md_bypass (matrix_entry i j (self w))))
       else String.eqb status "off" in
     (∀ c, c ∈ sent_since w w' → ∃ i j v, c = mkCmd (matrix_path i j "delay_bypass") v) ∧
     (∀ i j, md_type (matrix_entry i j (self w')) = md_type (matrix_entry i j (self w)) ∧
             md_samples (matrix_entry i j (self w')) = md_samples (matrix_entry i j (self w))) ∧
     self w' = set_matrixDelay (matrixDelay (self w')) (self w) ∧
     calls w' = calls w ∧
     (status = "unchanged" → sent w' = sent w ∧ self w' = self w) ∧
     (status ≠ "unchanged" → has "_cmdSendLine" w = true →
        sent_since w w' =
          flat_map (λ i, map (λ j, mkCmd (matrix_path i j "delay_bypass")
                                     (VQuote (bool_text (flag i j)))) outs) ins ∧
        (has "_applyMatrixDelayBypass" w = true →
           ∀ i j, i ∈ ins → j ∈ outs →
             md_bypass (matrix_entry i j (self w')) = Some (flag i j)) ∧
        (∀ i j, ¬ (i ∈ ins ∧ j ∈ outs) →
           matrix_entry i j (self w') = matrix_entry i j (self w)))).
Proof.
  split.
  - intros d NUM hi o w Hty. unfold delay_set.
    destruct (is_empty _); [done|]. cbv zeta.
    by rewrite delay_loop_unchanged.
  - intros NUM o w Hty. unfold matrix_delay_full. rewrite Hty. cbv zeta.
    set (ins := safeGetChannels (matrix_inputs o) 32).
    set (outs := safeGetChannels (matrix_outputs o) NUM).
    destruct (is_empty ins || is_empty outs) eqn:E.
    { unfold log. cbn [sent self calls]. repeat split; try done.
      - intros c Hc. unfold sent_since in Hc. cbn [sent] in Hc.
        rewrite drop_all in Hc. by apply elem_of_nil in Hc.
      - by destruct (self w).
      - unfold sent_since. cbn [sent]. rewrite drop_all.
        apply orb_true_iff in E as [E|E]; apply is_empty_nil in E; rewrite E; [done|].
        clear. by induction ins.
      - intros _ i j Hi Hj.
        apply orb_true_iff in E as [E|E]; apply is_empty_nil in E; rewrite E in *;
          [by apply elem_of_nil in Hi|by apply elem_of_nil in Hj]. }
    split; [|split; [|split; [|split; [|split]]]].
    + intros c Hc.
      destruct (matrix_loop_unchanged (matrix_value o) (or_unchanged (delay_status o))
                  ins outs w w (bypass_only_refl w))
        as (_ & _ & _ & (cs & Hs & Hcs) & _).
      rewrite (sent_since_app _ _ _ Hs) in Hc. by apply Hcs.
    + apply matrix_loop_unchanged, bypass_only_refl.
    + apply matrix_loop_unchanged, bypass_only_refl.
    + apply matrix_loop_unchanged, bypass_only_refl.
    + intros ->. by rewrite matrix_loop_idle.
    + intros Hst%String.eqb_neq _.
      rewrite (foldl_cross (λ i j w, matrix_delay_body "unchanged" (matrix_value o)
                 (or_unchanged (delay_status o)) i j w)).
      destruct (matrix_bypass_pairs (matrix_value o) (or_unchanged (delay_status o))
                  (flat_map (λ i, map (pair i) outs) ins) w Hst) as (_ & Hs & Hb & Ho).
      { apply NoDup_cross; apply safeGetChannels_NoDup. }
      cbn beta in Hs, Hb. split; [|split].
      * apply sent_since_app. rewrite Hs. f_equal.
        exact (map_cross (λ i j, mkCmd (matrix_path i j "delay_bypass")
                 (VQuote (bool_text
                    (if String.eqb (or_unchanged (delay_status o)) "toggle"
                     then negb (default false (md_bypass (matrix_entry i j (self w))))
                     else String.eqb (or_unchanged (delay_status o)) "off")))) ins outs).
      * intros Happly i j Hi Hj. apply (Hb Happly (i, j)). by apply elem_of_cross.
      * intros i j Hn. unfold matrix_entry. rewrite (Ho (i, j)); [done|].
        by rewrite elem_of_cross.
Qed.

(** The theorem at concrete requests, all with the unit "unchanged": an
    output delay request, and a matrix delay request with delay status
    "on" for the cross-points (1, 2) and (1, 3). *)
Lemma delay_unit_unchanged_witness :
  let w := idle_world ["_cmdSendLine"; "_setOutputDelayMs"; "_applyMatrixDelayBypass"] 0 in
  let o := mkDelayOptions [Some 1; Some 2] "unchanged" (Some 5%Q) in
  let m := mkMatrixDelayOptions [Some 1] [Some 2; Some 3] "" (Some 5%Q) "on" in
  or_unchanged o.(delay_type) = "unchanged" ∧
  sent (delay_set Output 16 2000 o w) = sent w ∧
  or_unchanged (matrix_type m) = "unchanged" ∧
  sent_since w (matrix_delay_full 16 m w) =
    [mkCmd (matrix_path 1 2 "delay_bypass") (VQuote "false");
     mkCmd (matrix_path 1 3 "delay_bypass") (VQuote "false")] ∧
  md_bypass (matrix_entry 1 3 (self (matrix_delay_full 16 m w))) = Some false.
Proof.
  cbv zeta. split; [reflexivity|]. split.
  - apply (proj1 delay_unit_unchanged Output 16 2000%Q
             (mkDelayOptions [Some 1; Some 2] "unchanged" (Some 5%Q))
             (idle_world ["_cmdSendLine"; "_setOutputDelayMs"; "_applyMatrixDelayBypass"] 0)
             eq_refl).
  - split; [reflexivity|].
    destruct (proj2 delay_unit_unchanged 16
                (mkMatrixDelayOptions [Some 1] [Some 2; Some 3] "" (Some 5%Q) "on")
                (idle_world ["_cmdSendLine"; "_setOutputDelayMs"; "_applyMatrixDelayBypass"] 0)
                eq_refl) as (_ & _ & _ & _ & _ & H).
    destruct H as (Hs & Hb & _); [discriminate|reflexivity|].
    split.
    + rewrite Hs. reflexivity.
    + rewrite (Hb eq_refl 1 3); [reflexivity| |].
      * change (1 ∈ [1]). apply list_elem_of_here.
      * change (3 ∈ [2; 3]). apply list_elem_of_further, list_elem_of_here.
Defined.

(** ** Solo/Mute State Machine *)

Section Solo.

Variables NUM_INPUTS NUM_OUTPUTS : Z.

Local Abbreviation NUM := (NUM NUM_INPUTS NUM_OUTPUTS).
Local Abbreviation solo := (solo NUM_INPUTS NUM_OUTPUTS).
Local Abbreviation snapshot := (snapshot NUM_INPUTS NUM_OUTPUTS).
Local Abbreviation solo_apply := (solo_apply NUM_INPUTS NUM_OUTPUTS).
Local Abbreviation solo_restore := (solo_restore NUM_INPUTS NUM_OUTPUTS).

Lemma mute_of_set (d : Domain) (m : gmap Z bool) (s : Self) :
  mute_of d (set_mute_of d m s) = m.
Proof. by destruct d. Qed.

Lemma soloState_of_set_mute (d : Domain) (m : gmap Z bool) (s : Self) :
  soloState_of d (set_mute_of d m s) = soloState_of d s.
Proof. by destruct d. Qed.

Lemma soloState_of_set (d : Domain) (v : option SoloState) (s : Self) :
  soloState_of d (set_soloState_of d v s) = v.
Proof. by destruct d. Qed.

Lemma mute_of_set_soloState (d : Domain) (v : option SoloState) (s : Self) :
  mute_of d (set_soloState_of d v s) = mute_of d s.
Proof. by destruct d. Qed.

(** One [_setMute] (when the helper is defined) writes exactly one flag. *)
Lemma setMute_muted (d : Domain) (ch : Z) (v : bool) (w : World) (ch' : Z) :
  muted d (self (setMute_if_defined d ch v w)) ch' =
    if has "_setMute" w && bool_decide (ch' = ch) then v else muted d (self w) ch'.
Proof.
  unfold setMute_if_defined. destruct (has "_setMute" w); [|done].
  unfold _setMute, muted. unfold_world. rewrite mute_of_set.
  case_bool_decide as E.
  - subst. by rewrite lookup_insert_eq.
  - by rewrite lookup_insert_ne.
Qed.

Lemma setMute_frame (d : Domain) (ch : Z) (v : bool) (w : World) :
  methods (setMute_if_defined d ch v w) = methods w ∧
  soloState_of d (self (setMute_if_defined d ch v w)) = soloState_of d (self w).
Proof.
  unfold setMute_if_defined. destruct (has "_setMute" w); [|done].
  unfold _setMute. unfold_world. by rewrite soloState_of_set_mute.
Qed.

(** A loop of [_setMute] calls whose value depends on the channel only. *)
Lemma setMute_loop (d : Domain) (f : World → Z → World) (g : Z → bool) (l : list Z) (w : World) :
  (∀ w ch, f w ch = setMute_if_defined d ch (g ch) w) →
  let w' := foldl f w l in
  methods w' = methods w ∧
  soloState_of d (self w') = soloState_of d (self w) ∧
  ∀ ch, muted d (self w') ch =
          if has "_setMute" w && bool_decide (ch ∈ l) then g ch else muted d (self w) ch.
Proof.
  intros Hf. revert w. induction l as [|c l IH]; intros w; simpl.
  - repeat split; try done. intros ch. by rewrite andb_false_r.
  - rewrite Hf.
    destruct (IH (setMute_if_defined d c (g c) w)) as (Hm & Hs & Hmu).
    destruct (setMute_frame d c (g c) w) as (Hm' & Hs').
    rewrite Hm, Hs, Hm', Hs'. repeat split; try done.
    intros ch. rewrite Hmu, setMute_muted. unfold has. rewrite Hm'.
    destruct (bool_decide ("_setMute" ∈ methods w)); simpl; [|done].
    rewrite (bool_decide_ext (ch ∈ c :: l) (ch = c ∨ ch ∈ l)) by apply elem_of_cons.
    destruct (decide (ch ∈ l)) as [Hin|Hnin].
    + rewrite !bool_decide_eq_true_2; auto.
    + rewrite (bool_decide_eq_false_2 (ch ∈ l)) by done.
      destruct (decide (ch = c)) as [->|Hne].
      * rewrite !bool_decide_eq_true_2; auto.
      * rewrite !bool_decide_eq_false_2; auto. intros [?|?]; done.
Qed.

Lemma solo_apply_spec (d : Domain) (soloSet : gset Z) (w : World) :
  let w' := solo_apply d soloSet w in
  methods w' = methods w ∧
  soloState_of d (self w') = soloState_of d (self w) ∧
  ∀ ch, muted d (self w') ch =
          if has "_setMute" w && bool_decide (ch ∈ seqZ 1 (NUM d))
          then negb (bool_decide (ch ∈ soloSet)) else muted d (self w) ch.
Proof.
  apply (setMute_loop d _ (λ ch, negb (bool_decide (ch ∈ soloSet)))).
  intros w0 ch. by case_bool_decide.
Qed.

Lemma solo_restore_spec (d : Domain) (prevMute : gmap Z bool) (w : World) :
  let w' := solo_restore d prevMute w in
  methods w' = methods w ∧
  soloState_of d (self w') = soloState_of d (self w) ∧
  ∀ ch, muted d (self w') ch =
          if has "_setMute" w && bool_decide (ch ∈ seqZ 1 (NUM d))
          then default false (prevMute !! ch) else muted d (self w) ch.
Proof. by apply (setMute_loop d _ (λ ch, default false (prevMute !! ch))). Qed.

(** The snapshot holds the mute flag of every channel of the domain. *)
Lemma snapshot_lookup (d : Domain) (s : Self) (ch : Z) :
  ch ∈ seqZ 1 (NUM d) → snapshot d s !! ch = Some (muted d s ch).
Proof.
  unfold snapshot. generalize (seqZ 1 (NUM d)). intros l.
  assert (H : ∀ l (m : gmap Z bool),
            foldl (λ snap c, <[c := muted d s c]> snap) m l !! ch =
              if bool_decide (ch ∈ l) then Some (muted d s ch) else m !! ch).
  { clear l. induction l as [|c l IH]; intros m; simpl; [done|].
    rewrite IH.
    rewrite (bool_decide_ext (ch ∈ c :: l) (ch = c ∨ ch ∈ l)) by apply elem_of_cons.
    destruct (decide (ch ∈ l)) as [Hin|Hnin].
    - rewrite !bool_decide_eq_true_2; auto.
    - rewrite (bool_decide_eq_false_2 (ch ∈ l)) by done.
      destruct (decide (ch = c)) as [->|Hne].
      + rewrite bool_decide_eq_true_2 by auto. by rewrite lookup_insert_eq.
      + rewrite bool_decide_eq_false_2 by (intros [?|?]; done).
        by rewrite lookup_insert_ne. }
  intros Hin. rewrite H. by rewrite bool_decide_eq_true_2.
Qed.

(** [isSameSolo] decides equality with the active solo set. *)
Lemma isSameSolo_spec (c : SoloState) (soloSet : gset Z) :
  isSameSolo (Some c) soloSet = bool_decide (soloChannels c = soloSet).
Proof.
  unfold isSameSolo. apply eq_true_iff_eq. 
  rewrite andb_true_iff, !bool_decide_eq_true, forallb_forall.
  split.
  - intros [Hsize Hall].
    assert (Hsub : soloSet ⊆ soloChannels c).
    { intros x Hx. specialize (Hall x). rewrite bool_decide_eq_true in Hall.
      apply Hall. apply list_elem_of_In. by apply elem_of_elements. }
    symmetry. apply set_subseteq_size_eq; [done|]. lia.
  - intros ->. split; [done|]. intros x Hx. apply bool_decide_eq_true.
    apply list_elem_of_In in Hx. by apply elem_of_elements in Hx.
Qed.

Lemma shouldApplySolo_first (op : string) (soloSet : gset Z) :
  op ≠ "off" → shouldApplySolo op None soloSet = true.
Proof.
  intros Hop. unfold shouldApplySolo.
  destruct (String.eqb_spec op "on"); [done|].
  by destruct (String.eqb_spec op "off").
Qed.

Lemma shouldApplySolo_other (op : string) (c : SoloState) (soloSet : gset Z) :
  op ≠ "off" → soloSet ≠ soloChannels c → shouldApplySolo op (Some c) soloSet = true.
Proof.
  intros Hop Hne. unfold shouldApplySolo.
  destruct (String.eqb_spec op "on"); [done|].
  destruct (String.eqb_spec op "off"); [done|].
  rewrite isSameSolo_spec. by rewrite bool_decide_eq_false_2.
Qed.

Lemma shouldApplySolo_unsolo (op : string) (c : SoloState) (soloSet : gset Z) :
  op = "off" ∨ (op ≠ "on" ∧ soloSet = soloChannels c) →
  shouldApplySolo op (Some c) soloSet = false.
Proof.
  intros [->|[Hop ->]]; [done|]. unfold shouldApplySolo.
  destruct (String.eqb_spec op "on"); [done|].
  destruct (String.eqb_spec op "off"); [done|].
  rewrite isSameSolo_spec. by rewrite bool_decide_eq_true_2.
Qed.

(** One activation: the solo set becomes the selection, the snapshot is
    the one already held or, failing that, a fresh one. *)
Lemma solo_activate (d : Domain) (o : ChannelOpOptions) (w : World) :
  let sel := safeGetChannels o.(chs) (NUM d) in
  sel ≠ [] →
  shouldApplySolo o.(operation) (soloState_of d (self w)) (list_to_set sel) = true →
  let w' := solo d o w in
  methods w' = methods w ∧
  soloState_of d (self w') =
    Some (mkSolo (list_to_set sel)
            (match soloState_of d (self w) with
             | Some c => prevMute c
             | None => snapshot d (self w)
             end)) ∧
  ∀ ch, muted d (self w') ch =
          if has "_setMute" w && bool_decide (ch ∈ seqZ 1 (NUM d))
          then negb (bool_decide (ch ∈ (list_to_set sel : gset Z)))
          else muted d (self w) ch.
Proof.
  intros sel Hsel Happly. subst sel. unfold solo.
  destruct (safeGetChannels (chs o) (NUM d)) as [|c l] eqn:E; [done|].
  simpl is_empty. cbv iota. rewrite Happly.
  destruct (solo_apply_spec d (list_to_set (c :: l)) w) as (Hm & Hs & Hmu).
  unfold log, with_self. cbn [self methods].
  rewrite soloState_of_set. repeat split; try done.
  intros ch. unfold muted. rewrite mute_of_set_soloState. apply Hmu.
Qed.

(** One deactivation: the flags come from the held snapshot, which is then
    discarded. *)
Lemma solo_deactivate (d : Domain) (o : ChannelOpOptions) (w : World) (c : SoloState) :
  let sel := safeGetChannels o.(chs) (NUM d) in
  sel ≠ [] →
  soloState_of d (self w) = Some c →
  shouldApplySolo o.(operation) (Some c) (list_to_set sel) = false →
  let w' := solo d o w in
  methods w' = methods w ∧
  soloState_of d (self w') = None ∧
  ∀ ch, muted d (self w') ch =
          if has "_setMute" w && bool_decide (ch ∈ seqZ 1 (NUM d))
          then default false (prevMute c !! ch)
          else muted d (self w) ch.
Proof.
  intros sel Hsel Hc Happly. subst sel. unfold solo.
  destruct (safeGetChannels (chs o) (NUM d)) as [|c0 l] eqn:E; [done|].
  simpl is_empty. cbv iota. rewrite Hc, Happly.
  destruct (solo_restore_spec d (prevMute c) w) as (Hm & Hs & Hmu).
  unfold log, with_self. cbn [self methods].
  rewrite soloState_of_set. repeat split; try done.
  intros ch. unfold muted. rewrite mute_of_set_soloState. apply Hmu.
Qed.

(** C3: from the unsoloed state, activating a solo set, then a different
    one, then unsoloing leaves every channel with the mute flag it had
    before the first activation; the snapshot [prevMute] is taken by the
    first activation, kept unchanged by the second, and discarded by the
    unsolo.  [d] is the domain (input or output). *)
Theorem solo_switch_then_unsolo (d : Domain) (o1 o2 o3 : ChannelOpOptions) (w0 : World) :
  let sel1 := safeGetChannels o1.(chs) (NUM d) in
  let sel2 := safeGetChannels o2.(chs) (NUM d) in
  let sel3 := safeGetChannels o3.(chs) (NUM d) in
  soloState_of d (self w0) = None →
  sel1 ≠ [] → sel2 ≠ [] → sel3 ≠ [] →
  o1.(operation) ≠ "off" →
  o2.(operation) ≠ "off" →
  (list_to_set sel2 : gset Z) ≠ list_to_set sel1 →
  (o3.(operation) = "off"
   ∨ (o3.(operation) ≠ "on" ∧ (list_to_set sel3 : gset Z) = list_to_set sel2)) →
  let w1 := solo d o1 w0 in
  let w2 := solo d o2 w1 in
  let w3 := solo d o3 w2 in
  soloState_of d (self w1) = Some (mkSolo (list_to_set sel1) (snapshot d (self w0))) ∧
  soloState_of d (self w2) = Some (mkSolo (list_to_set sel2) (snapshot d (self w0))) ∧
  soloState_of d (self w3) = None ∧
  ∀ ch, muted d (self w3) ch = muted d (self w0) ch.
Proof.
  intros sel1 sel2 sel3 H0 Hs1 Hs2 Hs3 Hop1 Hop2 Hne Hop3 w1 w2 w3.
  destruct (solo_activate d o1 w0 Hs1) as (Hm1 & Hst1 & Hmu1).
  { rewrite H0. by apply shouldApplySolo_first. }
  rewrite H0 in Hst1. fold w1 in Hm1, Hst1, Hmu1.
  destruct (solo_activate d o2 w1 Hs2) as (Hm2 & Hst2 & Hmu2).
  { rewrite Hst1. by apply shouldApplySolo_other. }
  rewrite Hst1 in Hst2. cbn [prevMute] in Hst2. fold w2 in Hm2, Hst2, Hmu2.
  destruct (solo_deactivate d o3 w2 _ Hs3 Hst2) as (Hm3 & Hst3 & Hmu3).
  { by apply shouldApplySolo_unsolo. }
  fold w3 in Hm3, Hst3, Hmu3. cbn [prevMute] in Hmu3.
  clearbody w1 w2 w3.
  assert (Hh1 : has "_setMute" w1 = has "_setMute" w0) by (unfold has; by rewrite Hm1).
  assert (Hh2 : has "_setMute" w2 = has "_setMute" w0) by (unfold has; by rewrite Hm2, Hm1).
  repeat split; try done.
  intros ch. rewrite Hmu3, Hh2.
  destruct (has "_setMute" w0) eqn:Ehas; simpl.
  - destruct (decide (ch ∈ seqZ 1 (NUM d))) as [Hin|Hnin].
    + rewrite bool_decide_eq_true_2 by done. by rewrite snapshot_lookup.
    + rewrite bool_decide_eq_false_2 by done.
      rewrite Hmu2, Hh1, Hmu1. simpl.
      by rewrite bool_decide_eq_false_2.
  - by rewrite Hmu2, Hh1, Hmu1.
Qed.

End Solo.

(** The theorem on 4 outputs, output 2 muted beforehand: solo 1 (toggle),
    solo 3 (toggle), toggle 3 again. *)
Lemma solo_switch_then_unsolo_witness :
  let w0 := with_self (set_outMute (<[2 := true]> ∅)) (idle_world ["_setMute"] 0) in
  let w3 := output_solo 8 4 (mkChannelOp "toggle" [Some 3])
              (output_solo 8 4 (mkChannelOp "toggle" [Some 3])
                 (output_solo 8 4 (mkChannelOp "toggle" [Some 1]) w0)) in
  soloState_of Output (self w3) = None ∧
  ∀ ch, muted Output (self w3) ch = muted Output (self w0) ch.
Proof.
  cbv zeta.
  pose proof (solo_switch_then_unsolo 8 4 Output
    (mkChannelOp "toggle" [Some 1]) (mkChannelOp "toggle" [Some 3])
    (mkChannelOp "toggle" [Some 3])
    (with_self (set_outMute (<[2 := true]> ∅)) (idle_world ["_setMute"] 0))) as H.
  cbv zeta in H.
  destruct H as (_ & _ & H3 & H4).
  - reflexivity.
  - vm_compute. discriminate.
  - vm_compute. discriminate.
  - vm_compute. discriminate.
  - discriminate.
  - discriminate.
  - vm_compute. discriminate.
  - right. split; [discriminate | reflexivity].
  - split; [exact H3 | exact H4].
Defined.

(** ** Toggle between two gain values *)

Section GainPair.

Variables (d : Domain) (gA gB dur : Q) (curve : string) (btnId : option string).

(** [self._outputGainToggle[ch] === 'A'] *)
Let lastWasA (w : World) (ch : Z) : bool :=
  bool_decide (gainToggle_of d (self w) !! ch = Some "A").

Lemma gainToggle_of_set (m : gmap Z string) (s : Self) :
  gainToggle_of d (set_gainToggle_of d m s) = m.
Proof. by destruct d. Qed.

Lemma applied_gain_set (ch : Z) (g : Q) :
  applied_gain d (mkCall ("_set" +:+ Cap d +:+ "Gain") [VInt ch; VNum g]) = Some (ch, g).
Proof. destruct d; unfold applied_gain, VInt; simpl; by rewrite Z.div_1_r. Qed.

Lemma applied_gain_fade (ch : Z) (g t : Q) (c : string) :
  applied_gain d (mkCall ("_start" +:+ Cap d +:+ "GainFade")
                    [VInt ch; VNum g; VNum t; VText c]) = Some (ch, g).
Proof. destruct d; unfold applied_gain, VInt; simpl; by rewrite Z.div_1_r. Qed.

(** [apply_gain] hands exactly one gain to the instance. *)
Lemma apply_gain_spec (ch : Z) (g : Q) (w : World) :
  has ("_set" +:+ Cap d +:+ "Gain") w = true →
  let w' := apply_gain d ch g dur curve w in
  methods w' = methods w ∧ self w' = self w ∧
  ∃ c, calls w' = calls w ++ [c] ∧ applied_gain d c = Some (ch, g).
Proof.
  intros Hset. unfold apply_gain. rewrite Hset.
  destruct (Js.ltb 0 dur && has _ w); unfold call; cbn [methods self calls].
  - repeat split; try done. eexists. split; [done|]. apply applied_gain_fade.
  - repeat split; try done. eexists. split; [done|]. apply applied_gain_set.
Qed.

Lemma call_if_defined_other (name : string) (args : list Value) (w : World) :
  (∀ c, call_name c = name → applied_gain d c = None) →
  let w' := call_if_defined name args w in
  methods w' = methods w ∧ self w' = self w ∧
  ∃ cs, calls w' = calls w ++ cs ∧ gains_applied d cs = [].
Proof.
  intros Hname. unfold call_if_defined. destruct (has name w).
  - unfold call. cbn [methods self calls]. repeat split; try done.
    eexists [_]. split; [done|]. unfold gains_applied. simpl. by rewrite Hname.
  - repeat split; try done. exists []. by rewrite app_nil_r.
Qed.

Lemma not_a_gain_call (name : string) :
  name = "_subWrite" ∨ name = "_beginPrevCaptureWindow"
  ∨ name = "_rememberPrev" +:+ Cap d +:+ "Gain" →
  ∀ c, call_name c = name → applied_gain d c = None.
Proof.
  intros Hn c Hc. unfold applied_gain. rewrite Hc.
  destruct d, Hn as [->|[->| ->]]; reflexivity.
Qed.

(** One turn of the pair loop: the gain handed over is B when the last
    one was A and A otherwise, and the flag of the channel flips. *)
Lemma gain_pair_body_spec (w : World) (ch : Z) :
  has ("_set" +:+ Cap d +:+ "Gain") w = true →
  let w' := gain_pair_body d gA gB dur curve btnId w ch in
  methods w' = methods w ∧
  (∀ ch', lastWasA w' ch' = if bool_decide (ch' = ch) then negb (lastWasA w ch) else lastWasA w ch') ∧
  ∃ cs, calls w' = calls w ++ cs ∧
        gains_applied d cs = [(ch, if lastWasA w ch then gB else gA)].
Proof.
  intros Hset. unfold gain_pair_body.
  destruct (call_if_defined_other "_subWrite" [VPath (gain_path d ch)] w)
    as (Hm1 & Hs1 & cs1 & Hc1 & Hg1); [apply not_a_gain_call; auto|].
  set (w1 := call_if_defined "_subWrite" _ w) in *. clearbody w1.
  set (a := bool_decide (gainToggle_of d (self w1) !! ch = Some "A")).
  assert (Ha : a = lastWasA w ch) by (unfold a, lastWasA; by rewrite Hs1).
  set (w2 := with_self _ w1).
  assert (Hm2 : methods w2 = methods w1) by done.
  assert (Hc2 : calls w2 = calls w1) by done.
  assert (Ht2 : gainToggle_of d (self w2) =
                  <[ch := if a then "B" else "A"]> (gainToggle_of d (self w1))).
  { unfold w2, with_self. cbn [self]. by rewrite gainToggle_of_set. }
  clearbody w2.
  destruct (call_if_defined_other "_beginPrevCaptureWindow"
              [VQuote (domain_name d); VInt ch; VBtn btnId; VInt 300] w2)
    as (Hm3 & Hs3 & cs3 & Hc3 & Hg3); [apply not_a_gain_call; auto|].
  set (w3 := call_if_defined "_beginPrevCaptureWindow" _ w2) in *. clearbody w3.
  destruct (call_if_defined_other ("_rememberPrev" +:+ Cap d +:+ "Gain")
              [VInt ch; VBtn btnId] w3)
    as (Hm4 & Hs4 & cs4 & Hc4 & Hg4); [apply not_a_gain_call; auto|].
  set (w4 := call_if_defined ("_rememberPrev" +:+ Cap d +:+ "Gain") _ w3) in *. clearbody w4.
  destruct (apply_gain_spec ch (if a then gB else gA) w4) as (Hm5 & Hs5 & c5 & Hc5 & Hg5).
  { unfold has in *. by rewrite Hm4, Hm3, Hm2, Hm1. }
  split; [by rewrite Hm5, Hm4, Hm3, Hm2, Hm1|]. split.
  - intros ch'. unfold lastWasA. rewrite Hs5, Hs4, Hs3, Ht2, Hs1.
    destruct (decide (ch' = ch)) as [->|Hne].
    + rewrite lookup_insert_eq, (bool_decide_eq_true_2 (ch = ch)) by done.
      fold (lastWasA w ch). rewrite <- Ha. by destruct a.
    + rewrite lookup_insert_ne, (bool_decide_eq_false_2 (ch' = ch)) by done. done.
  - exists (cs1 ++ cs3 ++ cs4 ++ [c5]). split.
    + rewrite Hc5, Hc4, Hc3, Hc2, Hc1. by rewrite <- !app_assoc.
    + unfold gains_applied in *. rewrite !omap_app, Hg1, Hg3, Hg4. simpl.
      by rewrite Hg5, Ha.
Qed.

Lemma gain_pair_loop_spec (l : list Z) (w : World) :
  NoDup l →
  has ("_set" +:+ Cap d +:+ "Gain") w = true →
  let w' := foldl (gain_pair_body d gA gB dur curve btnId) w l in
  methods w' = methods w ∧
  (∀ ch, lastWasA w' ch = if bool_decide (ch ∈ l) then negb (lastWasA w ch) else lastWasA w ch) ∧
  ∃ cs, calls w' = calls w ++ cs ∧
        gains_applied d cs = map (λ ch, (ch, if lastWasA w ch then gB else gA)) l.
Proof.
  intros Hnd. revert w. induction Hnd as [|c l Hc Hnd IH]; intros w Hset; simpl.
  - repeat split; try done. exists []. by rewrite app_nil_r.
  - destruct (gain_pair_body_spec w c Hset) as (Hm1 & Ht1 & cs1 & Hc1 & Hg1).
    destruct (IH (gain_pair_body d gA gB dur curve btnId w c)) as (Hm2 & Ht2 & cs2 & Hc2 & Hg2).
    { unfold has in *. by rewrite Hm1. }
    split; [by rewrite Hm2, Hm1|]. split.
    + intros ch. rewrite Ht2, Ht1.
      rewrite (bool_decide_ext (ch ∈ c :: l) (ch = c ∨ ch ∈ l)) by apply elem_of_cons.
      destruct (decide (ch = c)) as [->|Hne].
      * rewrite (bool_decide_eq_false_2 (c ∈ l)) by done.
        rewrite !bool_decide_eq_true_2; auto.
      * rewrite (bool_decide_eq_false_2 (ch = c)) by done.
        destruct (decide (ch ∈ l)).
        -- rewrite !bool_decide_eq_true_2; auto.
        -- rewrite !bool_decide_eq_false_2; auto. intros [?|?]; done.
    + exists (cs1 ++ cs2). split; [by rewrite Hc2, Hc1, <- app_assoc|].
      unfold gains_applied in *. rewrite omap_app, Hg1, Hg2. simpl. f_equal.
      apply map_ext_in. intros ch Hin. rewrite Ht1.
      rewrite bool_decide_eq_false_2; [done|].
      intros ->. apply Hc. by apply list_elem_of_In.
Qed.

End GainPair.

(** One pair request. *)
Lemma gain_set_pair_spec (NUM_INPUTS NUM_OUTPUTS : Z)
    (_getPrevGain : Domain → Z → option string → World → option Q)
    (d : Domain) (o : GainOptions) (w : World) :
  gain_target o = "pair" →
  has ("_set" +:+ Cap d +:+ "Gain") w = true →
  let sel := safeGetChannels o.(gain_chs) (NUM NUM_INPUTS NUM_OUTPUTS d) in
  let w' := gain_set NUM_INPUTS NUM_OUTPUTS _getPrevGain d o w in
  methods w' = methods w ∧
  (∀ ch, gainToggle_of d (self w') !! ch = Some "A" ↔
         if bool_decide (ch ∈ sel)
         then gainToggle_of d (self w) !! ch ≠ Some "A"
         else gainToggle_of d (self w) !! ch = Some "A") ∧
  gains_applied d (called_since w w') =
    map (λ ch, (ch, if bool_decide (gainToggle_of d (self w) !! ch = Some "A")
                    then gain_b o else gain_a o)) sel.
Proof.
  intros Ht Hset sel w'. subst w'. unfold gain_set. fold sel. rewrite Ht.
  destruct (is_empty sel) eqn:E.
  - apply is_empty_nil in E. rewrite E. unfold log. cbn [methods self].
    split; [done|]. split; [done|].
    unfold called_since. cbn [calls]. by rewrite drop_all.
  - cbn -[foldl].
    destruct (gain_pair_loop_spec d (gain_a o) (gain_b o)
                (Js.Math_max 0 (Js.or_default (gain_fadeMs o) 0))
                (if (gain_curve o =? "log")%string then "log" else "linear")
                (gain_btnId o) sel w) as (Hm & Htog & cs & Hc & Hg); [|done|].
    { apply safeGetChannels_NoDup. }
    cbv zeta in Hm, Htog, Hc.
    split; [done|]. split; [|by rewrite (called_since_app _ _ _ Hc)].
    intros ch. specialize (Htog ch). cbv beta in Htog.
    etrans; [symmetry; apply bool_decide_eq_true|]. rewrite Htog.
    destruct (bool_decide (ch ∈ sel)).
    + by rewrite negb_true_iff, bool_decide_eq_false.
    + by rewrite bool_decide_eq_true.
Qed.

(** C6: from the unset toggle state, three invocations of the gain "pair"
    action on the same channels hand over, for every selected channel, the
    gain A, then the gain B, then the gain A again; with [gain_a = 0] and
    [gain_b = -6] this is 0 dB, -6 dB, 0 dB.  The value counted as applied
    is the target passed to [_set...Gain] (or to [_start...GainFade] when a
    fade duration is given). *)
Theorem gain_pair_alternates (NUM_INPUTS NUM_OUTPUTS : Z)
    (_getPrevGain : Domain → Z → option string → World → option Q)
    (d : Domain) (o : GainOptions) (w0 : World) :
  let sel := safeGetChannels o.(gain_chs) (NUM NUM_INPUTS NUM_OUTPUTS d) in
  gain_target o = "pair" →
  has ("_set" +:+ Cap d +:+ "Gain") w0 = true →
  (∀ ch, ch ∈ sel → gainToggle_of d (self w0) !! ch = None) →
  let w1 := gain_set NUM_INPUTS NUM_OUTPUTS _getPrevGain d o w0 in
  let w2 := gain_set NUM_INPUTS NUM_OUTPUTS _getPrevGain d o w1 in
  let w3 := gain_set NUM_INPUTS NUM_OUTPUTS _getPrevGain d o w2 in
  gains_applied d (called_since w0 w1) = map (λ ch, (ch, gain_a o)) sel ∧
  gains_applied d (called_since w1 w2) = map (λ ch, (ch, gain_b o)) sel ∧
  gains_applied d (called_since w2 w3) = map (λ ch, (ch, gain_a o)) sel.
Proof.
  intros sel Ht Hset Hunset w1 w2 w3.
  destruct (gain_set_pair_spec NUM_INPUTS NUM_OUTPUTS _getPrevGain d o w0 Ht Hset)
    as (Hm1 & Ht1 & Hg1).
  fold sel w1 in Hm1, Ht1, Hg1.
  assert (Hset1 : has ("_set" +:+ Cap d +:+ "Gain") w1 = true)
    by (unfold has in *; by rewrite Hm1).
  destruct (gain_set_pair_spec NUM_INPUTS NUM_OUTPUTS _getPrevGain d o w1 Ht Hset1)
    as (Hm2 & Ht2 & Hg2).
  fold sel w2 in Hm2, Ht2, Hg2.
  assert (Hset2 : has ("_set" +:+ Cap d +:+ "Gain") w2 = true)
    by (unfold has in *; by rewrite Hm2).
  destruct (gain_set_pair_spec NUM_INPUTS NUM_OUTPUTS _getPrevGain d o w2 Ht Hset2)
    as (_ & _ & Hg3).
  fold sel w3 in Hg3.
  clearbody w1 w2 w3.
  assert (H1 : ∀ ch, ch ∈ sel → gainToggle_of d (self w1) !! ch = Some "A").
  { intros ch Hin. apply Ht1. rewrite bool_decide_eq_true_2 by done.
    by rewrite Hunset. }
  assert (H2 : ∀ ch, ch ∈ sel → gainToggle_of d (self w2) !! ch ≠ Some "A").
  { intros ch Hin HA. apply Ht2 in HA. rewrite bool_decide_eq_true_2 in HA by done.
    by apply HA, H1. }
  rewrite Hg1, Hg2, Hg3. repeat split; apply map_ext_in; intros ch Hin%list_elem_of_In.
  - rewrite bool_decide_eq_false_2; [done|]. by rewrite Hunset.
  - rewrite bool_decide_eq_true_2; [done|]. by apply H1.
  - rewrite bool_decide_eq_false_2; [done|]. by apply H2.
Qed.

(** The theorem on output channels 1 and 2 with A = 0 dB and B = -6 dB. *)
Lemma gain_pair_alternates_witness :
  let o := mkGainOptions [Some 1; Some 2] "pair" 0 None 0 (-6) (Some 0%Q) "linear" None in
  let w0 := idle_world ["_setOutputGain"] 0 in
  let w1 := output_gain_set 8 16 (λ _ _ _ _, None) o w0 in
  let w2 := output_gain_set 8 16 (λ _ _ _ _, None) o w1 in
  let w3 := output_gain_set 8 16 (λ _ _ _ _, None) o w2 in
  gains_applied Output (called_since w0 w1) = [(1, 0%Q); (2, 0%Q)] ∧
  gains_applied Output (called_since w1 w2) = [(1, (-6)%Q); (2, (-6)%Q)] ∧
  gains_applied Output (called_since w2 w3) = [(1, 0%Q); (2, 0%Q)].
Proof.
  cbv zeta.
  apply (gain_pair_alternates 8 16 (λ _ _ _ _, None) Output
           (mkGainOptions [Some 1; Some 2] "pair" 0 None 0 (-6) (Some 0%Q) "linear" None)
           (idle_world ["_setOutputGain"] 0)).
  - reflexivity.
  - reflexivity.
  - intros ch _. reflexivity.
Defined.

(** ** Acceleration Tier Engine *)

(** What one run of the acceleration block computes and stores. *)
Lemma accelerate_spec (prefix : string) (ev : RotaryEvent) (w : World) :
  let key := accelKey prefix ev in
  let last := default (mkRotation 0 0) (_rotaryAccel (self w) !! key) in
  let t := if now w - time last <? 100 then Z.min (count last + 1) 3 else 0 in
  fst (accelerate prefix ev w) = t ∧
  _rotaryAccel (self (snd (accelerate prefix ev w))) =
    <[key := mkRotation (now w) t]> (_rotaryAccel (self w)) ∧
  tier key (snd (accelerate prefix ev w)) = Some t.
Proof.
  unfold accelerate, tier, with_self. cbn [fst snd self]. unfold set__rotaryAccel.
  cbn [_rotaryAccel]. repeat split; try done. by rewrite lookup_insert_eq.
Qed.

Lemma accelerate_bounded (prefix : string) (ev : RotaryEvent) (w : World) :
  tiers_bounded w →
  0 ≤ fst (accelerate prefix ev w) ≤ 3 ∧ tiers_bounded (snd (accelerate prefix ev w)).
Proof.
  intros Hb. destruct (accelerate_spec prefix ev w) as (Ht & Hs & _).
  cbv zeta in Ht, Hs.
  assert (Hlast : 0 ≤ count (default (mkRotation 0 0)
                    (_rotaryAccel (self w) !! accelKey prefix ev)) ≤ 3).
  { destruct (_rotaryAccel (self w) !! accelKey prefix ev) as [r|] eqn:E; simpl.
    - by eapply Hb.
    - lia. }
  assert (Hrange : 0 ≤ fst (accelerate prefix ev w) ≤ 3).
  { rewrite Ht. destruct (_ <? 100); lia. }
  split; [done|]. intros key r. rewrite Hs.
  destruct (decide (accelKey prefix ev = key)) as [<-|Hne].
  - rewrite lookup_insert_eq. intros [= <-]. simpl. by rewrite <- Ht.
  - rewrite lookup_insert_ne by done. apply Hb.
Qed.

(** The knobs that run the acceleration block once per event (here the
    output slope knob): after an event the stored tier is 0 when at least
    100 ms passed since the previous event of the key, and the previous
    tier plus one, saturating at 3, otherwise. *)
Lemma knob_slope_loop_accel (direction : string) (stepCount band : Z) (l : list Z) (w : World) :
  _rotaryAccel (self (foldl (knob_slope_body direction stepCount band) w l)) =
  _rotaryAccel (self w).
Proof.
  revert w. induction l as [|ch l IH]; intros w; simpl; [done|].
  rewrite IH. unfold knob_slope_body, call_if_defined.
  by destruct (has _ _).
Qed.

Lemma knob_slope_tier (e : RotaryEvent) (s direction : string) (w : World) :
  surfaceId e = Some s →
  has "_cmdSendLine" w = true →
  let key := accelKey "ushaping_slope_" e in
  let last := default (mkRotation 0 0) (_rotaryAccel (self w) !! key) in
  tier key (output_ushaping_knob_slope e direction w) =
    Some (if now w - time last <? 100 then Z.min (count last + 1) 3 else 0).
Proof.
  intros Hs Hsend. unfold output_ushaping_knob_slope. rewrite Hsend, Hs.
  cbn [negb]. cbv zeta.
  destruct (accelerate "ushaping_slope_" e w) as [t w1] eqn:E.
  unfold tier. rewrite knob_slope_loop_accel.
  destruct (accelerate_spec "ushaping_slope_" e w) as (_ & _ & Ht).
  rewrite E in Ht. exact Ht.
Qed.

(** C5 fails on the frequency knobs, which run the acceleration block once
    per selected channel instead of once per event.  Two outputs selected
    (band 1, both at the default 62 Hz), two rotation events half a second
    apart: after each event the stored tier is 1, not 0, and in each event
    the second output is stepped with the tier-1 delta while the first one
    gets the tier-0 delta (62 -> 63 and 62 -> 64, then 63 -> 65 and
    64 -> 69). *)
Theorem knob_frequency_tier_after_slow_event :
  let e := mkRotaryEvent (Some "deck") None None None None in
  let w0 := with_self (set__ushapingKnobControlOutput (Some (mkKnob (Some [1; 2]) (Some 1))))
              (idle_world ["_cmdSendLine"] 1000000) in
  let w1 := output_ushaping_knob_frequency e 10 w0 in
  let w2 := output_ushaping_knob_frequency e 10 (advance 500 w1) in
  tier "ushaping_freq_deck" w1 = Some 1 ∧
  tier "ushaping_freq_deck" w2 = Some 1 ∧
  sent_since w0 w1 =
    [mkCmd (ushaping_path Output 1 1 "frequency") (VNum 63);
     mkCmd (ushaping_path Output 2 1 "frequency") (VNum 64)] ∧
  sent_since w1 w2 =
    [mkCmd (ushaping_path Output 1 1 "frequency") (VNum 65);
     mkCmd (ushaping_path Output 2 1 "frequency") (VNum 69)].
Proof. vm_compute. repeat split; reflexivity. Qed.

(** ** Empty channel selections *)

(** The actions that test [chs.length === 0]: with a selection that
    validates to nothing they log one warning and do nothing else. *)
Lemma guarded_actions_skip_empty_selection (NUM_INPUTS NUM_OUTPUTS : Z)
    (_getPrevGain : Domain → Z → option string → World → option Q)
    (d : Domain) (sel : list Token) (w : World) :
  safeGetChannels sel (NUM NUM_INPUTS NUM_OUTPUTS d) = [] →
  (∀ op, mute_control NUM_INPUTS NUM_OUTPUTS d (mkChannelOp op sel) w
         = log "warn" ("No valid " +:+ domain_name d +:+ " channels selected") w) ∧
  (∀ op, solo NUM_INPUTS NUM_OUTPUTS d (mkChannelOp op sel) w
         = log "warn" ("No valid " +:+ domain_name d +:+ " channels selected for solo") w) ∧
  (∀ o, gain_chs o = sel →
        gain_set NUM_INPUTS NUM_OUTPUTS _getPrevGain d o w
        = log "warn" ("No valid " +:+ domain_name d +:+ " channels selected") w) ∧
  (∀ hi ty v, delay_set d (NUM NUM_INPUTS NUM_OUTPUTS d) hi (mkDelayOptions sel ty v) w
        = log "warn" ("No valid " +:+ domain_name d +:+ " channels selected") w).
Proof.
  intros E. repeat split.
  - intros op. unfold mute_control. cbn [chs]. by rewrite E.
  - intros op. unfold solo. cbn [chs]. by rewrite E.
  - intros o <-. unfold gain_set. by rewrite E.
  - intros hi ty v. unfold delay_set. cbn [delay_chs]. by rewrite E.
Qed.

Lemma matrix_delay_skips_empty_selection (NUM_OUTPUTS : Z) (o : MatrixDelayOptions) (w : World) :
  safeGetChannels (matrix_inputs o) 32 = [] ∨ safeGetChannels (matrix_outputs o) NUM_OUTPUTS = [] →
  matrix_delay_full NUM_OUTPUTS o w = log "warn" "No valid matrix channels selected" w.
Proof.
  intros [E|E]; unfold matrix_delay_full; rewrite E; [done|].
  by rewrite orb_true_r.
Qed.

(** The EQ bypass actions have no such test: an empty selection makes the
    loop run zero times, so nothing is transmitted or stored, and nothing
    is logged either. *)
Lemma eq_bypass_empty_selection (NUM_INPUTS NUM_OUTPUTS : Z) (d : Domain)
    (o : EqBypassOptions) (w : World) :
  safeGetChannels (eq_chs o) (NUM NUM_INPUTS NUM_OUTPUTS d) = [] →
  eq_bypass NUM_INPUTS NUM_OUTPUTS d o w = w.
Proof. intros E. unfold eq_bypass. by rewrite E. Qed.

(** C8 fails on the parametric EQ actions.  [input_eq_bypass] with an empty
    selection, or with one that validates to nothing, returns without a
    log entry; [output_eq_select_output] with an empty selection even
    stores the empty selection, again without a log entry. *)
Theorem eq_actions_empty_selection_not_logged :
  let w := idle_world ["_cmdSendLine"; "_applyInputEQBypass"] 0 in
  logs (input_eq_bypass 8 16 (mkEqBypass [] None "true") w) = [] ∧
  logs (input_eq_bypass 8 16 (mkEqBypass [Some 99; None] (Some "toggle") "true") w) = [] ∧
  logs (output_eq_select_output 16 [] w) = [] ∧
  _eqKnobControlOutput (self (output_eq_select_output 16 [] w))
    = Some (mkKnob (Some []) None) ∧
  logs (input_mute_control 8 16 (mkChannelOp "toggle" []) w)
    = [mkLog "warn" "No valid input channels selected"].
Proof. vm_compute. repeat split; reflexivity. Qed.

(** ** Array Curve Distributor *)

(** *** Rounding and logarithms *)

Lemma Math_roundR_eq (x : R) (k : Z) :
  (IZR k - / 2 <= x < IZR k + / 2)%R → Js.Math_roundR x = k.
Proof. intros H. unfold Js.Math_roundR. apply Zfloor_eq. lra. Qed.

Lemma roundTenth_eq (v : R) (k : Z) :
  (IZR k - / 2 <= v * 10 < IZR k + / 2)%R → roundTenth v = k # 10.
Proof. intros H. unfold roundTenth. by rewrite (Math_roundR_eq _ k). Qed.

Lemma Math_log_1 : Math_log 1 = 0%R.
Proof. unfold Math_log. apply ln_1. Qed.

Lemma Math_log_pos (x : Z) : 1 < x → (0 < Math_log x)%R.
Proof.
  intros Hx. unfold Math_log. rewrite <- ln_1.
  apply ln_increasing; [lra|]. by apply IZR_lt.
Qed.

Lemma Math_log_le_0 (x : Z) : 1 ≤ x → (Math_log x <= 0)%R ↔ x = 1.
Proof.
  intros Hx. split.
  - intros Hle. destruct (decide (x = 1)) as [|Hne]; [done|].
    assert (0 < Math_log x)%R by (apply Math_log_pos; lia). lra.
  - intros ->. rewrite Math_log_1. lra.
Qed.

(** [Math.log(x ** n) = n * Math.log(x)] *)
Lemma Math_log_pow (x : Z) (n : nat) :
  0 < x → Math_log (x ^ Z.of_nat n) = (INR n * Math_log x)%R.
Proof.
  intros Hx. unfold Math_log. rewrite <- pow_IZR.
  apply ln_pow. by apply IZR_lt.
Qed.

Lemma Math_log_le (x y : Z) : 0 < x → x ≤ y → (Math_log x <= Math_log y)%R.
Proof.
  intros Hx Hxy. unfold Math_log.
  destruct (decide (x = y)) as [->|Hne]; [lra|].
  apply Rlt_le, ln_increasing; [by apply IZR_lt|]. apply IZR_lt. lia.
Qed.

Lemma Math_log_4 : Math_log 4 = (2 * Math_log 2)%R.
Proof. change 4 with (2 ^ Z.of_nat 2). rewrite Math_log_pow by lia. simpl. lra. Qed.

(** [11/14 <= log 3 / log 4 <= 23/29], from [4^11 <= 3^14] and
    [3^29 <= 4^23]. *)
Lemma Math_log_3_over_4 :
  (11 / 14 * Math_log 4 <= Math_log 3 <= 23 / 29 * Math_log 4)%R.
Proof.
  split.
  - assert (H : (Math_log (4 ^ Z.of_nat 11) <= Math_log (3 ^ Z.of_nat 14))%R).
    { apply Math_log_le; [done|]. by vm_compute. }
    rewrite !Math_log_pow in H by lia. simpl in H. lra.
  - assert (H : (Math_log (3 ^ Z.of_nat 29) <= Math_log (4 ^ Z.of_nat 23))%R).
    { apply Math_log_le; [done|]. by vm_compute. }
    rewrite !Math_log_pow in H by lia. simpl in H. lra.
Qed.

(** *** The guard *)

Lemma Math_ceil_half (t : Z) : Js.Math_ceil (inject_Z t / 2) = (t + 1) / 2.
Proof.
  unfold Js.Math_ceil, Qceiling, Qfloor, Qdiv, Qmult, Qinv, inject_Z. simpl.
  change (Z.pos (1 * 2)) with 2. rewrite Z.mul_1_r.
  Z.div_mod_to_equations. lia.
Qed.

(** The HF attenuation definitions unfolded by name, for the sections below
    that abbreviate them at a fixed [NUM_OUTPUTS]. *)
Ltac unfold_hf_start := unfold hf_start.
Ltac unfold_hf_total := unfold hf_total.
Ltac unfold_hf_span := unfold hf_span.
Ltac unfold_hf_db := unfold hf_db.
Ltac unfold_hf_assignments := unfold hf_assignments.
Ltac unfold_output_hf_attenuation := unfold output_hf_attenuation.

Section Hf.

Variable NUM_OUTPUTS : Z.

Local Abbreviation hf_start := (hf_start NUM_OUTPUTS).
Local Abbreviation hf_total := (hf_total NUM_OUTPUTS).
Local Abbreviation hf_span := (hf_span NUM_OUTPUTS).
Local Abbreviation hf_loop := (hf_loop NUM_OUTPUTS).
Local Abbreviation hf_assignments := (hf_assignments NUM_OUTPUTS).
Local Abbreviation output_hf_attenuation := (output_hf_attenuation NUM_OUTPUTS).

Lemma hf_total_ge_1 (o : HfOptions) : 1 ≤ hf_total o.
Proof. unfold_hf_total. lia. Qed.

Lemma hf_span_eq (o : HfOptions) : hf_span o = Z.max 1 ((hf_total o + 1) / 2).
Proof. unfold_hf_span. by rewrite Math_ceil_half. Qed.

Lemma hf_span_ge_1 (o : HfOptions) : 1 ≤ hf_span o.
Proof. rewrite hf_span_eq. lia. Qed.

(** The span is 1 exactly when one or two loudspeakers are covered. *)
Lemma hf_span_degenerate (o : HfOptions) :
  hf_span o ≤ 1 ↔ hf_total o = 1 ∨ hf_total o = 2.
Proof.
  rewrite hf_span_eq. pose proof (hf_total_ge_1 o).
  Z.div_mod_to_equations. lia.
Qed.

(** With three or more loudspeakers the covered outputs all exist. *)
Lemma hf_total_fits (o : HfOptions) :
  1 < hf_span o → hf_start o + hf_total o - 1 ≤ NUM_OUTPUTS.
Proof.
  intros Hs. assert (2 < hf_total o).
  { destruct (decide (hf_total o ≤ 2)) as [Hle|]; [|lia].
    assert (hf_span o ≤ 1); [|lia]. apply hf_span_degenerate.
    pose proof (hf_total_ge_1 o). lia. }
  revert H. unfold_hf_total. cbv zeta. destruct (total o); lia.
Qed.

(** *** The curve *)

Lemma rawDb_no_fault (span boxIndex : Z) (posMax negMax : Q) :
  1 < span → snd (rawDb span boxIndex posMax negMax) = 0%nat.
Proof.
  intros Hs. pose proof (Math_log_pos span Hs) as Hpos.
  unfold rawDb, divide.
  destruct (boxIndex <=? span); cbn [snd];
    destruct (Req_dec_T (Math_log span) 0); try done; lra.
Qed.

End Hf.

(** *** The store after the loop *)

Lemma strip_of_update_band (ch band : Z) (f : Band → Band) (m : gmap Z Strip) :
  strip_of (update_band ch band f m) ch =
    mkStrip (bypass (strip_of m ch)) (<[band := f (band_of m ch band)]> (bands (strip_of m ch))).
Proof. unfold strip_of at 1, update_band. by rewrite lookup_insert_eq. Qed.

Lemma update_band_lookup_ne (ch ch' band : Z) (f : Band → Band) (m : gmap Z Strip) :
  ch' ≠ ch → update_band ch band f m !! ch' = m !! ch'.
Proof. intros Hne. unfold update_band. by rewrite lookup_insert_ne. Qed.

(** One loop turn writes band 4 and band 5 of its channel and nothing else. *)
Lemma hf_store_strip (ch : Z) (db : Q) (m : gmap Z Strip) :
  strip_of (hf_store ch db m) ch =
    mkStrip (bypass (strip_of m ch))
      (<[5 := set_gain db (band_of m ch 5)]>
         (<[4 := set_slope band4Slope (set_frequency band4Frequency (band_of m ch 4))]>
            (bands (strip_of m ch)))).
Proof.
  unfold hf_store. rewrite strip_of_update_band. unfold band_of at 1.
  rewrite strip_of_update_band. cbn [bypass bands].
  by rewrite lookup_insert_ne.
Qed.

Lemma hf_store_lookup_ne (ch ch' : Z) (db : Q) (m : gmap Z Strip) :
  ch' ≠ ch → hf_store ch db m !! ch' = m !! ch'.
Proof. intros Hne. unfold hf_store. by rewrite !update_band_lookup_ne. Qed.

Lemma hf_store_strip_ext (ch : Z) (db : Q) (m m' : gmap Z Strip) :
  m !! ch = m' !! ch → strip_of (hf_store ch db m) ch = strip_of (hf_store ch db m') ch.
Proof.
  intros E. rewrite !hf_store_strip. unfold band_of, strip_of. by rewrite E.
Qed.

Section HfStore.

Variables (start : Z) (g : Z → Q).

Let step (m : gmap Z Strip) (i : Z) : gmap Z Strip := hf_store (start + i) (g i) m.

Lemma hf_fold_lookup_other (idxs : list Z) (m : gmap Z Strip) (ch : Z) :
  (∀ i, i ∈ idxs → ch ≠ start + i) → foldl step m idxs !! ch = m !! ch.
Proof.
  revert m. induction idxs as [|a l IH]; intros m Hch; simpl; [done|].
  rewrite IH.
  - unfold step. apply hf_store_lookup_ne. apply Hch. by left.
  - intros i Hi. apply Hch. by right.
Qed.

Lemma hf_fold_strip (idxs : list Z) (m : gmap Z Strip) (i : Z) :
  NoDup idxs → i ∈ idxs →
  strip_of (foldl step m idxs) (start + i) = strip_of (hf_store (start + i) (g i) m) (start + i).
Proof.
  intros Hnd. revert m. induction Hnd as [|a l Ha Hnd IH]; intros m Hi; simpl.
  - by apply elem_of_nil in Hi.
  - apply elem_of_cons in Hi as [->|Hi].
    + unfold strip_of at 1. rewrite hf_fold_lookup_other; [done|].
      intros j Hj Heq. assert (a = j) by lia. subst. done.
    + rewrite IH by done. apply hf_store_strip_ext.
      unfold step. apply hf_store_lookup_ne.
      intros Heq. assert (i = a) by lia. subst. done.
Qed.

End HfStore.

Section HfLoop.

Variables (NUM_OUTPUTS start span : Z) (posMax negMax : Q).

Let db (i : Z) : Q := roundTenth (fst (rawDb span (i + 1) posMax negMax)).

Lemma send_lines (cs : list Cmd) (w : World) :
  let w' := foldl (λ w c, _cmdSendLine c w) w cs in
  sent w' = sent w ++ cs ∧ self w' = self w ∧ methods w' = methods w ∧
  logs w' = logs w ∧ calls w' = calls w ∧ div0 w' = div0 w.
Proof.
  revert w. induction cs as [|c cs IH]; intros w; simpl.
  - by rewrite app_nil_r.
  - destruct (IH (_cmdSendLine c w)) as (-> & -> & -> & -> & -> & ->).
    unfold _cmdSendLine. cbn [sent self methods logs calls div0].
    by rewrite <- app_assoc.
Qed.

(** The loop when no [break] is taken and the span is not degenerate. *)
Lemma hf_loop_spec (idxs : list Z) (w : World) (acc : list (Z * Q)) :
  1 < span →
  (∀ i, i ∈ idxs → start + i ≤ NUM_OUTPUTS) →
  let r := hf_loop NUM_OUTPUTS start span posMax negMax idxs (w, acc) in
  snd r = acc ++ map (λ i, (start + i, db i)) idxs ∧
  sent (fst r) = sent w ++ flat_map (λ i, hf_lines (start + i) (db i)) idxs ∧
  outputUShaping (self (fst r)) =
    foldl (λ m i, hf_store (start + i) (db i) m) (outputUShaping (self w)) idxs ∧
  self (fst r) = set_outputUShaping (outputUShaping (self (fst r))) (self w) ∧
  methods (fst r) = methods w ∧ logs (fst r) = logs w ∧ calls (fst r) = calls w ∧
  div0 (fst r) = div0 w.
Proof.
  intros Hspan. revert w acc. induction idxs as [|i l IH]; intros w acc Hfit.
  - simpl. rewrite !app_nil_r. repeat split; try done. by destruct (self w).
  - cbn [hf_loop].
    assert (Hi : start + i ≤ NUM_OUTPUTS) by (apply Hfit; by left).
    destruct (start + i >? NUM_OUTPUTS) eqn:E; [lia|].
    pose proof (rawDb_no_fault span (i + 1) posMax negMax Hspan) as Hf.
    destruct (rawDb span (i + 1) posMax negMax) as [raw f] eqn:Eraw.
    cbn [snd] in Hf. subst f.
    assert (Hdb : roundTenth raw = db i) by (unfold db; by rewrite Eraw).
    rewrite Hdb.
    set (w1 := fault 0 w).
    set (w2 := with_self _ w1).
    destruct (send_lines (hf_lines (start + i) (db i)) w2) as (Hs3 & Hself3 & Hm3 & Hl3 & Hc3 & Hd3).
    set (w3 := foldl _ w2 _) in *.
    destruct (IH w3 (acc ++ [(start + i, db i)])) as (Ha & Hs & Hu & Hself & Hm & Hl & Hc & Hd).
    { intros j Hj. apply Hfit. by right. }
    assert (Hself2 : self w2 = set_outputUShaping
              (hf_store (start + i) (db i) (outputUShaping (self w))) (self w)) by done.
    assert (Hsent2 : sent w2 = sent w) by done.
    assert (Hrest2 : methods w2 = methods w ∧ logs w2 = logs w ∧ calls w2 = calls w
                     ∧ div0 w2 = div0 w).
    { unfold w2, w1, with_self, fault. cbn [methods logs calls div0].
      repeat split; try done; lia. }
    destruct Hrest2 as (Hm2 & Hl2 & Hc2 & Hd2).
    clearbody w3 w2. 
    split; [by rewrite Ha, <- app_assoc|].
    split; [by rewrite Hs, Hs3, Hsent2, <- app_assoc|].
    split; [by rewrite Hu, Hself3, Hself2; destruct (self w)|].
    split; [rewrite Hself at 1; rewrite Hself3, Hself2; by destruct (self w)|].
    split; [by rewrite Hm, Hm3, Hm2|].
    split; [by rewrite Hl, Hl3, Hl2|].
    split; [by rewrite Hc, Hc3, Hc2|].
    by rewrite Hd, Hd3, Hd2.
Qed.

End HfLoop.

(** *** The callback *)

Section HfCallback.

Variable NUM_OUTPUTS : Z.

Local Abbreviation hf_start := (hf_start NUM_OUTPUTS).
Local Abbreviation hf_total := (hf_total NUM_OUTPUTS).
Local Abbreviation hf_span := (hf_span NUM_OUTPUTS).
Local Abbreviation hf_db := (hf_db NUM_OUTPUTS).
Local Abbreviation hf_assignments := (hf_assignments NUM_OUTPUTS).
Local Abbreviation output_hf_attenuation := (output_hf_attenuation NUM_OUTPUTS).

Lemma hf_indices_fit (o : HfOptions) (i : Z) :
  1 < hf_span o → i ∈ seqZ 0 (hf_total o) → hf_start o + i ≤ NUM_OUTPUTS.
Proof.
  intros Hs Hi%elem_of_seqZ. pose proof (hf_total_fits NUM_OUTPUTS o Hs). lia.
Qed.

Lemma hf_assignments_spec (o : HfOptions) (w : World) :
  1 < hf_span o →
  hf_assignments o w = map (λ i, (hf_start o + i, hf_db o i)) (seqZ 0 (hf_total o)).
Proof.
  intros Hs. unfold_hf_assignments.
  by destruct (hf_loop_spec NUM_OUTPUTS (hf_start o) (hf_span o)
                 (hf_totalSwing o / 3) (hf_totalSwing o * 2 / 3)
                 (seqZ 0 (hf_total o)) w [] Hs
                 (λ i Hi, hf_indices_fit o i Hs Hi)) as (-> & _).
Qed.

(** A degenerate span: one warning and nothing else. *)
Lemma hf_attenuation_refuses (o : HfOptions) (w : World) :
  has "_cmdSendLine" w = true → hf_span o ≤ 1 →
  output_hf_attenuation o w = log "warn" "HF attenuation: invalid span (must be > 1)" w.
Proof.
  intros Hsend Hs. unfold_output_hf_attenuation. rewrite Hsend. cbn [negb].
  destruct (Rle_dec _ 0) as [|Hn]; [done|].
  exfalso. apply Hn. apply Math_log_le_0; [apply hf_span_ge_1|].
  pose proof (hf_span_ge_1 NUM_OUTPUTS o). lia.
Qed.

(** A proper span: the loop runs over all covered outputs. *)
Lemma hf_attenuation_spec (o : HfOptions) (w : World) :
  has "_cmdSendLine" w = true → 1 < hf_span o →
  let w' := output_hf_attenuation o w in
  sent w' = sent w ++
    flat_map (λ i, hf_lines (hf_start o + i) (hf_db o i)) (seqZ 0 (hf_total o)) ∧
  outputUShaping (self w') =
    foldl (λ m i, hf_store (hf_start o + i) (hf_db o i) m)
      (outputUShaping (self w)) (seqZ 0 (hf_total o)) ∧
  self w' = set_outputUShaping (outputUShaping (self w')) (self w) ∧
  methods w' = methods w ∧
  logs w' = logs w ++ [mkLog "info" "HF attenuation from output"] ∧
  calls w' = calls w ∧ div0 w' = div0 w.
Proof.
  intros Hsend Hs. unfold_output_hf_attenuation. rewrite Hsend. cbn [negb].
  destruct (Rle_dec _ 0) as [Hle|_].
  { apply Math_log_le_0 in Hle; [lia|apply hf_span_ge_1]. }
  destruct (hf_loop_spec NUM_OUTPUTS (hf_start o) (hf_span o)
              (hf_totalSwing o / 3) (hf_totalSwing o * 2 / 3)
              (seqZ 0 (hf_total o)) w [] Hs
              (λ i Hi, hf_indices_fit o i Hs Hi))
    as (Ha & Hsent & Hu & Hself & Hm & Hl & Hc & Hd).
  cbv zeta in *.
  destruct (hf_loop _ _ _ _ _ _ _) as [w1 asg]. cbn [fst snd] in *.
  assert (Hne : is_empty asg = false).
  { rewrite Ha. simpl.
    assert (2 < hf_total o).
    { destruct (decide (hf_total o ≤ 2)); [|lia].
      assert (hf_span o ≤ 1); [|lia]. apply hf_span_degenerate.
      pose proof (hf_total_ge_1 NUM_OUTPUTS o). lia. }
    destruct (seqZ 0 (hf_total o)) eqn:E; [|done].
    assert (0 ∈ seqZ 0 (hf_total o)) as Hin by (apply elem_of_seqZ; lia).
    rewrite E in Hin. by apply elem_of_nil in Hin. }
  rewrite Hne. unfold log. cbn [sent self methods logs calls div0].
  by rewrite Hl.
Qed.

(** The operation never divides by zero, whatever its options. *)
Lemma hf_attenuation_no_division_by_zero (o : HfOptions) (w : World) :
  div0 (output_hf_attenuation o w) = div0 w.
Proof.
  destruct (has "_cmdSendLine" w) eqn:Hsend.
  - destruct (decide (hf_span o ≤ 1)) as [Hs|Hs].
    + by rewrite hf_attenuation_refuses.
    + apply hf_attenuation_spec; [done|lia].
  - unfold_output_hf_attenuation. by rewrite Hsend.
Qed.

(** The stored strip of a covered output after the operation. *)
Lemma hf_attenuation_strip (o : HfOptions) (w : World) (i : Z) :
  has "_cmdSendLine" w = true → 1 < hf_span o → 0 ≤ i < hf_total o →
  let m := outputUShaping (self w) in
  let ch := hf_start o + i in
  strip_of (outputUShaping (self (output_hf_attenuation o w))) ch =
    mkStrip (bypass (strip_of m ch))
      (<[5 := set_gain (hf_db o i) (band_of m ch 5)]>
         (<[4 := set_slope band4Slope (set_frequency band4Frequency (band_of m ch 4))]>
            (bands (strip_of m ch)))).
Proof.
  intros Hsend Hs Hi. cbv zeta.
  destruct (hf_attenuation_spec o w Hsend Hs) as (_ & -> & _).
  rewrite (hf_fold_strip (hf_start o) (hf_db o)).
  - apply hf_store_strip.
  - apply NoDup_seqZ.
  - apply elem_of_seqZ. lia.
Qed.

Lemma hf_attenuation_other (o : HfOptions) (w : World) (ch : Z) :
  has "_cmdSendLine" w = true → 1 < hf_span o →
  ¬ (hf_start o ≤ ch < hf_start o + hf_total o) →
  outputUShaping (self (output_hf_attenuation o w)) !! ch = outputUShaping (self w) !! ch.
Proof.
  intros Hsend Hs Hch.
  destruct (hf_attenuation_spec o w Hsend Hs) as (_ & -> & _).
  apply (hf_fold_lookup_other (hf_start o) (hf_db o)).
  intros i Hi%elem_of_seqZ. lia.
Qed.

(** C4: when the half-array span [ceil(total / 2)] is at most 1, which
    is when one or two loudspeakers are covered, the operation logs the
    "invalid span" warning and does nothing else: no line is transmitted,
    the instance is untouched, no helper is called and no division by zero
    has taken place. *)
Theorem hf_refuses_degenerate_span (o : HfOptions) (w : World) :
  has "_cmdSendLine" w = true →
  Js.Math_ceil (inject_Z (hf_total o) / 2) ≤ 1 →
  let w' := output_hf_attenuation o w in
  (hf_total o = 1 ∨ hf_total o = 2) ∧
  logged_since w w' = [mkLog "warn" "HF attenuation: invalid span (must be > 1)"] ∧
  sent w' = sent w ∧ self w' = self w ∧ calls w' = calls w ∧ div0 w' = div0 w.
Proof.
  intros Hsend Hceil.
  assert (Hs : hf_span o ≤ 1) by (unfold_hf_span; lia).
  cbv zeta. rewrite hf_attenuation_refuses by done.
  split; [by apply hf_span_degenerate|].
  split; [by apply logged_since_app|]. done.
Qed.

(** C10: a non-degenerate invocation transmits, for every covered output
    in order, band 4 frequency = 8000, band 4 slope = 1 and the band 5
    gain; in the store it sets exactly these three properties on every
    covered output (the other properties of bands 4 and 5, the other
    bands and the strip's bypass flag are as before), leaves the strips of
    all other outputs alone, and changes no other store. *)
Theorem hf_sets_band4 (o : HfOptions) (w : World) :
  has "_cmdSendLine" w = true →
  1 < hf_span o →
  let w' := output_hf_attenuation o w in
  let m := outputUShaping (self w) in
  let m' := outputUShaping (self w') in
  sent_since w w' =
    flat_map (λ i,
      [mkCmd (ushaping_path Output (hf_start o + i) 4 "frequency") (VNum 8000);
       mkCmd (ushaping_path Output (hf_start o + i) 4 "slope") (VNum 1);
       mkCmd (ushaping_path Output (hf_start o + i) 5 "gain") (VNum (hf_db o i))])
      (seqZ 0 (hf_total o)) ∧
  (∀ ch, hf_start o ≤ ch < hf_start o + hf_total o →
     1 ≤ ch ≤ NUM_OUTPUTS ∧
     band_of m' ch 4 = set_slope 1 (set_frequency 8000 (band_of m ch 4)) ∧
     band_of m' ch 5 = set_gain (hf_db o (ch - hf_start o)) (band_of m ch 5) ∧
     (∀ band, band ≠ 4 → band ≠ 5 →
        bands (strip_of m' ch) !! band = bands (strip_of m ch) !! band) ∧
     bypass (strip_of m' ch) = bypass (strip_of m ch)) ∧
  (∀ ch, ¬ (hf_start o ≤ ch < hf_start o + hf_total o) → m' !! ch = m !! ch) ∧
  self w' = set_outputUShaping m' (self w) ∧
  calls w' = calls w.
Proof.
  intros Hsend Hs. cbv zeta.
  destruct (hf_attenuation_spec o w Hsend Hs) as (Hsent & _ & Hself & _ & _ & Hc & _).
  split; [by apply sent_since_app|].
  split; [|split; [|done]].
  - intros ch Hch.
    pose proof (hf_attenuation_strip o w (ch - hf_start o) Hsend Hs) as Hst.
    cbv zeta in Hst. replace (hf_start o + (ch - hf_start o)) with ch in Hst by lia.
    specialize (Hst ltac:(lia)).
    pose proof (hf_total_fits NUM_OUTPUTS o Hs).
    assert (1 ≤ hf_start o) by (unfold_hf_start; lia).
    split; [lia|].
    unfold band_of at 1 3. rewrite Hst. cbn [bands bypass].
    rewrite lookup_insert_ne, lookup_insert_eq, lookup_insert_eq by done.
    repeat split; try done.
    intros band H4 H5. by rewrite !lookup_insert_ne.
  - intros ch Hch. by apply hf_attenuation_other.
Qed.

End HfCallback.

(** The two theorems at concrete requests on a 16-output device. *)
Lemma hf_refuses_degenerate_span_witness :
  let o := mkHfOptions (Some 1%Q) (Some 2%Q) (Some 8%Q) in
  let w := idle_world ["_cmdSendLine"] 0 in
  sent (output_hf_attenuation 16 o w) = sent w ∧
  self (output_hf_attenuation 16 o w) = self w.
Proof.
  cbv zeta.
  destruct (hf_refuses_degenerate_span 16
              (mkHfOptions (Some 1%Q) (Some 2%Q) (Some 8%Q))
              (idle_world ["_cmdSendLine"] 0)) as (_ & _ & Hs & Hself & _).
  - reflexivity.
  - vm_compute. discriminate.
  - split; [exact Hs | exact Hself].
Defined.

Lemma hf_sets_band4_witness :
  let o := mkHfOptions (Some 3%Q) (Some 8%Q) (Some 8%Q) in
  let w := idle_world ["_cmdSendLine"] 0 in
  let m' := outputUShaping (self (output_hf_attenuation 16 o w)) in
  frequency (band_of m' 5 4) = Some 8000%Q ∧ slope (band_of m' 5 4) = Some 1%Q ∧
  m' !! 11 = None.
Proof.
  cbv zeta.
  destruct (hf_sets_band4 16
              (mkHfOptions (Some 3%Q) (Some 8%Q) (Some 8%Q))
              (idle_world ["_cmdSendLine"] 0)) as (_ & Hin & Hout & _).
  - reflexivity.
  - vm_compute. reflexivity.
  - destruct (Hin 5) as (_ & -> & _).
    + vm_compute. split; [discriminate | reflexivity].
    + split; [reflexivity|]. split; [reflexivity|].
      rewrite (Hout 11); [reflexivity|]. intros [_ H]. vm_compute in H. discriminate H.
Defined.

(** *** The curve over eight loudspeakers *)

Lemma Math_log_ratio_2_4 : (Math_log 2 / Math_log 4 = 1 / 2)%R.
Proof.
  pose proof (Math_log_pos 2 ltac:(lia)). rewrite Math_log_4. field. lra.
Qed.

Lemma Math_log_ratio_3_4 : (11 / 14 <= Math_log 3 / Math_log 4 <= 23 / 29)%R.
Proof.
  pose proof (Math_log_pos 4 ltac:(lia)) as H4.
  pose proof Math_log_3_over_4 as [Hlo Hhi].
  split.
  - apply Rmult_le_reg_r with (Math_log 4); [done|].
    replace (Math_log 3 / Math_log 4 * Math_log 4)%R with (Math_log 3) by (field; lra).
    lra.
  - apply Rmult_le_reg_r with (Math_log 4); [done|].
    replace (Math_log 3 / Math_log 4 * Math_log 4)%R with (Math_log 3) by (field; lra).
    lra.
Qed.

(** The eight unrounded values for a span of 4, by the share [p] of the
    positive and [n] of the negative part. *)
Lemma rawDb_span_4 (p n : Q) :
  let u := (Math_log 3 / Math_log 4)%R in
  fst (rawDb 4 1 p n) = Q2R p ∧
  fst (rawDb 4 2 p n) = (Q2R p / 2)%R ∧
  fst (rawDb 4 3 p n) = (Q2R p * (1 - u))%R ∧
  fst (rawDb 4 4 p n) = 0%R ∧
  fst (rawDb 4 5 p n) = 0%R ∧
  fst (rawDb 4 6 p n) = (- Q2R n * (1 - u))%R ∧
  fst (rawDb 4 7 p n) = (- Q2R n / 2)%R ∧
  fst (rawDb 4 8 p n) = (- Q2R n)%R.
Proof.
  pose proof (Math_log_pos 4 ltac:(lia)) as H4.
  pose proof Math_log_ratio_2_4 as H2.
  unfold rawDb, divide. cbn [Z.leb Z.compare Pos.compare Pos.compare_cont fst].
  change (Z.max 1 (2 * 4 - 5 + 1)) with 4.
  change (Z.max 1 (2 * 4 - 6 + 1)) with 3.
  change (Z.max 1 (2 * 4 - 7 + 1)) with 2.
  change (Z.max 1 (2 * 4 - 8 + 1)) with 1.
  rewrite Math_log_1.
  repeat split.
  - field. lra.
  - rewrite H2. lra.
  - field. lra.
  - field. lra.
  - field. lra.
  - replace ((Math_log 4 - Math_log 2) / Math_log 4)%R
      with (1 - Math_log 2 / Math_log 4)%R by (field; lra).
    rewrite H2. lra.
  - field. lra.
Qed.

Section Curve.

Variable NUM_OUTPUTS : Z.

Local Abbreviation hf_start := (hf_start NUM_OUTPUTS).
Local Abbreviation hf_total := (hf_total NUM_OUTPUTS).
Local Abbreviation hf_span := (hf_span NUM_OUTPUTS).
Local Abbreviation hf_db := (hf_db NUM_OUTPUTS).
Local Abbreviation hf_assignments := (hf_assignments NUM_OUTPUTS).
Local Abbreviation output_hf_attenuation := (output_hf_attenuation NUM_OUTPUTS).

Lemma hf_total_8 (o : HfOptions) :
  total o = Some 8%Q → hf_start o + 7 ≤ NUM_OUTPUTS → hf_total o = 8 ∧ hf_span o = 4.
Proof.
  intros Ht Hroom.
  assert (E : hf_total o = 8).
  { unfold_hf_total. rewrite Ht. change (Js.Math_round 8) with 8. lia. }
  split; [done|]. by rewrite hf_span_eq, E.
Qed.

(** The rounded curve for 8 loudspeakers and a span of 8 dB. *)
Lemma hf_db_8_8 (o : HfOptions) :
  total o = Some 8%Q → ratio o = Some 8%Q → hf_start o + 7 ≤ NUM_OUTPUTS →
  map (hf_db o) (seqZ 0 8) =
    [27 # 10; 13 # 10; 6 # 10; 0 # 10; 0 # 10; -11 # 10; -27 # 10; -53 # 10].
Proof.
  intros Ht Hr Hroom. destruct (hf_total_8 o Ht Hroom) as [_ Hspan].
  pose proof Math_log_ratio_3_4 as Hu.
  destruct (rawDb_span_4 (hf_totalSwing o / 3) (hf_totalSwing o * 2 / 3))
    as (E1 & E2 & E3 & E4 & E5 & E6 & E7 & E8).
  assert (Hp : Q2R (hf_totalSwing o / 3) = (8 / 3)%R).
  { unfold hf_totalSwing. rewrite Hr. vm_compute Qdiv. unfold Q2R. simpl. lra. }
  assert (Hn : Q2R (hf_totalSwing o * 2 / 3) = (16 / 3)%R).
  { unfold hf_totalSwing. rewrite Hr. vm_compute Qdiv. unfold Q2R. simpl. lra. }
  rewrite Hp in *. rewrite Hn in *.
  change (seqZ 0 8) with [0; 1; 2; 3; 4; 5; 6; 7].
  unfold_hf_db. rewrite Hspan. cbn [map Z.add Pos.add Pos.succ].
  change (0 + 1) with 1. change (1 + 1) with 2. change (2 + 1) with 3.
  change (3 + 1) with 4. change (4 + 1) with 5. change (5 + 1) with 6.
  change (6 + 1) with 7. change (7 + 1) with 8.
  rewrite E1, E2, E3, E4, E5, E6, E7, E8.
  repeat (f_equal; [apply roundTenth_eq; lra|]).
  f_equal. apply roundTenth_eq. lra.
Qed.

End Curve.

Lemma hf_db_8_8_nth (NUM_OUTPUTS : Z) (o : HfOptions) (i : nat) :
  total o = Some 8%Q → ratio o = Some 8%Q → hf_start NUM_OUTPUTS o + 7 ≤ NUM_OUTPUTS →
  (i < 8)%nat →
  hf_db NUM_OUTPUTS o (Z.of_nat i) =
    nth i [27 # 10; 13 # 10; 6 # 10; 0 # 10; 0 # 10; -11 # 10; -27 # 10; -53 # 10] 0%Q.
Proof.
  intros Ht Hr Hroom Hi. rewrite <- (hf_db_8_8 NUM_OUTPUTS o Ht Hr Hroom).
  change (seqZ 0 8) with [0; 1; 2; 3; 4; 5; 6; 7].
  do 8 (destruct i as [|i]; [done|]). lia.
Qed.

(** C1: for 8 consecutive outputs and a span of 8 dB, from a start output
    that leaves room for all eight, the computed gains are 2.7, 1.3, 0.6,
    0, 0, -1.1, -2.7, -5.3 dB: the first is +8/3 rounded to one decimal,
    the last is -16/3 rounded, and each value is at most the one before
    it.  These are the values the operation stores as band 5 gain of the
    eight outputs. *)
Theorem hf_curve_8_speakers_8_dB (NUM_OUTPUTS : Z) (o : HfOptions) (w : World) :
  total o = Some 8%Q →
  ratio o = Some 8%Q →
  hf_start NUM_OUTPUTS o + 7 ≤ NUM_OUTPUTS →
  let s := hf_start NUM_OUTPUTS o in
  let gains := [27 # 10; 13 # 10; 6 # 10; 0 # 10; 0 # 10; -11 # 10; -27 # 10; -53 # 10] in
  hf_assignments NUM_OUTPUTS o w =
    [(s + 0, 27 # 10); (s + 1, 13 # 10); (s + 2, 6 # 10); (s + 3, 0 # 10);
     (s + 4, 0 # 10); (s + 5, -11 # 10); (s + 6, -27 # 10); (s + 7, -53 # 10)] ∧
  roundTenth (8 / 3) = 27 # 10 ∧
  roundTenth (- (16 / 3)) = -53 # 10 ∧
  (∀ i : nat, (i < 7)%nat → (nth (S i) gains 0 <= nth i gains 0)%Q) ∧
  (has "_cmdSendLine" w = true →
   ∀ i : nat, (i < 8)%nat →
     gain (band_of (outputUShaping (self (output_hf_attenuation NUM_OUTPUTS o w)))
             (s + Z.of_nat i) 5) = Some (nth i gains 0%Q)).
Proof.
  intros Ht Hr Hroom s gains.
  destruct (hf_total_8 NUM_OUTPUTS o Ht Hroom) as [Htotal Hspan].
  pose proof (λ i, hf_db_8_8_nth NUM_OUTPUTS o i Ht Hr Hroom) as Hdb.
  assert (Hs : 1 < hf_span NUM_OUTPUTS o) by lia.
  split; [|split; [|split; [|split]]].
  - rewrite hf_assignments_spec by done. rewrite Htotal.
    change (seqZ 0 8) with [0; 1; 2; 3; 4; 5; 6; 7]. cbn [map].
    pose proof (Hdb 0%nat ltac:(lia) : hf_db NUM_OUTPUTS o 0 = _) as H0.
    pose proof (Hdb 1%nat ltac:(lia) : hf_db NUM_OUTPUTS o 1 = _) as H1.
    pose proof (Hdb 2%nat ltac:(lia) : hf_db NUM_OUTPUTS o 2 = _) as H2.
    pose proof (Hdb 3%nat ltac:(lia) : hf_db NUM_OUTPUTS o 3 = _) as H3.
    pose proof (Hdb 4%nat ltac:(lia) : hf_db NUM_OUTPUTS o 4 = _) as H4.
    pose proof (Hdb 5%nat ltac:(lia) : hf_db NUM_OUTPUTS o 5 = _) as H5.
    pose proof (Hdb 6%nat ltac:(lia) : hf_db NUM_OUTPUTS o 6 = _) as H6.
    pose proof (Hdb 7%nat ltac:(lia) : hf_db NUM_OUTPUTS o 7 = _) as H7.
    cbn [nth] in H0, H1, H2, H3, H4, H5, H6, H7.
    by rewrite H0, H1, H2, H3, H4, H5, H6, H7.
  - apply roundTenth_eq. lra.
  - apply roundTenth_eq. lra.
  - intros i Hi. do 7 (destruct i as [|i]; [by vm_compute|]). lia.
  - intros Hsend i Hi. subst s. unfold band_of.
    rewrite (hf_attenuation_strip NUM_OUTPUTS o w (Z.of_nat i) Hsend Hs) by lia.
    cbn [bands]. rewrite lookup_insert_eq. cbn [default Datatypes.id gain set_gain].
    f_equal. by apply Hdb.
Qed.

(** The theorem on a 16-output device, starting at output 1. *)
Lemma hf_curve_8_speakers_8_dB_witness :
  let o := mkHfOptions (Some 1%Q) (Some 8%Q) (Some 8%Q) in
  map snd (hf_assignments 16 o (idle_world ["_cmdSendLine"] 0)) =
    [27 # 10; 13 # 10; 6 # 10; 0 # 10; 0 # 10; -11 # 10; -27 # 10; -53 # 10].
Proof.
  cbv zeta.
  destruct (hf_curve_8_speakers_8_dB 16 (mkHfOptions (Some 1%Q) (Some 8%Q) (Some 8%Q))
              (idle_world ["_cmdSendLine"] 0)) as (-> & _).
  - reflexivity.
  - reflexivity.
  - vm_compute. discriminate.
  - reflexivity.
Defined.

(** ** Band stores *)

Lemma ushaping_of_set (d : Domain) (m : gmap Z Strip) (s : Self) :
  ushaping_of d (set_ushaping_of d m s) = m.
Proof. by destruct d. Qed.

Lemma band_of_update_band (ch band : Z) (f : Band → Band) (m : gmap Z Strip) :
  band_of (update_band ch band f m) ch band = f (band_of m ch band).
Proof.
  unfold band_of at 1. rewrite strip_of_update_band. cbn [bands].
  by rewrite lookup_insert_eq.
Qed.

(** * Further properties of the embedded code *)

(** ** Unit Converter: range, monotonicity and round trip *)

Lemma Math_round_le (x y : Q) : (x <= y)%Q → Js.Math_round x ≤ Js.Math_round y.
Proof.
  intros H. unfold Js.Math_round. apply Qfloor_resp_le.
  by apply Qplus_le_compat; [|apply Qle_refl].
Qed.

Lemma Math_round_inject_Z (z : Z) : Js.Math_round (inject_Z z) = z.
Proof.
  unfold Js.Math_round, Qfloor, inject_Z, Qplus. cbn [Qnum Qden].
  rewrite Z.mul_1_l. change (Z.pos (1 * 2)) with 2.
  Z.div_mod_to_equations. lia.
Qed.

Lemma clamp_range (v lo hi : Q) : (lo <= hi)%Q → (lo <= clamp v lo hi <= hi)%Q.
Proof.
  intros H. unfold clamp, Js.Math_max, Js.Math_min. split.
  - apply Q.le_max_l.
  - apply Q.max_lub; [done|apply Q.le_min_l].
Qed.

Lemma clamp_le (v v' lo hi : Q) : (v <= v')%Q → (clamp v lo hi <= clamp v' lo hi)%Q.
Proof.
  intros H. unfold clamp, Js.Math_max, Js.Math_min.
  apply Q.max_le_compat_l. by apply Q.min_le_compat_l.
Qed.

Lemma clamp_id (v lo hi : Q) : (lo <= v <= hi)%Q → (clamp v lo hi == v)%Q.
Proof.
  intros [H1 H2]. unfold clamp, Js.Math_max, Js.Math_min.
  rewrite (Q.min_r hi v) by done. by apply Q.max_r.
Qed.

Lemma roundTo01_le (x y : Q) : (x <= y)%Q → (roundTo01 x <= roundTo01 y)%Q.
Proof.
  intros H. unfold roundTo01. apply Qmult_le_compat_r; [|done].
  rewrite <- Zle_Qle. apply Math_round_le.
  unfold Qdiv. by apply Qmult_le_compat_r.
Qed.

(** The sample count the delay callbacks compute from a millisecond value. *)
Lemma samples_le (x y : Q) :
  (x <= y)%Q →
  Js.Math_round (roundTo01 x * 96) ≤ Js.Math_round (roundTo01 y * 96).
Proof.
  intros H. apply Math_round_le. apply Qmult_le_compat_r; [|done].
  by apply roundTo01_le.
Qed.

Lemma samples_range (v hi : Q) (n : Z) :
  (0 <= hi)%Q →
  Js.Math_round (roundTo01 hi * 96) = n →
  0 ≤ Js.Math_round (roundTo01 (clamp v 0 hi) * 96) ≤ n.
Proof.
  intros Hhi <-. destruct (clamp_range v 0 hi Hhi) as [H0 H1]. split.
  - change 0 with (Js.Math_round (roundTo01 0 * 96)). by apply samples_le.
  - by apply samples_le.
Qed.

Lemma valueToMs_le (typeKey : string) (a b : Q) :
  (a <= b)%Q → (valueToMs (Some a) typeKey <= valueToMs (Some b) typeKey)%Q.
Proof.
  intros H. unfold valueToMs, Qdiv.
  repeat (case_match; [repeat (apply Qmult_le_compat_r; [|done]); done|]). done.
Qed.

Lemma delay_set_unchanged_sent (d : Domain) (NUM : Z) (hi : Q) (o : DelayOptions) (w : World) :
  or_unchanged (delay_type o) = "unchanged" → sent (delay_set d NUM hi o w) = sent w.
Proof.
  intros E. unfold delay_set. destruct (is_empty _); [done|].
  by rewrite delay_loop_unchanged.
Qed.

(** What the matrix delay action may transmit. *)
Lemma matrix_body_lines (typeId : string) (valueRaw : Js.number) (statusMode : string)
    (i j : Z) (w : World) :
  ∃ cs, sent (matrix_delay_body typeId valueRaw statusMode i j w) = sent w ++ cs ∧
    ∀ i' j' v, mkCmd (matrix_path i' j' "delay") v ∈ cs →
      ∃ n, v = VInt n ∧ 0 ≤ n ≤ 48000.
Proof.
  unfold matrix_delay_body.
  set (n := Js.Math_round (roundTo01 (clamp (valueToMs valueRaw typeId) 0 500) * 96)).
  assert (Hn : 0 ≤ n ≤ 48000) by (by apply samples_range).
  destruct (negb (String.eqb typeId "unchanged")), (negb (String.eqb statusMode "unchanged"));
    unfold optionally; repeat (destruct (has _ _)); cbn [sent _cmdSendLine with_self];
    rewrite <- ?app_assoc; eexists; (split; [try done; by rewrite app_nil_r|]);
    intros i' j' v Hin; cbn [app] in Hin;
    repeat (apply elem_of_cons in Hin as [Hin|Hin]; [inversion Hin; subst; try by eauto|]);
    by apply elem_of_nil in Hin.
Qed.

Lemma matrix_loop_lines (typeId : string) (valueRaw : Js.number) (statusMode : string)
    (ins outs : list Z) (w : World) :
  ∃ cs, sent (foldl (λ w i, foldl (λ w o,
          matrix_delay_body typeId valueRaw statusMode i o w) w outs) w ins) = sent w ++ cs ∧
    ∀ i' j' v, mkCmd (matrix_path i' j' "delay") v ∈ cs →
      ∃ n, v = VInt n ∧ 0 ≤ n ≤ 48000.
Proof.
  revert w. induction ins as [|i ins IH]; intros w.
  { exists []. split; [by rewrite app_nil_r|]. intros ??? H. by apply elem_of_nil in H. }
  cbn [foldl].
  assert (Hin : ∀ w, ∃ cs,
    sent (foldl (λ w o, matrix_delay_body typeId valueRaw statusMode i o w) w outs)
      = sent w ++ cs ∧
    ∀ i' j' v, mkCmd (matrix_path i' j' "delay") v ∈ cs → ∃ n, v = VInt n ∧ 0 ≤ n ≤ 48000).
  { clear IH. induction outs as [|o outs IHo]; intros w0.
    { exists []. split; [by rewrite app_nil_r|]. intros ??? H. by apply elem_of_nil in H. }
    cbn [foldl].
    destruct (matrix_body_lines typeId valueRaw statusMode i o w0) as (c1 & E1 & H1).
    destruct (IHo (matrix_delay_body typeId valueRaw statusMode i o w0)) as (c2 & E2 & H2).
    exists (c1 ++ c2). split; [by rewrite E2, E1, app_assoc|].
    intros i' j' v [H|H]%elem_of_app; eauto. }
  destruct (Hin w) as (c1 & E1 & H1).
  destruct (IH (foldl (λ w o, matrix_delay_body typeId valueRaw statusMode i o w) w outs))
    as (c2 & E2 & H2).
  exists (c1 ++ c2). split; [by rewrite E2, E1, app_assoc|].
  intros i' j' v [H|H]%elem_of_app; eauto.
Qed.

(** X1: whatever the unit and the value (negative, huge or not a number),
    every line the input delay action transmits addresses a selected
    channel between 1 and [NUM_INPUTS] and carries a sample count between 0
    and 48000 (500 ms); for the output delay action the bounds are
    [NUM_OUTPUTS] and 192000 (2000 ms); every [delay] line of the matrix
    delay action carries a count between 0 and 48000. *)
Theorem delay_commands_in_range (NUM_INPUTS NUM_OUTPUTS : Z) (w : World) :
  (∀ o c, c ∈ sent_since w (input_delay_set NUM_INPUTS o w) →
     ∃ ch n, c = mkCmd (delay_path Input ch) (VInt n) ∧
             1 ≤ ch ≤ NUM_INPUTS ∧ 0 ≤ n ≤ 48000) ∧
  (∀ o c, c ∈ sent_since w (output_delay_set NUM_OUTPUTS o w) →
     ∃ ch n, c = mkCmd (delay_path Output ch) (VInt n) ∧
             1 ≤ ch ≤ NUM_OUTPUTS ∧ 0 ≤ n ≤ 192000) ∧
  (∀ o i j v, mkCmd (matrix_path i j "delay") v
                ∈ sent_since w (matrix_delay_full NUM_OUTPUTS o w) →
     ∃ n, v = VInt n ∧ 0 ≤ n ≤ 48000).
Proof.
  assert (Hd : ∀ d NUM hi top o c,
    (0 <= hi)%Q → Js.Math_round (roundTo01 hi * 96) = top →
    c ∈ sent_since w (delay_set d NUM hi o w) →
    ∃ ch n, c = mkCmd (delay_path d ch) (VInt n) ∧ 1 ≤ ch ≤ NUM ∧ 0 ≤ n ≤ top).
  { intros d NUM hi top o c Hhi Htop Hc.
    destruct (String.eqb (or_unchanged (delay_type o)) "unchanged") eqn:E.
    - apply String.eqb_eq in E.
      unfold sent_since in Hc.
      rewrite (delay_set_unchanged_sent d NUM hi o w E), drop_all in Hc.
      by apply elem_of_nil in Hc.
    - rewrite delay_set_sent in Hc by done.
      destruct (_ || _); [|by apply elem_of_nil in Hc].
      apply list_elem_of_fmap in Hc as (ch & -> & Hch).
      eexists ch, _. split; [done|].
      split; [by apply safeGetChannels_range in Hch|]. by apply samples_range. }
  split; [|split].
  - intros o c. by apply Hd.
  - intros o c. by apply Hd.
  - intros o i j v Hc. unfold matrix_delay_full in Hc.
    destruct (_ || _).
    + unfold sent_since, log in Hc. cbn [sent] in Hc. rewrite drop_all in Hc.
      by apply elem_of_nil in Hc.
    + destruct (matrix_loop_lines (or_unchanged (matrix_type o)) (matrix_value o)
                  (or_unchanged (delay_status o)) (safeGetChannels (matrix_inputs o) 32)
                  (safeGetChannels (matrix_outputs o) NUM_OUTPUTS) w) as (cs & E & H).
      rewrite (sent_since_app _ _ _ E) in Hc. eauto.
Qed.


(** X2: for every unit, the conversion to milliseconds and the whole
    pipeline down to the transmitted sample count are monotone in the
    entered value: a larger value never yields a smaller delay. *)
Theorem delay_conversion_monotone (typeKey : string) (hi a b : Q) :
  (a <= b)%Q →
  (valueToMs (Some a) typeKey <= valueToMs (Some b) typeKey)%Q ∧
  Js.Math_round (roundTo01 (clamp (valueToMs (Some a) typeKey) 0 hi) * 96)
    ≤ Js.Math_round (roundTo01 (clamp (valueToMs (Some b) typeKey) 0 hi) * 96).
Proof.
  intros H. split; [by apply valueToMs_le|].
  apply samples_le, clamp_le. by apply valueToMs_le.
Qed.

(** The theorem at 10 m and 20 m, output delay. *)
Lemma delay_conversion_monotone_witness :
  Js.Math_round (roundTo01 (clamp (valueToMs (Some 10%Q) "2") 0 2000) * 96)
    ≤ Js.Math_round (roundTo01 (clamp (valueToMs (Some 20%Q) "2") 0 2000) * 96).
Proof.
  apply (delay_conversion_monotone "2" 2000 10 20). by vm_compute.
Defined.

Lemma Math_round_frac (a : Z) (b : positive) :
  Js.Math_round (a # b) = (2 * a + Z.pos b) / (2 * Z.pos b).
Proof.
  unfold Js.Math_round, Qfloor, Qplus. cbn [Qnum Qden].
  rewrite Z.mul_1_l. rewrite (Z.mul_comm a 2). rewrite Pos2Z.inj_mul.
  by rewrite (Z.mul_comm (Z.pos b) 2).
Qed.

(** The sample count of a delay entered in samples (unit 6), before the
    clamp: dividing by 96, rounding to 0.01 ms and multiplying by 96 again
    gives the entered count back. *)
Lemma samples_round_trip (n : Z) :
  Js.Math_round (roundTo01 (inject_Z n / 96) * 96) = n.
Proof.
  unfold roundTo01.
  assert (E1 : (inject_Z n / 96 / (1 # 100) == (25 * n) # 24)%Q).
  { unfold Qeq, Qdiv, Qmult, Qinv, inject_Z. cbn. lia. }
  assert (R1 : Js.Math_round (inject_Z n / 96 / (1 # 100)) = (25 * n + 12) / 24).
  { unfold Js.Math_round. rewrite E1. fold (Js.Math_round ((25 * n) # 24)).
    rewrite Math_round_frac. Z.div_mod_to_equations. lia. }
  rewrite R1. set (k := (25 * n + 12) / 24).
  assert (E2 : (inject_Z k * (1 # 100) * 96 == (24 * k) # 25)%Q).
  { unfold Qeq, Qmult, inject_Z. cbn. lia. }
  unfold Js.Math_round. rewrite E2. fold (Js.Math_round ((24 * k) # 25)).
  rewrite Math_round_frac. subst k. Z.div_mod_to_equations. lia.
Qed.

(** X3: a delay entered in samples (unit 6) is transmitted unchanged: for
    a whole number of samples between 0 and 48000 the input delay action
    sends exactly that count to every selected channel (between 0 and
    192000 for the output delay action). *)
Theorem delay_in_samples_round_trip (d : Domain) (NUM n : Z) (hi : Q) (sel : list Token)
    (w : World) :
  (0 <= inject_Z n <= hi * 96)%Q →
  sent_since w (delay_set d NUM hi (mkDelayOptions sel "6" (Some (inject_Z n))) w) =
    if has ("_set" +:+ Cap d +:+ "DelayMs") w || has "_cmdSendLine" w
    then map (λ ch, mkCmd (delay_path d ch) (VInt n)) (safeGetChannels sel NUM)
    else [].
Proof.
  intros [H0 H1]. rewrite delay_set_sent by done.
  cbn [delay_value delay_type]. change (or_unchanged "6") with "6".
  change (valueToMs (Some (inject_Z n)) "6") with (inject_Z n / 96)%Q.
  assert (E : (clamp (inject_Z n / 96) 0 hi == inject_Z n / 96)%Q).
  { apply clamp_id. split.
    - apply Qle_shift_div_l; [done|]. by rewrite Qmult_0_l.
    - apply Qle_shift_div_r; [done|]. done. }
  assert (R : Js.Math_round (roundTo01 (clamp (inject_Z n / 96) 0 hi) * 96) = n).
  { rewrite <- (samples_round_trip n) at 2. unfold roundTo01, Js.Math_round.
    by rewrite E. }
  by rewrite R.
Qed.

(** The theorem for 1234 samples on two outputs. *)
Lemma delay_in_samples_round_trip_witness :
  sent (output_delay_set 16 (mkDelayOptions [Some 1; Some 2] "6" (Some 1234%Q))
          (idle_world ["_cmdSendLine"] 0)) =
    [mkCmd (delay_path Output 1) (VInt 1234); mkCmd (delay_path Output 2) (VInt 1234)].
Proof.
  pose proof (delay_in_samples_round_trip Output 16 1234 2000 [Some 1; Some 2]
                (idle_world ["_cmdSendLine"] 0)) as H.
  unfold sent_since in H. cbn [idle_world sent length drop] in H.
  apply H. split; by vm_compute.
Defined.


(** ** Rotary knobs: stored values stay in range *)

Lemma band_of_update_band_ne (ch ch' band band' : Z) (f : Band → Band) (m : gmap Z Strip) :
  ch' ≠ ch → band_of (update_band ch band f m) ch' band' = band_of m ch' band'.
Proof.
  intros Hne. unfold band_of, strip_of. by rewrite update_band_lookup_ne.
Qed.

(** The loop of a knob that writes one band property: every turn stores
    the computed value in the band of its channel and sends one line. *)
Section KnobLoop.

(** the band store the knob writes ([self.outputUShaping], [self.inputEQ], ...) *)
Variables (store : Self → gmap Z Strip) (band : Z).
(** the property written, read back, and the value computed for a channel *)
Variables (put : Q → Band → Band) (get : Band → option Q) (next : World → Z → Q).
Variable body : World → Z → World.
Variable line : Z → Q → Cmd.

Hypothesis get_put : ∀ v b, get (put v b) = Some v.
Hypothesis body_store : ∀ w ch,
  store (self (body w ch)) =
    update_band ch band (put (next w ch)) (store (self w)).
Hypothesis body_sent : ∀ w ch,
  sent (body w ch) = sent w ++ [line ch (next w ch)].

Variable ok : Q → Prop.
Hypothesis next_ok : ∀ w ch, ok (next w ch).


End KnobLoop.





(** The trailing steps of a knob loop body (send, optional helper call,
    log), reduced to their effect on the fields of the world. *)
Ltac knob_body_steps :=
  unfold call_if_defined, log, call, _cmdSendLine, with_self, has;
  cbn [self methods sent logs calls];
  try destruct (bool_decide _);
  cbn [self methods sent logs calls ushaping_of eq_of outputUShaping inputUShaping
       outputEQ inputEQ set_outputUShaping set_inputUShaping set_outputEQ set_inputEQ
       set_ushaping_of set_eq_of set__rotaryAccel].

Lemma accelerate_frame (prefix : string) (e : RotaryEvent) (w : World) :
  let w' := snd (accelerate prefix e w) in
  outputUShaping (self w') = outputUShaping (self w) ∧
  inputUShaping (self w') = inputUShaping (self w) ∧
  sent w' = sent w ∧ methods w' = methods w ∧ logs w' = logs w ∧ calls w' = calls w.
Proof. done. Qed.





(** *** The slope knob *)






(** A knob loop over distinct channels whose new value depends on the old
    band only: every selected band is rewritten once, from its old content. *)
Section KnobLoopExact.

Context {V : Type}.
Variables (store : Self → gmap Z Strip) (band : Z).
Variables (put : V → Band → Band) (next : Band → V).
Variable body : World → Z → World.

Hypothesis body_store : ∀ w ch,
  store (self (body w ch)) =
    update_band ch band (put (next (band_of (store (self w)) ch band)))
      (store (self w)).

Lemma knob_loop_exact (chs : list Z) (w : World) :
  NoDup chs →
  ∀ ch, band_of (store (self (foldl body w chs))) ch band =
    if bool_decide (ch ∈ chs)
    then put (next (band_of (store (self w)) ch band))
           (band_of (store (self w)) ch band)
    else band_of (store (self w)) ch band.
Proof.
  revert w. induction chs as [|c chs IH]; intros w Hnd ch; [done|].
  apply NoDup_cons in Hnd as [Hc Hnd]. cbn [foldl]. rewrite IH by done.
  rewrite !body_store. destruct (decide (ch = c)) as [->|Hne].
  - rewrite bool_decide_eq_false_2 by done.
    rewrite bool_decide_eq_true_2 by left. apply band_of_update_band.
  - rewrite !band_of_update_band_ne by done.
    destruct (decide (ch ∈ chs)) as [Hin|Hin].
    + rewrite !bool_decide_eq_true_2; [done|by right|done].
    + rewrite !bool_decide_eq_false_2; [done| |done].
      intros [?|?]%elem_of_cons; done.
Qed.

End KnobLoopExact.

(** The slope one press of the knob (no acceleration) leads to. *)
Lemma slope_press_up_down (v : Q) :
  v ∈ slopeValues →
  let up := nth (Z.to_nat (Z.rem (Z.of_nat (closestIndex slopeValues v) + 1) 8)) slopeValues 0%Q in
  nth (Z.to_nat (Z.rem (Z.of_nat (closestIndex slopeValues up) - 1 + 8) 8)) slopeValues 0%Q = v.
Proof.
  intros Hv. cbv zeta. unfold slopeValues in Hv.
  repeat (apply elem_of_cons in Hv as [->|Hv]; [by vm_compute|]).
  by apply elem_of_nil in Hv.
Qed.

(** X7: pressed as a button (no surface, hence no acceleration), the
    slope knob steps through the table one entry at a time, and "up"
    followed by "down" is a round trip: every selected channel whose stored
    slope is one of the eight table values has that slope again, including
    across the wrap from 48 back to 6. *)
Theorem ushaping_knob_slope_up_down (e : RotaryEvent) (w : World) (ch : Z) (v : Q) :
  has "_cmdSendLine" w = true →
  surfaceId e = None →
  let k := _ushapingKnobControlOutput (self w) in
  NoDup (knob_channels k) →
  ch ∈ knob_channels k →
  slope (band_of (outputUShaping (self w)) ch (knob_band k)) = Some v →
  v ∈ slopeValues →
  let w1 := output_ushaping_knob_slope e "up" w in
  let w2 := output_ushaping_knob_slope e "down" w1 in
  slope (band_of (outputUShaping (self w2)) ch (knob_band k)) = Some v.
Proof.
  intros Hsend He k Hnd Hch Hv Htab w1 w2.
  assert (Hstep : ∀ dir w0,
    dir ≠ "" →
    has "_cmdSendLine" w0 = true →
    _ushapingKnobControlOutput (self w0) = k →
    let w' := output_ushaping_knob_slope e dir w0 in
    has "_cmdSendLine" w' = true ∧ _ushapingKnobControlOutput (self w') = k ∧
    ∀ c, c ∈ knob_channels k →
      slope (band_of (outputUShaping (self w')) c (knob_band k)) =
        Some (let cur := default 12%Q (slope (band_of (outputUShaping (self w0)) c (knob_band k))) in
              let i := Z.of_nat (closestIndex slopeValues cur) in
              nth (Z.to_nat (if String.eqb dir "up" then Z.rem (i + 1) 8
                             else Z.rem (i - 1 + 8) 8)) slopeValues 0%Q)).
  { intros dir w0 Hdir Hs0 Hk w'. subst w'. unfold output_ushaping_knob_slope.
    rewrite Hs0, He, Hk. cbn [negb]. cbv zeta.
    assert (Ed : (if String.eqb dir "" then "up" else dir) = dir).
    { destruct (String.eqb_spec dir ""); done. }
    rewrite Ed.
    set (next := λ b : Band,
      let currentValue := default 12%Q (slope b) in
      let currentIndex := Z.of_nat (closestIndex slopeValues currentValue) in
      let len := Z.of_nat (length slopeValues) in
      let newIndex :=
        if String.eqb dir "up" then Z.rem (currentIndex + 1) len
        else Z.rem (currentIndex - 1 + len) len in
      nth (Z.to_nat newIndex) slopeValues 0%Q).
    assert (Hbody : ∀ w ch,
      ushaping_of Output (self (knob_slope_body dir 1 (knob_band k) w ch)) =
        update_band ch (knob_band k)
          (set_slope (next (band_of (ushaping_of Output (self w)) ch (knob_band k))))
          (ushaping_of Output (self w))).
    { intros w3 c. unfold knob_slope_body, next. by knob_body_steps. }
    assert (Hframe : ∀ l w3,
      methods (foldl (knob_slope_body dir 1 (knob_band k)) w3 l) = methods w3 ∧
      _ushapingKnobControlOutput (self (foldl (knob_slope_body dir 1 (knob_band k)) w3 l))
        = _ushapingKnobControlOutput (self w3)).
    { induction l as [|c l IH]; intros w3; [done|]. cbn [foldl].
      destruct (IH (knob_slope_body dir 1 (knob_band k) w3 c)) as [-> ->].
      unfold knob_slope_body. by knob_body_steps. }
    destruct (Hframe (knob_channels k) w0) as [Hm Hk'].
    split; [unfold has in *; by rewrite Hm|]. split; [by rewrite Hk'|].
    intros c Hc.
    pose proof (knob_loop_exact (ushaping_of Output) (knob_band k) set_slope next
                  (knob_slope_body dir 1 (knob_band k)) Hbody (knob_channels k) w0 Hnd c) as Hx.
    cbn [ushaping_of] in Hx. rewrite Hx, bool_decide_eq_true_2 by done. done. }
  destruct (Hstep "up" w ltac:(done) Hsend eq_refl) as (Hs1 & Hk1 & Hu).
  destruct (Hstep "down" w1 ltac:(done) Hs1 Hk1) as (_ & _ & Hd).
  fold w2 in Hd. rewrite (Hd ch Hch). fold w1 in Hu. rewrite (Hu ch Hch), Hv.
  f_equal. cbn [default]. by apply slope_press_up_down.
Qed.

(** The theorem at the top of the table: 48 dB/oct on output 3, up goes
    to 6, down comes back to 48. *)
Lemma ushaping_knob_slope_up_down_witness :
  let e := mkRotaryEvent None None None None None in
  let w := with_self (λ s,
             set__ushapingKnobControlOutput (Some (mkKnob (Some [3]) (Some 2)))
               (set_outputUShaping (update_band 3 2 (set_slope 48) ∅) s))
             (idle_world ["_cmdSendLine"] 0) in
  slope (band_of (outputUShaping (self
    (output_ushaping_knob_slope e "down" (output_ushaping_knob_slope e "up" w)))) 3 2)
    = Some 48%Q.
Proof.
  cbv zeta.
  apply (ushaping_knob_slope_up_down (mkRotaryEvent None None None None None)
           (with_self (λ s,
             set__ushapingKnobControlOutput (Some (mkKnob (Some [3]) (Some 2)))
               (set_outputUShaping (update_band 3 2 (set_slope 48) ∅) s))
             (idle_world ["_cmdSendLine"] 0)) 3 48).
  - reflexivity.
  - reflexivity.
  - vm_compute. apply NoDup_singleton.
  - vm_compute. left.
  - reflexivity.
  - vm_compute. do 7 right. left.
Defined.


(** ** Acceleration tiers *)

Lemma knob_slope_rotation (e : RotaryEvent) (s direction : string) (w : World) :
  surfaceId e = Some s →
  has "_cmdSendLine" w = true →
  let key := accelKey "ushaping_slope_" e in
  let last := default (mkRotation 0 0) (_rotaryAccel (self w) !! key) in
  let w' := output_ushaping_knob_slope e direction w in
  _rotaryAccel (self w') !! key =
    Some (mkRotation (now w)
            (if now w - time last <? 100 then Z.min (count last + 1) 3 else 0)) ∧
  now w' = now w ∧ methods w' = methods w.
Proof.
  intros He Hsend key last w'. subst w'. unfold output_ushaping_knob_slope.
  rewrite Hsend, He. cbn [negb]. cbv zeta.
  destruct (accelerate "ushaping_slope_" e w) as [t w1] eqn:E.
  assert (Hloop : ∀ dir st band l w0,
    _rotaryAccel (self (foldl (knob_slope_body dir st band) w0 l)) = _rotaryAccel (self w0) ∧
    now (foldl (knob_slope_body dir st band) w0 l) = now w0 ∧
    methods (foldl (knob_slope_body dir st band) w0 l) = methods w0).
  { intros dir st band l. induction l as [|c l IH]; intros w0; [done|]. cbn [foldl].
    destruct (IH (knob_slope_body dir st band w0 c)) as (-> & -> & ->).
    unfold knob_slope_body. by knob_body_steps. }
  match goal with |- context [foldl (knob_slope_body ?dir ?st ?band) w1 ?l] =>
    destruct (Hloop dir st band l w1) as (-> & -> & ->) end.
  unfold accelerate in E. inversion E; subst. cbn [self with_self _rotaryAccel set__rotaryAccel now methods].
  by rewrite lookup_insert_eq.
Qed.

(** X8: the acceleration tier of the slope knob is a saturating counter.
    Starting right after a turn that left the tier at [t0], every further
    turn that follows its predecessor by less than 100 ms raises the tier
    by one until it reaches 3, where it stays; the first turn that comes
    100 ms or more after its predecessor puts the tier back to 0. *)
Theorem knob_slope_tier_saturates (e : RotaryEvent) (s direction : string) (t0 : Z)
    (gaps : list Z) (w : World) :
  surfaceId e = Some s →
  has "_cmdSendLine" w = true →
  let key := accelKey "ushaping_slope_" e in
  _rotaryAccel (self w) !! key = Some (mkRotation (now w) t0) →
  0 ≤ t0 ≤ 3 →
  Forall (λ dt, dt < 100) gaps →
  let w' := knob_slope_turns e direction gaps w in
  tier key w' = Some (Z.min (t0 + Z.of_nat (length gaps)) 3) ∧
  ∀ dt, 100 ≤ dt →
    tier key (output_ushaping_knob_slope e direction (advance dt w')) = Some 0.
Proof.
  intros He Hsend key Hlast Ht0 Hgaps w'. subst w'.
  assert (Hrun : ∀ gaps w t,
    has "_cmdSendLine" w = true →
    _rotaryAccel (self w) !! key = Some (mkRotation (now w) t) → 0 ≤ t ≤ 3 →
    Forall (λ dt, dt < 100) gaps →
    let w' := knob_slope_turns e direction gaps w in
    has "_cmdSendLine" w' = true ∧
    _rotaryAccel (self w') !! key
      = Some (mkRotation (now w') (Z.min (t + Z.of_nat (length gaps)) 3))).
  { intros gaps0. induction gaps0 as [|dt gaps0 IH]; intros w0 t Hs0 Hl0 Ht Hg.
    { cbn. split; [done|]. rewrite Hl0. do 2 f_equal. lia. }
    apply Forall_cons in Hg as [Hdt Hg]. unfold knob_slope_turns. cbn [foldl].
    fold (knob_slope_turns e direction gaps0
            (output_ushaping_knob_slope e direction (advance dt w0))).
    destruct (knob_slope_rotation e s direction (advance dt w0) He Hs0) as (Hr & Hn & Hm).
    fold key in Hr. cbn [advance self now] in Hr. rewrite Hl0 in Hr.
    cbn [default Datatypes.id time count] in Hr.
    replace (now w0 + dt - now w0 <? 100) with true in Hr by (symmetry; apply Z.ltb_lt; lia).
    cbn [advance now] in Hn. rewrite <- Hn in Hr.
    destruct (IH _ (Z.min (t + 1) 3) ltac:(unfold has in *; by rewrite Hm) Hr ltac:(lia) Hg)
      as (H1 & H2).
    split; [done|]. rewrite H2. do 2 f_equal. cbn [length]. lia. }
  destruct (Hrun gaps w t0 Hsend Hlast Ht0 Hgaps) as (Hs' & Hr').
  split.
  - unfold tier. by rewrite Hr'.
  - intros dt Hdt.
    destruct (knob_slope_rotation e s direction
                (advance dt (knob_slope_turns e direction gaps w)) He Hs') as (Hr & _).
    fold key in Hr. unfold tier. rewrite Hr. cbn [advance self now]. rewrite Hr'.
    cbn [default Datatypes.id time count fmap option_fmap option_map].
    replace (_ <? 100) with false by (symmetry; apply Z.ltb_ge; lia). done.
Qed.

(** Four quick turns after a fresh one: the tier climbs 1, 2, 3 and stays
    at 3. *)
Lemma knob_slope_tier_saturates_witness :
  let e := mkRotaryEvent (Some "deck") None None None None in
  let w := output_ushaping_knob_slope e "up" (idle_world ["_cmdSendLine"] 1000000) in
  tier "ushaping_slope_deck" (knob_slope_turns e "up" [20; 30; 40; 50] w) = Some 3.
Proof.
  cbv zeta.
  destruct (knob_slope_tier_saturates (mkRotaryEvent (Some "deck") None None None None)
              "deck" "up" 0 [20; 30; 40; 50]
              (output_ushaping_knob_slope (mkRotaryEvent (Some "deck") None None None None) "up"
                 (idle_world ["_cmdSendLine"] 1000000))) as [H _].
  - reflexivity.
  - reflexivity.
  - reflexivity.
  - lia.
  - repeat (constructor; [lia|]). constructor.
  - exact H.
Defined.

Lemma tiers_bounded_frame (w w' : World) :
  _rotaryAccel (self w') = _rotaryAccel (self w) → tiers_bounded w → tiers_bounded w'.
Proof. unfold tiers_bounded. by intros ->. Qed.

Lemma knob_gain_loop_accel (d : Domain) (delta : Q) (band : Z) (l : list Z) (w : World) :
  _rotaryAccel (self (foldl (knob_gain_body d delta band) w l)) = _rotaryAccel (self w).
Proof.
  revert w. induction l as [|c l IH]; intros w; [done|]. cbn [foldl]. rewrite IH.
  unfold knob_gain_body. destruct d; by knob_body_steps.
Qed.

Lemma knob_frequency_loop_bounded (e : RotaryEvent) (delta : Q) (band : Z) (range : FreqRange)
    (l : list Z) (w : World) :
  tiers_bounded w → tiers_bounded (foldl (knob_frequency_body e delta band range) w l).
Proof.
  revert w. induction l as [|c l IH]; intros w Hb; [done|]. cbn [foldl]. apply IH.
  unfold knob_frequency_body. destruct (surfaceId e).
  - destruct (accelerate_bounded "ushaping_freq_" e w Hb) as [_ Hb1].
    destruct (accelerate "ushaping_freq_" e w) as [t w1]. cbn [snd] in Hb1.
    eapply tiers_bounded_frame; [|exact Hb1]. by knob_body_steps.
  - eapply tiers_bounded_frame; [|exact Hb]. by knob_body_steps.
Qed.

(** X9: no knob ever stores a tier outside 0..3.  If every stored tier
    is between 0 and 3, it still is after a turn of the slope knob, of the
    frequency knob (which updates the tier once per selected channel), of
    the input gain knob, and of the output gain knob (which keeps no tier). *)
Theorem knobs_keep_tiers_bounded (e : RotaryEvent) (w : World) :
  tiers_bounded w →
  (∀ direction, tiers_bounded (output_ushaping_knob_slope e direction w)) ∧
  (∀ delta, tiers_bounded (output_ushaping_knob_frequency e delta w)) ∧
  (∀ delta, tiers_bounded (input_ushaping_knob_gain e delta w)) ∧
  (∀ fine coarse, tiers_bounded (output_ushaping_knob_gain e fine coarse w)).
Proof.
  intros Hb. split; [|split; [|split]].
  - intros direction. unfold output_ushaping_knob_slope.
    destruct (negb _); [done|]. cbv zeta. destruct (surfaceId e).
    + destruct (accelerate_bounded "ushaping_slope_" e w Hb) as [_ Hb1].
      destruct (accelerate "ushaping_slope_" e w) as [t w1]. cbn [snd] in Hb1.
      eapply tiers_bounded_frame; [|exact Hb1]. apply knob_slope_loop_accel.
    + eapply tiers_bounded_frame; [|exact Hb]. apply knob_slope_loop_accel.
  - intros delta. unfold output_ushaping_knob_frequency.
    destruct (negb _); [done|]. cbv zeta. destruct (_ =? 5).
    + by eapply tiers_bounded_frame; [|exact Hb].
    + by apply knob_frequency_loop_bounded.
  - intros delta. unfold input_ushaping_knob_gain.
    destruct (negb _); [done|]. cbv zeta. destruct (surfaceId e).
    + destruct (accelerate_bounded "ushaping_gain_" e w Hb) as [_ Hb1].
      destruct (accelerate "ushaping_gain_" e w) as [t w1]. cbn [snd] in Hb1.
      eapply tiers_bounded_frame; [|exact Hb1]. apply knob_gain_loop_accel.
    + eapply tiers_bounded_frame; [|exact Hb]. apply knob_gain_loop_accel.
  - intros fine coarse. unfold output_ushaping_knob_gain.
    destruct (negb _); [done|]. cbv zeta.
    eapply tiers_bounded_frame; [|exact Hb]. apply knob_gain_loop_accel.
Qed.

(** The theorem on an idle instance with two outputs selected. *)
Lemma knobs_keep_tiers_bounded_witness :
  tiers_bounded
    (output_ushaping_knob_frequency (mkRotaryEvent (Some "deck") None None None None) 10
       (with_self (set__ushapingKnobControlOutput (Some (mkKnob (Some [1; 2]) (Some 1))))
          (idle_world ["_cmdSendLine"] 1000000))).
Proof.
  refine (proj1 (proj2 (knobs_keep_tiers_bounded
            (mkRotaryEvent (Some "deck") None None None None)
            (with_self (set__ushapingKnobControlOutput (Some (mkKnob (Some [1; 2]) (Some 1))))
               (idle_world ["_cmdSendLine"] 1000000)) _)) 10%Q).
  intros key r Hr. vm_compute in Hr. discriminate Hr.
Defined.


(** ** Array Curve Distributor: shape of the curve for every array *)

Lemma roundTenth_le (x y : R) : (x <= y)%R → (roundTenth x <= roundTenth y)%Q.
Proof.
  intros H. unfold roundTenth, Js.Math_roundR, Qle. cbn [Qnum Qden].
  apply Z.mul_le_mono_nonneg_r; [done|]. apply Zfloor_le. lra.
Qed.

Section CurveShape.

Variables (span : Z) (p n : Q).
Hypothesis span_gt_1 : 1 < span.
Hypothesis p_nonneg : (0 <= p)%Q.
Hypothesis n_nonneg : (0 <= n)%Q.

Let L : R := Math_log span.
Let raw (b : Z) : R := fst (rawDb span b p n).

Lemma L_pos : (0 < L)%R.
Proof. by apply Math_log_pos. Qed.

Lemma P_nonneg : (0 <= Q2R p)%R.
Proof. rewrite <- RMicromega.Q2R_0. by apply Qle_Rle. Qed.

Lemma N_nonneg : (0 <= Q2R n)%R.
Proof. rewrite <- RMicromega.Q2R_0. by apply Qle_Rle. Qed.

Lemma raw_first_half (b : Z) :
  b ≤ span → raw b = (Q2R p * (1 - Math_log b / L))%R.
Proof.
  intros Hb. unfold raw, rawDb. cbv zeta.
  by rewrite (proj2 (Z.leb_le b span) Hb).
Qed.

Lemma raw_second_half (b : Z) :
  span < b →
  raw b = (- Q2R n * ((L - Math_log (Z.max 1 (2 * span - b + 1))) / L))%R.
Proof.
  intros Hb. unfold raw, rawDb. cbv zeta.
  by rewrite (proj2 (Z.leb_gt b span) Hb).
Qed.

Lemma ratio_le (x y : Z) : 0 < x → x ≤ y → (Math_log x / L <= Math_log y / L)%R.
Proof.
  intros Hx Hxy. pose proof L_pos. pose proof (Math_log_le x y Hx Hxy).
  apply Rmult_le_compat_r; [|done]. apply Rlt_le. by apply Rinv_0_lt_compat.
Qed.

Lemma ratio_range (x : Z) : 1 ≤ x → x ≤ span → (0 <= Math_log x / L <= 1)%R.
Proof.
  intros H1 Hs. pose proof L_pos as HL. split.
  - pose proof (ratio_le 1 x ltac:(lia) H1) as H. rewrite Math_log_1 in H.
    unfold Rdiv in H. by rewrite Rmult_0_l in H.
  - pose proof (ratio_le x span ltac:(lia) Hs) as H. fold L in H.
    replace (L / L)%R with 1%R in H; [done|]. field. lra.
Qed.

Lemma raw_range (b : Z) :
  1 ≤ b →
  (if b <=? span then 0 <= raw b <= Q2R p else - Q2R n <= raw b <= 0)%R.
Proof.
  intros Hb. pose proof P_nonneg. pose proof N_nonneg. pose proof L_pos.
  destruct (Z.leb_spec b span) as [Hs|Hs].
  - rewrite raw_first_half by done.
    pose proof (ratio_range b Hb Hs). nra.
  - rewrite raw_second_half by done.
    set (j := Z.max 1 (2 * span - b + 1)).
    pose proof (ratio_range j ltac:(lia) ltac:(lia)) as Hj.
    replace ((L - Math_log j) / L)%R with (1 - Math_log j / L)%R by (field; lra).
    nra.
Qed.

Lemma raw_antitone (b b' : Z) : 1 ≤ b → b ≤ b' → (raw b' <= raw b)%R.
Proof.
  intros Hb Hbb. pose proof P_nonneg. pose proof N_nonneg. pose proof L_pos.
  destruct (Z.leb_spec b' span) as [Hs'|Hs'].
  - rewrite !raw_first_half by lia.
    pose proof (ratio_le b b' ltac:(lia) Hbb). nra.
  - destruct (Z.leb_spec b span) as [Hs|Hs].
    + pose proof (raw_range b Hb) as Hr1. pose proof (raw_range b' ltac:(lia)) as Hr2.
      rewrite (proj2 (Z.leb_le b span) Hs) in Hr1.
      rewrite (proj2 (Z.leb_gt b' span) Hs') in Hr2. lra.
    + rewrite !raw_second_half by lia.
      set (j := Z.max 1 (2 * span - b + 1)). set (j' := Z.max 1 (2 * span - b' + 1)).
      pose proof (ratio_le j' j ltac:(lia) ltac:(lia)).
      replace ((L - Math_log j) / L)%R with (1 - Math_log j / L)%R by (field; lra).
      replace ((L - Math_log j') / L)%R with (1 - Math_log j' / L)%R by (field; lra).
      nra.
Qed.

Lemma raw_first : raw 1 = Q2R p.
Proof.
  rewrite raw_first_half by lia. rewrite Math_log_1. unfold Rdiv. lra.
Qed.

Lemma raw_middle : raw span = 0%R ∧ raw (span + 1) = 0%R.
Proof.
  pose proof L_pos. split.
  - rewrite raw_first_half by lia. fold L. replace (L / L)%R with 1%R by (field; lra). lra.
  - rewrite raw_second_half by lia.
    replace (Z.max 1 (2 * span - (span + 1) + 1)) with span by lia. fold L.
    unfold Rdiv. lra.
Qed.

End CurveShape.

Lemma hf_totalSwing_range (o : HfOptions) : (1 # 10 <= hf_totalSwing o <= 24)%Q.
Proof.
  unfold hf_totalSwing, Js.Math_max, Js.Math_min. split.
  - apply Q.le_max_l.
  - apply Q.max_lub; [done|apply Q.le_min_l].
Qed.

(** X10: the HF attenuation curve has the same shape for every array of
    three or more loudspeakers and every span: the gain never increases
    from one loudspeaker to the next, the first one gets a third of the
    span (rounded to a tenth), the loudspeaker in the middle of the array
    gets 0 dB, and every gain lies between -16 dB and +8 dB.  These are the
    values stored as band 5 gain of the covered outputs. *)
Theorem hf_curve_shape (NUM_OUTPUTS : Z) (o : HfOptions) (w : World) :
  has "_cmdSendLine" w = true →
  1 < hf_span NUM_OUTPUTS o →
  let db := hf_db NUM_OUTPUTS o in
  (∀ i j, 0 ≤ i → i ≤ j → (db j <= db i)%Q) ∧
  db 0 = roundTenth (Q2R (hf_totalSwing o / 3)) ∧
  db (hf_span NUM_OUTPUTS o - 1) = 0 # 10 ∧
  (∀ i, 0 ≤ i → (-16 <= db i <= 8)%Q) ∧
  (∀ i, 0 ≤ i < hf_total NUM_OUTPUTS o →
     gain (band_of (outputUShaping (self (output_hf_attenuation NUM_OUTPUTS o w)))
             (hf_start NUM_OUTPUTS o + i) 5) = Some (db i)).
Proof.
  intros Hsend Hs db.
  destruct (hf_totalSwing_range o) as [Hlo Hhi].
  assert (Hp : (0 <= hf_totalSwing o / 3)%Q).
  { apply Qle_shift_div_l; [done|]. rewrite Qmult_0_l.
    by apply (Qle_trans _ (1 # 10)). }
  assert (Hn : (0 <= hf_totalSwing o * 2 / 3)%Q).
  { apply Qle_shift_div_l; [done|]. rewrite Qmult_0_l.
    apply Qmult_le_0_compat; [by apply (Qle_trans _ (1 # 10))|done]. }
  assert (Hp8 : (Q2R (hf_totalSwing o / 3) <= 8)%R).
  { replace 8%R with (Q2R 8) by (unfold Q2R; simpl; lra). apply Qle_Rle.
    apply Qle_shift_div_r; [done|]. done. }
  assert (Hn16 : (Q2R (hf_totalSwing o * 2 / 3) <= 16)%R).
  { replace 16%R with (Q2R 16) by (unfold Q2R; simpl; lra). apply Qle_Rle.
    apply Qle_shift_div_r; [done|].
    change (16 * 3)%Q with (24 * 2)%Q. by apply Qmult_le_compat_r. }
  assert (H8 : roundTenth 8 = 80 # 10) by (apply roundTenth_eq; lra).
  assert (H16 : roundTenth (-16) = -160 # 10) by (apply roundTenth_eq; lra).
  split; [|split; [|split; [|split]]].
  - intros i j Hi Hij. unfold db, hf_db. apply roundTenth_le.
    apply raw_antitone; [done..|lia|lia].
  - unfold db, hf_db. change (0 + 1) with 1. by rewrite raw_first.
  - unfold db, hf_db. replace (hf_span NUM_OUTPUTS o - 1 + 1) with (hf_span NUM_OUTPUTS o) by lia.
    rewrite (proj1 (raw_middle _ _ _ Hs)). apply roundTenth_eq. lra.
  - intros i Hi. unfold db, hf_db.
    pose proof (raw_range _ _ _ Hs Hp Hn (i + 1) ltac:(lia)) as Hr.
    pose proof (P_nonneg _ Hp). pose proof (N_nonneg _ Hn).
    split.
    + apply (Qle_trans _ (roundTenth (-16))); [by rewrite H16|].
      apply roundTenth_le. destruct (i + 1 <=? _); lra.
    + apply (Qle_trans _ (roundTenth 8)); [|by rewrite H8].
      apply roundTenth_le. destruct (i + 1 <=? _); lra.
  - intros i Hi. unfold band_of.
    rewrite (hf_attenuation_strip NUM_OUTPUTS o w i Hsend Hs Hi).
    cbn [bands]. by rewrite lookup_insert_eq.
Qed.

(** The theorem for five loudspeakers from output 2, span 12 dB. *)
Lemma hf_curve_shape_witness :
  let o := mkHfOptions (Some 2%Q) (Some 5%Q) (Some 12%Q) in
  (hf_db 16 o 4 <= hf_db 16 o 1)%Q ∧ hf_db 16 o 2 = 0 # 10.
Proof.
  cbv zeta.
  destruct (hf_curve_shape 16 (mkHfOptions (Some 2%Q) (Some 5%Q) (Some 12%Q))
              (idle_world ["_cmdSendLine"] 0)) as (Hm & _ & Hz & _).
  - reflexivity.
  - reflexivity.
  - split; [apply Hm; lia|exact Hz].
Defined.


(** ** Gain: nudge and set *)

Section GainModes.

Variables (d : Domain) (btnId : option string).

(** The calls that precede a gain change hand over no gain and start no
    fade, and leave the stores alone. *)
Lemma begin_gain_change_spec (ch : Z) (w : World) :
  let w' := begin_gain_change d ch btnId w in
  methods w' = methods w ∧ self w' = self w ∧ sent w' = sent w ∧ logs w' = logs w ∧
  ∃ cs, calls w' = calls w ++ cs ∧ gains_applied d cs = [] ∧
        Forall (λ c, is_fade d c = false) cs.
Proof.
  unfold begin_gain_change, call_if_defined, has, call. cbn [methods].
  repeat (destruct (bool_decide _)); cbn [methods self sent logs calls];
    rewrite <- ?app_assoc; repeat split; try done;
    eexists; (split; [try done; by rewrite app_nil_r|]);
    (split; [by destruct d|]); repeat constructor; by destruct d.
Qed.

(** One turn of the nudge loop. *)
Lemma gain_nudge_body_spec (dl : Js.number) (curveNudge : string) (w : World) (ch : Z) :
  has ("_set" +:+ Cap d +:+ "Gain") w = true →
  let w' := gain_nudge_body d dl curveNudge btnId w ch in
  methods w' = methods w ∧ self w' = self w ∧ sent w' = sent w ∧ logs w' = logs w ∧
  ∃ cs, calls w' = calls w ++ cs ∧
        gains_applied d cs =
          [(ch, (default 0 (gain_of d (self w) !! ch) + default 0 dl)%Q)] ∧
        Forall (λ c, is_fade d c = false) cs.
Proof.
  intros Hset. unfold gain_nudge_body. cbv zeta.
  destruct (begin_gain_change_spec ch w) as (Hm & Hs & Hse & Hl & cs & Hc & Hg & Hf).
  set (w1 := begin_gain_change d ch btnId w) in *. clearbody w1.
  unfold apply_gain. change (Js.ltb 0 0) with false. cbn [andb].
  assert (Hset1 : has ("_set" +:+ Cap d +:+ "Gain") w1 = true)
    by (unfold has in *; by rewrite Hm).
  rewrite Hset1. unfold call. cbn [methods self sent logs calls].
  repeat split; try done.
  exists (cs ++ [mkCall ("_set" +:+ Cap d +:+ "Gain")
                   [VInt ch; VNum (default 0 (gain_of d (self w1) !! ch) + default 0 dl)%Q]]).
  split; [by rewrite Hc, <- app_assoc|]. split.
  - unfold gains_applied in *. rewrite omap_app, Hg. cbn [omap list_omap app].
    by rewrite applied_gain_set, Hs.
  - apply Forall_app. split; [done|]. by repeat constructor.
Qed.

Lemma gain_nudge_loop_spec (dl : Js.number) (curveNudge : string) (l : list Z) (w : World) :
  has ("_set" +:+ Cap d +:+ "Gain") w = true →
  let w' := foldl (gain_nudge_body d dl curveNudge btnId) w l in
  methods w' = methods w ∧ self w' = self w ∧ sent w' = sent w ∧ logs w' = logs w ∧
  ∃ cs, calls w' = calls w ++ cs ∧
        gains_applied d cs =
          map (λ ch, (ch, (default 0 (gain_of d (self w) !! ch) + default 0 dl)%Q)) l ∧
        Forall (λ c, is_fade d c = false) cs.
Proof.
  revert w. induction l as [|c l IH]; intros w Hset; cbn [foldl].
  { repeat split; try done. exists []. by rewrite app_nil_r. }
  destruct (gain_nudge_body_spec dl curveNudge w c Hset)
    as (Hm1 & Hs1 & Hse1 & Hl1 & cs1 & Hc1 & Hg1 & Hf1).
  destruct (IH (gain_nudge_body d dl curveNudge btnId w c))
    as (Hm2 & Hs2 & Hse2 & Hl2 & cs2 & Hc2 & Hg2 & Hf2).
  { unfold has in *. by rewrite Hm1. }
  cbv zeta. rewrite Hm2, Hs2, Hse2, Hl2. repeat split; try done.
  exists (cs1 ++ cs2). split; [by rewrite Hc2, Hc1, <- app_assoc|]. split.
  - unfold gains_applied in *. rewrite omap_app, Hg1, Hg2. cbn [map app]. by rewrite Hs1.
  - by apply Forall_app.
Qed.

End GainModes.

(** X11: a gain nudge hands [_set...Gain] the stored gain of each
    selected channel plus the delta (0 for a channel with no stored gain,
    and a delta that is not a number counts as 0), once per channel and in
    selection order; it never starts a fade, whatever [fadeMs] says, and
    the callback itself transmits nothing and changes no store. *)
Theorem gain_nudge_adds_delta (NUM_INPUTS NUM_OUTPUTS : Z)
    (_getPrevGain : Domain → Z → option string → World → option Q)
    (d : Domain) (o : GainOptions) (w : World) :
  gain_target o = "nudge" →
  has ("_set" +:+ Cap d +:+ "Gain") w = true →
  let sel := safeGetChannels o.(gain_chs) (NUM NUM_INPUTS NUM_OUTPUTS d) in
  let w' := gain_set NUM_INPUTS NUM_OUTPUTS _getPrevGain d o w in
  gains_applied d (called_since w w') =
    map (λ ch, (ch, (default 0 (gain_of d (self w) !! ch) + default 0 (gain_delta o))%Q)) sel ∧
  Forall (λ c, is_fade d c = false) (called_since w w') ∧
  sent w' = sent w ∧ self w' = self w.
Proof.
  intros Ht Hset sel w'. subst w'. unfold gain_set. fold sel. rewrite Ht.
  destruct sel as [|c l] eqn:E.
  { cbn [is_empty]. unfold called_since, log. cbn [calls]. rewrite drop_all. by repeat split. }
  cbn [is_empty]. cbv zeta.
  change (String.eqb "nudge" "last" || String.eqb "nudge" "prev") with false. cbv iota.
  change (String.eqb "nudge" "pair") with false. cbv iota.
  change (String.eqb "nudge" "nudge") with true. cbv iota.
  change (String.eqb "nudge" "last") with false. cbv iota.
  change (String.eqb "nudge" "nudge") with true. cbv iota.
  match goal with |- context [foldl (gain_nudge_body d ?dl ?cv ?b) w (c :: l)] =>
    destruct (gain_nudge_loop_spec d b dl cv (c :: l) w Hset)
      as (Hm & Hs & Hse & Hl & cs & Hc & Hg & Hf) end.
  rewrite (called_since_app _ _ _ Hc). by repeat split.
Qed.

(** Three dB up on two inputs, one of them at -10 dB, with a fade time
    and the fade helper present: two plain sets, no fade. *)
Lemma gain_nudge_adds_delta_witness :
  let o := mkGainOptions [Some 1; Some 2] "nudge" 0 (Some 3%Q) 0 0 (Some 500%Q) "log" None in
  let w := with_self (λ s, mkSelf (inMute s) (outMute s) (inputSoloState s) (outputSoloState s)
                       (<[2 := (-10)%Q]> ∅) (outputGain s) (_inputGainToggle s)
                       (_outputGainToggle s) (matrixDelay s) (_rotaryAccel s)
                       (_rotaryPressState s) (inputUShaping s) (outputUShaping s) (inputEQ s)
                       (outputEQ s) (_ushapingKnobControl s) (_ushapingKnobControlOutput s)
                       (_eqKnobControl s) (_eqKnobControlOutput s))
             (idle_world ["_setInputGain"; "_startInputGainFade"] 0) in
  gains_applied Input (called_since w (input_gain_set 8 16 (λ _ _ _ _, None) o w)) =
    [(1, 3%Q); (2, (-7)%Q)].
Proof.
  cbv zeta.
  match goal with |- gains_applied Input (called_since _ (input_gain_set 8 16 ?g ?o ?w)) = _ =>
    destruct (gain_nudge_adds_delta 8 16 g Input o w) as (H & _) end.
  - reflexivity.
  - reflexivity.
  - cbv zeta in H. unfold input_gain_set. rewrite H. reflexivity.
Defined.


(** ** Coarse mode and the band bypass button *)

Lemma knob_gain_body_store (d : Domain) (delta : Q) (band : Z) (w : World) (ch : Z) :
  ushaping_of d (self (knob_gain_body d delta band w ch)) =
    update_band ch band
      (set_gain (Js.Math_max (-15) (Js.Math_min 15
         (default 0%Q (gain (band_of (ushaping_of d (self w)) ch band)) + delta)%Q)))
      (ushaping_of d (self w)).
Proof. unfold knob_gain_body. destruct d; by knob_body_steps. Qed.

(** X12: the coarse-mode action decides which step the U-Shaping gain
    knob of the same control takes.  After "press" a turn moves the gain of
    every selected channel by the coarse step, after "release" by the fine
    step (clamped to [-15, 15] as always); "toggle" switches between the
    two, so that two toggles leave the mode as it was. *)
Theorem coarse_mode_selects_step (e : RotaryEvent) (key : string) (fine coarse : Q)
    (w : World) (ch : Z) :
  buildRotaryKey e = Some key →
  has "_cmdSendLine" w = true →
  encoder_delta e = None →
  Qeq_bool fine 0 = false → Qeq_bool coarse 0 = false →
  let k := _ushapingKnobControlOutput (self w) in
  NoDup (knob_channels k) → ch ∈ knob_channels k →
  let g := default 0%Q (gain (band_of (outputUShaping (self w)) ch (knob_band k))) in
  let turn := output_ushaping_knob_gain e (Some fine) (Some coarse) in
  let stored := λ w', gain (band_of (outputUShaping (self w')) ch (knob_band k)) in
  let step := λ x : Q, Js.Math_max (-15) (Js.Math_min 15 (g + Js.Math_abs x * sign_of x)%Q) in
  stored (turn (output_ushaping_gain_coarse_mode e "press" w)) = Some (step coarse) ∧
  stored (turn (output_ushaping_gain_coarse_mode e "release" w)) = Some (step fine) ∧
  (let pressed := λ w', default false (_rotaryPressState (self w') !! key) in
   pressed (output_ushaping_gain_coarse_mode e "toggle" w) = negb (pressed w) ∧
   pressed (output_ushaping_gain_coarse_mode e "toggle"
              (output_ushaping_gain_coarse_mode e "toggle" w)) = pressed w).
Proof.
  intros Hkey Hsend Henc Hf Hc k Hnd Hch g turn stored step.
  assert (Hturn : ∀ w0,
    has "_cmdSendLine" w0 = true →
    _ushapingKnobControlOutput (self w0) = k →
    outputUShaping (self w0) = outputUShaping (self w) →
    stored (turn w0) =
      Some (step (if default false (_rotaryPressState (self w0) !! key)
                  then coarse else fine))).
  { intros w0 Hs0 Hk0 Hu0. unfold stored, turn, output_ushaping_knob_gain.
    rewrite Hs0, Hk0, Hkey, Henc. cbn [negb]. cbv zeta.
    set (isCoarse := default false (_rotaryPressState (self w0) !! key)).
    assert (Hbase : Js.or_default (if isCoarse then Some coarse else Some fine)
                      (if isCoarse then 1 # 2 else 1 # 10)
                    = if isCoarse then coarse else fine).
    { destruct isCoarse; unfold Js.or_default; [by rewrite Hc|by rewrite Hf]. }
    rewrite Hbase.
    set (delta := (Js.Math_abs _ * sign_of _)%Q).
    pose proof (knob_loop_exact (ushaping_of Output) (knob_band k) set_gain
      (λ b, Js.Math_max (-15) (Js.Math_min 15 (default 0%Q (gain b) + delta)%Q))
      (knob_gain_body Output delta (knob_band k))
      (knob_gain_body_store Output delta (knob_band k))
      (knob_channels k) w0 Hnd ch) as Hx.
    cbn [ushaping_of] in Hx. rewrite Hx, bool_decide_eq_true_2 by done.
    cbn [gain set_gain]. rewrite Hu0. fold g. unfold step, delta. by destruct isCoarse. }
  unfold output_ushaping_gain_coarse_mode, coarse_mode. rewrite Hkey.
  split; [|split; [|split]].
  - rewrite Hturn by done. cbn [self with_self _rotaryPressState set__rotaryPressState].
    change (String.eqb "press" "press") with true. cbv iota.
    by rewrite lookup_insert_eq.
  - rewrite Hturn by done. cbn [self with_self _rotaryPressState set__rotaryPressState].
    change (String.eqb "release" "press") with false.
    change (String.eqb "release" "release") with true. cbv iota.
    by rewrite lookup_delete_eq.
  - cbn [self with_self _rotaryPressState set__rotaryPressState].
    change (String.eqb "toggle" "press") with false.
    change (String.eqb "toggle" "release") with false. cbv iota zeta.
    destruct (default false (_rotaryPressState (self w) !! key)); cbn [negb].
    + by rewrite lookup_delete_eq.
    + by rewrite lookup_insert_eq.
  - cbn [self with_self _rotaryPressState set__rotaryPressState].
    change (String.eqb "toggle" "press") with false.
    change (String.eqb "toggle" "release") with false. cbv iota zeta.
    destruct (default false (_rotaryPressState (self w) !! key)) eqn:E; cbn [negb].
    + do 2 (rewrite ?lookup_delete_eq, ?lookup_insert_eq; cbn [default negb Datatypes.id]). done.
    + do 2 (rewrite ?lookup_delete_eq, ?lookup_insert_eq; cbn [default negb Datatypes.id]). done.
Qed.

(** The theorem for the control "knob1" of the surface "deck": half a dB
    per turn once pressed. *)
Lemma coarse_mode_selects_step_witness :
  let e := mkRotaryEvent (Some "deck") (Some "knob1") None None None in
  let w := idle_world ["_cmdSendLine"] 0 in
  gain (band_of (outputUShaping (self
    (output_ushaping_knob_gain e (Some (1 # 10)) (Some (1 # 2))
       (output_ushaping_gain_coarse_mode e "press" w)))) 1 1)
  = Some (Js.Math_max (-15) (Js.Math_min 15 (0 + Js.Math_abs (1 # 2) * sign_of (1 # 2))%Q)).
Proof.
  cbv zeta.
  refine (proj1 (coarse_mode_selects_step
    (mkRotaryEvent (Some "deck") (Some "knob1") None None None) "deck::knob1"
    (1 # 10) (1 # 2) (idle_world ["_cmdSendLine"] 0) 1 _ _ _ _ _ _ _)).
  - reflexivity.
  - reflexivity.
  - reflexivity.
  - reflexivity.
  - reflexivity.
  - vm_compute. apply NoDup_singleton.
  - vm_compute. left.
Defined.

Lemma ushapingKnob_of_set_ushaping (d : Domain) (m : gmap Z Strip) (s : Self) :
  ushapingKnob_of d (set_ushaping_of d m s) = ushapingKnob_of d s.
Proof. by destruct d. Qed.

Section BandBypass.

Variables (d : Domain) (NUM band : Z).

Let stored (w : World) (ch : Z) : bool :=
  default false (band_bypass (band_of (ushaping_of d (self w)) ch band)).

Let valid (ch : Z) : Prop := 1 ≤ ch ≤ NUM.

Lemma knob_band_bypass_body_spec (w : World) (c : Z) :
  let w' := knob_band_bypass_body d NUM band w c in
  methods w' = methods w ∧
  ushapingKnob_of d (self w') = ushapingKnob_of d (self w) ∧
  ushaping_of d (self w') =
    (if bool_decide (valid c)
     then update_band c band (set_band_bypass (negb (stored w c))) (ushaping_of d (self w))
     else ushaping_of d (self w)) ∧
  sent w' = sent w ++
    (if bool_decide (valid c)
     then [mkCmd (ushaping_path d c band "band_bypass") (VText (bool_text (negb (stored w c))))]
     else []).
Proof.
  unfold knob_band_bypass_body, valid.
  destruct (Z.ltb_spec c 1); cbn [orb].
  { rewrite bool_decide_eq_false_2 by lia. by rewrite app_nil_r. }
  destruct (Z.gtb_spec c NUM).
  { rewrite bool_decide_eq_false_2 by lia. by rewrite app_nil_r. }
  rewrite bool_decide_eq_true_2 by lia.
  unfold log, with_self, _cmdSendLine. cbn [self methods sent].
  by rewrite ushaping_of_set, ushapingKnob_of_set_ushaping.
Qed.

Lemma knob_band_bypass_loop_spec (chs : list Z) (w : World) :
  NoDup chs →
  let w' := foldl (knob_band_bypass_body d NUM band) w chs in
  methods w' = methods w ∧
  ushapingKnob_of d (self w') = ushapingKnob_of d (self w) ∧
  (∀ ch, band_of (ushaping_of d (self w')) ch band =
     if bool_decide (ch ∈ chs ∧ valid ch)
     then set_band_bypass (negb (stored w ch)) (band_of (ushaping_of d (self w)) ch band)
     else band_of (ushaping_of d (self w)) ch band) ∧
  sent w' = sent w ++
    map (λ ch, mkCmd (ushaping_path d ch band "band_bypass")
                 (VText (bool_text (negb (stored w ch)))))
      (filter valid chs).
Proof.
  intros Hnd. revert w. induction Hnd as [|c chs Hc Hnd IH]; intros w; cbn [foldl].
  { split; [done|]. split; [done|]. split; [|by rewrite app_nil_r].
    intros ch. rewrite bool_decide_eq_false_2; [done|]. by intros [?%elem_of_nil _]. }
  destruct (knob_band_bypass_body_spec w c) as (Hm1 & Hk1 & Hu1 & Hs1).
  destruct (IH (knob_band_bypass_body d NUM band w c)) as (Hm2 & Hk2 & Hu2 & Hs2).
  set (w1 := knob_band_bypass_body d NUM band w c) in *. clearbody w1.
  assert (Hother : ∀ ch, ch ≠ c →
    band_of (ushaping_of d (self w1)) ch band = band_of (ushaping_of d (self w)) ch band).
  { intros ch Hne. rewrite Hu1. destruct (bool_decide (valid c)); [|done].
    by apply band_of_update_band_ne. }
  cbv zeta. split; [by rewrite Hm2|]. split; [by rewrite Hk2, Hk1|]. split.
  - intros ch. rewrite Hu2. destruct (decide (ch = c)) as [->|Hne].
    + rewrite (bool_decide_eq_false_2 (c ∈ chs ∧ valid c)) by (by intros [? _]).
      rewrite Hu1. destruct (decide (valid c)) as [Hv|Hv].
      * rewrite !bool_decide_eq_true_2; [|split; [left|]|]; try done.
        apply band_of_update_band.
      * rewrite !bool_decide_eq_false_2; [done| |done]. by intros [_ ?].
    + unfold stored. rewrite !Hother by done.
      destruct (decide (ch ∈ chs ∧ valid ch)) as [[Hin Hv]|Hn].
      * rewrite !bool_decide_eq_true_2; [done|split; [by right|done]|done].
      * rewrite !bool_decide_eq_false_2; [done| |done].
        intros [[?|?]%elem_of_cons ?]; [done|]. by apply Hn.
  - rewrite Hs2, Hs1, <- app_assoc. f_equal. rewrite filter_cons.
    assert (Hmap : map (λ ch, mkCmd (ushaping_path d ch band "band_bypass")
                               (VText (bool_text (negb (stored w1 ch))))) (filter valid chs)
                 = map (λ ch, mkCmd (ushaping_path d ch band "band_bypass")
                               (VText (bool_text (negb (stored w ch))))) (filter valid chs)).
    { apply map_ext_in. intros ch Hin%list_elem_of_In%list_elem_of_filter.
      destruct Hin as [_ Hin]. unfold stored. rewrite Hother; [done|]. by intros ->. }
    rewrite Hmap. destruct (decide (valid c)) as [Hv|Hv].
    + by rewrite bool_decide_eq_true_2.
    + by rewrite bool_decide_eq_false_2.
Qed.

End BandBypass.

(** X13: the band bypass button toggles the bypass flag of the selected
    band on every selected channel between 1 and [NUM], transmitting the
    new flag, and skips the other channels; pressed twice it sends "true"
    then "false" (or the reverse) and leaves every flag as it was, an
    unknown flag counting as false. *)
Theorem band_bypass_button_round_trip (d : Domain) (NUM : Z) (k : KnobControl) (w : World) :
  has "_cmdSendLine" w = true →
  ushapingKnob_of d (self w) = Some k →
  NoDup (knob_channels (Some k)) →
  1 ≤ knob_band (Some k) ≤ 5 →
  let band := knob_band (Some k) in
  let flag := λ w' ch, default false (band_bypass (band_of (ushaping_of d (self w')) ch band)) in
  let w1 := ushaping_knob_band_bypass d NUM w in
  let w2 := ushaping_knob_band_bypass d NUM w1 in
  (∀ ch, flag w1 ch =
     if bool_decide (ch ∈ knob_channels (Some k) ∧ 1 ≤ ch ≤ NUM)
     then negb (flag w ch) else flag w ch) ∧
  (∀ ch, flag w2 ch = flag w ch) ∧
  sent_since w w1 =
    map (λ ch, mkCmd (ushaping_path d ch band "band_bypass")
                 (VText (bool_text (negb (flag w ch)))))
      (filter (λ ch, 1 ≤ ch ≤ NUM) (knob_channels (Some k))) ∧
  sent_since w1 w2 =
    map (λ ch, mkCmd (ushaping_path d ch band "band_bypass") (VText (bool_text (flag w ch))))
      (filter (λ ch, 1 ≤ ch ≤ NUM) (knob_channels (Some k))).
Proof.
  intros _ Hk Hnd Hb band flag w1 w2.
  assert (Hguard : (band <? 1) || (band >? 5) = false).
  { destruct (Z.ltb_spec band 1), (Z.gtb_spec band 5); try done; unfold band in *; lia. }
  destruct (knob_band_bypass_loop_spec d NUM band (knob_channels (Some k)) w Hnd)
    as (Hm1 & Hk1 & Hu1 & Hs1).
  assert (E1 : w1 = foldl (knob_band_bypass_body d NUM band) w (knob_channels (Some k))).
  { unfold w1, ushaping_knob_band_bypass. rewrite Hk. cbv zeta. fold band. by rewrite Hguard. }
  rewrite <- E1 in Hm1, Hk1, Hu1, Hs1.
  destruct (knob_band_bypass_loop_spec d NUM band (knob_channels (Some k)) w1 Hnd)
    as (Hm2 & Hk2 & Hu2 & Hs2).
  assert (E2 : w2 = foldl (knob_band_bypass_body d NUM band) w1 (knob_channels (Some k))).
  { unfold w2, ushaping_knob_band_bypass. rewrite Hk1, Hk. cbv zeta. fold band.
    by rewrite Hguard. }
  rewrite <- E2 in Hm2, Hk2, Hu2, Hs2.
  assert (F1 : ∀ ch, flag w1 ch =
     if bool_decide (ch ∈ knob_channels (Some k) ∧ 1 ≤ ch ≤ NUM)
     then negb (flag w ch) else flag w ch).
  { intros ch. unfold flag. rewrite Hu1. by destruct (bool_decide _). }
  split; [exact F1|]. split; [|split].
  - intros ch. unfold flag at 1. rewrite Hu2. fold (flag w1 ch).
    destruct (bool_decide (ch ∈ knob_channels (Some k) ∧ 1 ≤ ch ≤ NUM)) eqn:E.
    + cbn [band_bypass set_band_bypass default]. rewrite F1, E. apply negb_involutive.
    + fold (flag w1 ch). by rewrite F1, E.
  - by apply sent_since_app.
  - apply sent_since_app. rewrite Hs2. f_equal. apply map_ext_in.
    intros ch Hin%list_elem_of_In%list_elem_of_filter. destruct Hin as [Hv Hin].
    fold (flag w1 ch). rewrite F1, bool_decide_eq_true_2 by done.
    by rewrite negb_involutive.
Qed.

(** The theorem on a four-output device with outputs 2 and 9 selected:
    output 9 does not exist and is skipped. *)
Lemma band_bypass_button_round_trip_witness :
  let w := with_self (set__ushapingKnobControlOutput (Some (mkKnob (Some [2; 9]) (Some 3))))
             (idle_world ["_cmdSendLine"] 0) in
  let w1 := ushaping_knob_band_bypass Output 4 w in
  let w2 := ushaping_knob_band_bypass Output 4 w1 in
  sent_since w w1 = [mkCmd (ushaping_path Output 2 3 "band_bypass") (VText "true")] ∧
  sent_since w1 w2 = [mkCmd (ushaping_path Output 2 3 "band_bypass") (VText "false")].
Proof.
  cbv zeta.
  destruct (band_bypass_button_round_trip Output 4 (mkKnob (Some [2; 9]) (Some 3))
    (with_self (set__ushapingKnobControlOutput (Some (mkKnob (Some [2; 9]) (Some 3))))
       (idle_world ["_cmdSendLine"] 0))) as (_ & _ & H1 & H2).
  - reflexivity.
  - reflexivity.
  - vm_compute. apply NoDup_cons. split; [|apply NoDup_singleton].
    intros H%list_elem_of_singleton. discriminate H.
  - vm_compute. split; discriminate.
  - split; [rewrite H1|rewrite H2]; reflexivity.
Defined.


(** ** Chingonizer and the U-Shaping adjust action *)

Lemma clamp_opp (v : Q) :
  (-18 <= v <= 18)%Q → (Js.Math_max (-18) (Js.Math_min 18 (- v)) == - v)%Q.
Proof.
  intros [H1 H2]. apply (clamp_id (- v) (-18) 18). split.
  - apply Qopp_le_compat in H2. exact H2.
  - apply Qopp_le_compat in H1. exact H1.
Qed.

Lemma chingonizer_bands_sent (ch : Z) (freq : Js.number) (l : list Z) (w : World) :
  let w' := foldl (chingonizer_band ch freq) w l in
  methods w' = methods w ∧ self w' = self w ∧
  sent w' = sent w ++
    flat_map (λ band,
      [mkCmd (ushaping_path Input ch band "frequency") (VNumber freq);
       mkCmd (ushaping_path Input ch band "slope") (VNum 1)]) l.
Proof.
  revert w. induction l as [|b l IH]; intros w; cbn [foldl flat_map].
  { by rewrite app_nil_r. }
  destruct (IH (chingonizer_band ch freq w b)) as (-> & -> & ->).
  unfold chingonizer_band, has, call, _cmdSendLine. cbn [methods self sent].
  destruct (bool_decide _); cbn [methods self sent]; by rewrite <- !app_assoc.
Qed.

(** The lines of one channel. *)
Lemma chingonizer_body_sent (freq g1 g5 : Js.number) (w : World) (ch : Z) :
  let w' := chingonizer_body freq g1 g5 w ch in
  methods w' = methods w ∧ self w' = self w ∧
  sent w' = sent w ++
    flat_map (λ band,
      [mkCmd (ushaping_path Input ch band "frequency") (VNumber freq);
       mkCmd (ushaping_path Input ch band "slope") (VNum 1)]) (seqZ 1 4) ++
    [mkCmd (ushaping_path Input ch 1 "gain") (VNumber g1);
     mkCmd (ushaping_path Input ch 5 "gain") (VNumber g5)].
Proof.
  unfold chingonizer_body. cbv zeta.
  pose proof (chingonizer_bands_sent ch freq (seqZ 1 4) w) as H. cbv zeta in H.
  revert H. generalize (foldl (chingonizer_band ch freq) w (seqZ 1 4)).
  intros w1 (Hm & Hs & Hsent).
  revert Hsent. generalize (flat_map (λ band,
      [mkCmd (ushaping_path Input ch band "frequency") (VNumber freq);
       mkCmd (ushaping_path Input ch band "slope") (VNum 1)]) (seqZ 1 4)).
  intros lines Hsent.
  unfold has, call, log, _cmdSendLine. cbn [methods self sent].
  destruct (bool_decide _); cbn [methods self sent];
    rewrite Hm, Hs, Hsent, <- !app_assoc; repeat split; reflexivity.
Qed.

(** X14: the Chingonizer mirrors the gain.  For a gain and a frequency
    that are numbers, every selected input gets ten lines: the frequency
    (clamped to 160-2500 Hz) and slope 1 for bands 1 to 4, then the gain of
    band 1 (clamped to [-18, 18]) and the gain of band 5, which is exactly
    the negative of the gain of band 1; the callback changes no store. *)
Theorem chingonizer_mirrors_gain (NUM_INPUTS : Z) (sel : list Token) (f g : Q) (w : World) :
  has "_cmdSendLine" w = true →
  let w' := input_ushaping_chingonizer NUM_INPUTS (mkChingonizer sel (Some f) (Some g)) w in
  let freq := Js.Math_max 160 (Js.Math_min 2500 f) in
  let g1 := Js.Math_max (-18) (Js.Math_min 18 g) in
  let g5 := Js.Math_max (-18) (Js.Math_min 18 (- g1)) in
  sent_since w w' =
    flat_map (λ ch,
      flat_map (λ band,
        [mkCmd (ushaping_path Input ch band "frequency") (VNum freq);
         mkCmd (ushaping_path Input ch band "slope") (VNum 1)]) (seqZ 1 4) ++
      [mkCmd (ushaping_path Input ch 1 "gain") (VNum g1);
       mkCmd (ushaping_path Input ch 5 "gain") (VNum g5)])
      (safeGetChannels sel NUM_INPUTS) ∧
  (g5 == - g1)%Q ∧ (-18 <= g1 <= 18)%Q ∧ (160 <= freq <= 2500)%Q ∧
  self w' = self w.
Proof.
  intros Hsend w' freq g1 g5. subst w'. unfold input_ushaping_chingonizer.
  rewrite Hsend. cbn [negb ching_chs ching_frequency ching_gain]. cbv zeta.
  assert (Hg1 : (-18 <= g1 <= 18)%Q) by (by apply (clamp_range g (-18) 18)).
  assert (Hloop : ∀ l w0,
    let w' := foldl (chingonizer_body (Some freq) (Some g1) (Some g5)) w0 l in
    self w' = self w0 ∧
    sent w' = sent w0 ++
      flat_map (λ ch,
        flat_map (λ band,
          [mkCmd (ushaping_path Input ch band "frequency") (VNum freq);
           mkCmd (ushaping_path Input ch band "slope") (VNum 1)]) (seqZ 1 4) ++
        [mkCmd (ushaping_path Input ch 1 "gain") (VNum g1);
         mkCmd (ushaping_path Input ch 5 "gain") (VNum g5)]) l).
  { induction l as [|c l IH]; intros w0; cbn [foldl flat_map].
    { by rewrite app_nil_r. }
    destruct (IH (chingonizer_body (Some freq) (Some g1) (Some g5) w0 c)) as (-> & ->).
    destruct (chingonizer_body_sent (Some freq) (Some g1) (Some g5) w0 c) as (_ & -> & ->).
    split; [done|]. cbn [VNumber]. by rewrite <- !app_assoc. }
  split; [|split; [by apply clamp_opp|split; [done|split; [by apply (clamp_range f 160 2500)|]]]].
  - destruct (safeGetChannels sel NUM_INPUTS) as [|c l] eqn:E.
    + cbn [is_empty]. unfold sent_since, log. cbn [sent]. by rewrite drop_all.
    + cbn [is_empty]. apply sent_since_app. apply Hloop.
  - destruct (safeGetChannels sel NUM_INPUTS) as [|c l] eqn:E; [done|].
    cbn [is_empty]. apply Hloop.
Qed.

(** The theorem for +6 dB at 1 kHz on input 2: band 5 gets -6 dB. *)
Lemma chingonizer_mirrors_gain_witness :
  let w' := input_ushaping_chingonizer 8 (mkChingonizer [Some 2] (Some 1000%Q) (Some 6%Q))
              (idle_world ["_cmdSendLine"] 0) in
  mkCmd (ushaping_path Input 2 5 "gain") (VNum (-6)) ∈ sent_since (idle_world ["_cmdSendLine"] 0) w'.
Proof.
  cbv zeta.
  destruct (chingonizer_mirrors_gain 8 [Some 2] 1000 6 (idle_world ["_cmdSendLine"] 0))
    as (H & _).
  - reflexivity.
  - rewrite H. vm_compute. do 9 right. left.
Defined.

Lemma adjust_loop_sent (o : UShapingAdjustOptions) (l : list Z) (w : World) :
  let w' := foldl (adjust_body o) w l in
  self w' = self w ∧
  sent w' = sent w ++
    map (λ ch, mkCmd (ushaping_path Input ch (adj_band o) (adj_param o))
                 (VFinal (adjust_finalValue o (self w) ch))) l.
Proof.
  revert w. induction l as [|c l IH]; intros w; cbn [foldl map].
  { by rewrite app_nil_r. }
  destruct (IH (adjust_body o w c)) as (-> & ->).
  unfold adjust_body. knob_body_steps; by rewrite <- app_assoc.
Qed.

(** X15: the U-Shaping adjust action of the inputs clamps before it
    transmits.  With numeric options, every line it sends for the gain
    carries a value in [-18, 18], for the frequency in [10, 20000], for the
    slope in [0.1, 2], in "set" as in "adjust" mode, one line per selected
    channel; asked for the frequency or slope of band 5 it only logs a
    warning.  The callback itself changes no store. *)
Theorem ushaping_adjust_clamps (NUM_INPUTS : Z) (o : UShapingAdjustOptions) (w : World) :
  has "_cmdSendLine" w = true →
  Forall is_Some [adj_gain_delta o; adj_frequency_delta o; adj_slope_delta o;
                  adj_gain_value o; adj_frequency_value o; adj_slope_value o] →
  let chs := safeGetChannels (adj_chs o) NUM_INPUTS in
  let w' := input_ushaping_adjust NUM_INPUTS o w in
  let lines := λ (field : string) (lo hi : Q),
    ∃ vs, length vs = length chs ∧ Forall (λ v, (lo <= v <= hi)%Q) vs ∧
      sent_since w w' =
        zip_with (λ ch v, mkCmd (ushaping_path Input ch (adj_band o) field) (VNum v)) chs vs in
  (adj_param o = "gain" → lines "gain" (-18)%Q 18%Q) ∧
  (adj_param o = "frequency" → adj_band o ≠ 5 → lines "frequency" 10%Q 20000%Q) ∧
  (adj_param o = "slope" → adj_band o ≠ 5 → lines "slope" (1 # 10)%Q 2%Q) ∧
  (adj_band o = 5 → adj_param o ≠ "gain" → chs ≠ [] →
     w' = log "warn" "Band 5 only supports gain parameter" w) ∧
  self w' = self w.
Proof.
  intros Hsend Hfin chs w' lines.
  apply Forall_cons in Hfin as [[gd Hgd] Hfin]. apply Forall_cons in Hfin as [[fd Hfd] Hfin].
  apply Forall_cons in Hfin as [[sd Hsd] Hfin]. apply Forall_cons in Hfin as [[gv Hgv] Hfin].
  apply Forall_cons in Hfin as [[fv Hfv] Hfin]. apply Forall_cons in Hfin as [[sv Hsv] _].
  assert (Hrun : ∀ field lo hi (val : Z → Q),
    adj_param o = field →
    (adj_band o =? 5) && negb (String.eqb field "gain") = false →
    (lo <= hi)%Q →
    (∀ ch, adjust_finalValue o (self w) ch
           = Some (Some (Js.Math_max lo (Js.Math_min hi (val ch))))) →
    lines field lo hi).
  { intros field lo hi val Hp Hguard Hlh Hval. unfold lines, w', input_ushaping_adjust.
    rewrite Hsend. cbn [negb]. cbv zeta. fold chs. rewrite Hp, Hguard.
    exists (map (λ ch, Js.Math_max lo (Js.Math_min hi (val ch))) chs).
    split; [by rewrite length_map|]. split.
    { apply Forall_forall. intros v (ch & -> & _)%list_elem_of_fmap.
      by apply (clamp_range (val ch) lo hi). }
    destruct chs as [|c l] eqn:E.
    { cbn [is_empty]. unfold sent_since, log. cbn [sent]. by rewrite drop_all. }
    cbn [is_empty]. apply sent_since_app.
    destruct (adjust_loop_sent o (c :: l) w) as (_ & ->). f_equal.
    rewrite Hp. generalize (c :: l). intros l0. induction l0 as [|c0 l0 IH]; [done|].
    cbn [map zip_with]. rewrite IH. by rewrite Hval. }
  split; [|split; [|split; [|split]]].
  - intros Hp.
    apply (Hrun "gain" _ _ (λ ch,
      if String.eqb (adj_mode o) "adjust"
      then (default 0 (gain (band_of (inputUShaping (self w)) ch (adj_band o))) + gd)%Q
      else gv)); [done|by rewrite andb_false_r|done|].
    intros ch. unfold adjust_finalValue. rewrite Hp, Hgd, Hgv.
    by destruct (String.eqb (adj_mode o) "adjust").
  - intros Hp Hb.
    apply (Hrun "frequency" _ _ (λ ch,
      if String.eqb (adj_mode o) "adjust"
      then (default 1000 (frequency (band_of (inputUShaping (self w)) ch (adj_band o))) + fd)%Q
      else fv)); [done| |done|].
    { apply Z.eqb_neq in Hb. by rewrite Hb. }
    intros ch. unfold adjust_finalValue. rewrite Hp, Hfd, Hfv.
    by destruct (String.eqb (adj_mode o) "adjust").
  - intros Hp Hb.
    apply (Hrun "slope" _ _ (λ ch,
      if String.eqb (adj_mode o) "adjust"
      then (default 1 (slope (band_of (inputUShaping (self w)) ch (adj_band o))) + sd)%Q
      else sv)); [done| |done|].
    { apply Z.eqb_neq in Hb. by rewrite Hb. }
    intros ch. unfold adjust_finalValue. rewrite Hp, Hsd, Hsv.
    by destruct (String.eqb (adj_mode o) "adjust").
  - intros Hb Hp Hchs. unfold w', input_ushaping_adjust.
    rewrite Hsend. cbn [negb]. cbv zeta. fold chs.
    destruct chs; [done|]. cbn [is_empty]. rewrite Hb. cbn [Z.eqb Pos.eqb andb].
    apply String.eqb_neq in Hp. by rewrite Hp.
  - unfold w', input_ushaping_adjust. rewrite Hsend. cbn [negb]. cbv zeta.
    destruct (is_empty _); [done|]. destruct (_ && _); [done|].
    apply adjust_loop_sent.
Qed.

(** The theorem for a request of +40 dB on band 2 of input 1: 18 dB is
    what goes out. *)
Lemma ushaping_adjust_clamps_witness :
  let o := mkUShapingAdjust [Some 1] 2 "gain" "set" (Some 0%Q) (Some 0%Q) (Some 0%Q)
             (Some 40%Q) (Some 1000%Q) (Some 1%Q) in
  let w := idle_world ["_cmdSendLine"] 0 in
  ∃ vs, length vs = 1%nat ∧ Forall (λ v, (-18 <= v <= 18)%Q) vs ∧
    sent_since w (input_ushaping_adjust 8 o w) =
      zip_with (λ ch v, mkCmd (ushaping_path Input ch 2 "gain") (VNum v)) [1] vs.
Proof.
  cbv zeta.
  destruct (ushaping_adjust_clamps 8
    (mkUShapingAdjust [Some 1] 2 "gain" "set" (Some 0%Q) (Some 0%Q) (Some 0%Q)
       (Some 40%Q) (Some 1000%Q) (Some 1%Q)) (idle_world ["_cmdSendLine"] 0)) as (H & _).
  - reflexivity.
  - repeat (constructor; [by eexists|]). constructor.
  - apply H. reflexivity.
Defined.


(** ** Parametric EQ knobs *)



Section EqKnobs.

Variables (d : Domain) (band : Z).




End EqKnobs.




(** ** Matrix gain *)

Lemma call_loop {A} (f : A → Call) (l : list A) (w : World) :
  let w' := foldl (λ w i, call (call_name (f i)) (call_args (f i)) w) w l in
  calls w' = calls w ++ map f l ∧ sent w' = sent w ∧ self w' = self w ∧
  logs w' = logs w ∧ methods w' = methods w.
Proof.
  revert w. induction l as [|i l IH]; intros w; cbn [foldl map].
  { by rewrite app_nil_r. }
  destruct (IH (call (call_name (f i)) (call_args (f i)) w)) as (-> & -> & -> & -> & ->).
  unfold call. cbn [calls sent self logs methods]. rewrite <- app_assoc.
  by destruct (f i).
Qed.

Lemma foldl_ext_world {A} (f g : World → A → World) (l : list A) (w : World) (P : World → Prop) :
  P w → (∀ w i, P w → f w i = g w i ∧ P (g w i)) → foldl f w l = foldl g w l.
Proof.
  revert w. induction l as [|i l IH]; intros w Hw Hfg; [done|]. cbn [foldl].
  destruct (Hfg w i Hw) as [-> Hp]. by apply IH.
Qed.

(** X17: in "minus6" mode the matrix gain action asks for -6 dB on every
    selected cross-point and never for a fade: whatever the gain, fade time
    and curve options say, and even when the fade helper is present, it
    calls [_setMatrixGainMulti(i, outs, -6)] once per valid input, in
    order.  In "set" mode a gain that is not a number is taken as 0 dB.
    The callback itself transmits nothing and changes no store. *)
Theorem matrix_gain_minus6 (NUM_OUTPUTS : Z) (o : MatrixGainOptions) (w : World) :
  has "_setMatrixGainMulti" w = true →
  let inputs := safeGetChannels o.(mg_inputs) 32 in
  let outs := safeGetChannels o.(mg_outputs) NUM_OUTPUTS in
  inputs ≠ [] → outs ≠ [] →
  let w' := matrix_gain NUM_OUTPUTS o w in
  (mg_mode o = "minus6" →
     called_since w w' =
       map (λ i, mkCall "_setMatrixGainMulti" [VInt i; VOuts outs; VNum (-6)]) inputs) ∧
  (mg_mode o ≠ "nudge" → mg_mode o ≠ "minus6" → mg_gain o = None →
   Js.Math_max 0 (Js.or_default (mg_fadeMs o) 0) = 0%Q →
     called_since w w' =
       map (λ i, mkCall "_setMatrixGainMulti" [VInt i; VOuts outs; VNum 0]) inputs) ∧
  sent w' = sent w ∧ self w' = self w.
Proof.
  intros Hset inputs outs Hin Hout w'. subst w'. unfold matrix_gain. fold inputs outs.
  destruct inputs as [|i0 il] eqn:Ei; [done|]. destruct outs as [|o0 ol] eqn:Eo; [done|].
  cbn [is_empty orb]. cbv zeta.
  assert (Hplain : ∀ (g dur : Q) (curve : string) (l : list Z),
    Js.ltb 0 dur = false →
    foldl (λ w i,
      if Js.ltb 0 dur && has "_startMatrixGainFadeMulti" w then
        call "_startMatrixGainFadeMulti"
          [VInt i; VOuts (o0 :: ol); VNum g; VNum dur; VText curve] w
      else if has "_setMatrixGainMulti" w then
        call "_setMatrixGainMulti" [VInt i; VOuts (o0 :: ol); VNum g] w
      else w) w l
    = foldl (λ w i, call (call_name (mkCall "_setMatrixGainMulti" [VInt i; VOuts (o0 :: ol); VNum g]))
                      (call_args (mkCall "_setMatrixGainMulti" [VInt i; VOuts (o0 :: ol); VNum g])) w)
        w l).
  { intros g dur curve l Hd.
    apply (foldl_ext_world _ _ l w (λ w0, has "_setMatrixGainMulti" w0 = true)); [done|].
    intros w0 i Hw0. rewrite Hd, Hw0. cbn [andb]. done. }
  split; [|split].
  - intros Hm. rewrite Hm.
    change (String.eqb "minus6" "nudge" || String.eqb "minus6" "minus6") with true. cbv iota.
    change (String.eqb "minus6" "nudge") with false.
    change (String.eqb "minus6" "minus6") with true. cbv iota.
    rewrite Hplain by done. apply called_since_app.
    apply (call_loop (λ i, mkCall "_setMatrixGainMulti" [VInt i; VOuts (o0 :: ol); VNum (-6)])).
  - intros Hn Hm Hg Hdur.
    apply String.eqb_neq in Hn, Hm. rewrite Hn, Hm. cbn [orb]. cbv iota.
    change (String.eqb "set" "nudge") with false.
    change (String.eqb "set" "minus6") with false. cbv iota.
    rewrite Hg, Hdur. cbn [default]. rewrite Hplain by done. apply called_since_app.
    apply (call_loop (λ i, mkCall "_setMatrixGainMulti" [VInt i; VOuts (o0 :: ol); VNum 0])).
  - assert (Hframe : ∀ (f : World → Z → World) (l : list Z) w0,
      (∀ w i, sent (f w i) = sent w ∧ self (f w i) = self w) →
      sent (foldl f w0 l) = sent w0 ∧ self (foldl f w0 l) = self w0).
    { intros f l. induction l as [|i l IH]; intros w0 Hf; [done|]. cbn [foldl].
      destruct (IH (f w0 i) Hf) as [-> ->]. apply Hf. }
    destruct (String.eqb _ "nudge"); apply Hframe; intros w0 i;
      unfold call_if_defined, call; repeat (destruct (_ && _) || destruct (has _ _)); done.
Qed.

(** The theorem with the fade helper present and a fade time of 2 s. *)
Lemma matrix_gain_minus6_witness :
  let o := mkMatrixGainOptions [Some 1; Some 2] [Some 3] "minus6" (Some 5%Q) None
             (Some 2000%Q) "log" in
  let w := idle_world ["_setMatrixGainMulti"; "_startMatrixGainFadeMulti"] 0 in
  called_since w (matrix_gain 16 o w) =
    [mkCall "_setMatrixGainMulti" [VInt 1; VOuts [3]; VNum (-6)];
     mkCall "_setMatrixGainMulti" [VInt 2; VOuts [3]; VNum (-6)]].
Proof.
  cbv zeta.
  destruct (matrix_gain_minus6 16
    (mkMatrixGainOptions [Some 1; Some 2] [Some 3] "minus6" (Some 5%Q) None (Some 2000%Q) "log")
    (idle_world ["_setMatrixGainMulti"; "_startMatrixGainFadeMulti"] 0)) as (H & _).
  - reflexivity.
  - vm_compute. discriminate.
  - vm_compute. discriminate.
  - rewrite H by reflexivity. reflexivity.
Defined.


(** ** Link groups *)

Section LinkGroups.

Variable d : Domain.

Lemma linkGroupBypass_of_set (m : gmap Z bool) (g : Galaxy) :
  linkGroupBypass_of d (set_linkGroupBypass_of d m g) = m.
Proof. by destruct d. Qed.

Lemma link_group_body_spec (op : string) (g : Galaxy) (group : Z) :
  let g' := link_group_bypass_body d op g group in
  let target :=
    if String.eqb op "on" then true
    else if String.eqb op "off" then false
    else negb (link_group_bypassed d g group) in
  linkGroupBypass_of d g' = <[group := target]> (linkGroupBypass_of d g) ∧
  sent (world g') = sent (world g) ++ [mkCmd (link_group_path d group) (VQuote (bool_text target))] ∧
  self (world g') = self (world g).
Proof.
  unfold link_group_bypass_body, link_group_bypassed, in_world, _cmdSendLine, log.
  destruct d; cbn [linkGroupBypass_of set_linkGroupBypass_of world sent self
                   inputLinkGroupBypass outputLinkGroupBypass]; repeat split; reflexivity.
Qed.

Lemma link_group_bypassed_insert (m : gmap Z bool) (g : Galaxy) (group x : Z) (b : bool) :
  linkGroupBypass_of d g = <[group := b]> m →
  link_group_bypassed d g x =
    if bool_decide (x = group) then b else bool_decide (m !! x = Some true).
Proof.
  intros E. unfold link_group_bypassed. rewrite E.
  destruct (decide (x = group)) as [->|Hne].
  - rewrite lookup_insert_eq, (bool_decide_eq_true_2 (group = group)) by done.
    destruct b; [by rewrite bool_decide_eq_true_2|by rewrite bool_decide_eq_false_2].
  - by rewrite lookup_insert_ne, (bool_decide_eq_false_2 (x = group)).
Qed.

(** After a run of toggles a group is bypassed exactly when it was before
    and was toggled an even number of times, or was not and the number is
    odd. *)
Lemma link_group_toggle_loop (l : list Z) (g : Galaxy) (x : Z) :
  link_group_bypassed d (foldl (link_group_bypass_body d "toggle") g l) x =
    xorb (link_group_bypassed d g x) (Nat.odd (length (filter (λ y, y = x) l))).
Proof.
  revert g. induction l as [|c l IH]; intros g; cbn [foldl].
  { cbn. by rewrite xorb_false_r. }
  rewrite IH. destruct (link_group_body_spec "toggle" g c) as (Hst & _).
  cbn [String.eqb Ascii.eqb Bool.eqb] in Hst. cbv zeta in Hst.
  rewrite (link_group_bypassed_insert _ _ _ x _ Hst). fold (link_group_bypassed d g x).
  rewrite filter_cons. destruct (decide (c = x)) as [->|Hne].
  - rewrite bool_decide_eq_true_2 by done. cbn [length]. rewrite Nat.odd_succ.
    rewrite <- Nat.negb_odd. by destruct (link_group_bypassed d g x), (Nat.odd _).
  - rewrite bool_decide_eq_false_2 by done. done.
Qed.

Lemma link_group_loop_sent (op : string) (l : list Z) (g : Galaxy) :
  let g' := foldl (link_group_bypass_body d op) g l in
  self (world g') = self (world g) ∧
  ∃ vs, length vs = length l ∧
    sent (world g') = sent (world g) ++
      zip_with (λ group v, mkCmd (link_group_path d group) (VQuote (bool_text v))) l vs ∧
    (op = "on" → Forall (λ v, v = true) vs) ∧ (op = "off" → Forall (λ v, v = false) vs).
Proof.
  revert g. induction l as [|c l IH]; intros g; cbn [foldl].
  { split; [done|]. exists []. by rewrite app_nil_r. }
  destruct (IH (link_group_bypass_body d op g c)) as (Hs2 & vs & Hl & Hsent & Hon & Hoff).
  destruct (link_group_body_spec op g c) as (_ & Hs1 & Hself). cbv zeta in Hs1.
  cbv zeta. split; [by rewrite Hs2|].
  eexists (_ :: vs). split; [cbn [length]; by rewrite Hl|]. split.
  - rewrite Hsent, Hs1, <- app_assoc. done.
  - split; intros ->; (constructor; [done|]); [by apply Hon|by apply Hoff].
Qed.

End LinkGroups.

(** X18: toggling a selection of link groups twice leaves every group
    as it was (bypassed or not), whichever groups are selected and even
    when one is listed more than once; "on" sends [bypass='true'] and "off"
    [bypass='false'] for every selected group; groups outside 1 to 4
    (inputs) or 1 to 8 (outputs) and entries that are not numbers are never
    addressed, and the parameter stores of [Self] are not touched. *)
Theorem link_group_toggle_twice (d : Domain) (groups : list Token) (g : Galaxy) :
  has "_cmdSendLine" (world g) = true →
  let top := match d with Input => 4 | Output => 8 end in
  let valid := filter (λ n, 1 ≤ n ≤ top) (omap (λ t : Token, t) groups) in
  let g2 := link_group_bypass d "toggle" groups (link_group_bypass d "toggle" groups g) in
  (∀ x, link_group_bypassed d g2 x = link_group_bypassed d g x) ∧
  (∀ op, op = "on" ∨ op = "off" →
     sent_since (world g) (world (link_group_bypass d op groups g)) =
       map (λ group, mkCmd (link_group_path d group)
                       (VQuote (if String.eqb op "on" then "true" else "false"))) valid) ∧
  (∀ op, self (world (link_group_bypass d op groups g)) = self (world g)).
Proof.
  intros _ top valid g2. subst g2. unfold link_group_bypass. fold top. fold valid.
  split; [|split].
  - intros x. destruct valid as [|c l] eqn:E; [done|]. cbn [is_empty].
    rewrite !link_group_toggle_loop.
    by destruct (link_group_bypassed d g x), (Nat.odd _).
  - intros op Hop. destruct valid as [|c l] eqn:E.
    { cbn [is_empty]. unfold sent_since, in_world, log. cbn [world sent]. by rewrite drop_all. }
    cbn [is_empty]. rewrite <- E. clear E.
    destruct (link_group_loop_sent d op valid g) as (_ & vs & Hl & Hsent & Hon & Hoff).
    apply sent_since_app. rewrite Hsent. f_equal.
    assert (Hvs : Forall (λ v, bool_text v = if String.eqb op "on" then "true" else "false") vs).
    { destruct Hop as [->| ->].
      - eapply Forall_impl; [by apply Hon|]. by intros v ->.
      - eapply Forall_impl; [by apply Hoff|]. by intros v ->. }
    clear Hon Hoff Hsent. revert vs Hl Hvs.
    induction valid as [|c0 l0 IH]; intros [|v vs] Hl Hvs; try done.
    apply Forall_cons in Hvs as [Hv Hvs]. cbn [zip_with map]. rewrite Hv. f_equal.
    apply IH; [|done]. by injection Hl.
  - intros op. destruct valid as [|c l] eqn:E; [done|]. cbn [is_empty].
    apply link_group_loop_sent.
Qed.

(** The theorem on the output groups 2, 2 and 11: group 11 does not
    exist, group 2 is listed twice. *)
Lemma link_group_toggle_twice_witness :
  let g := mkGalaxy (idle_world ["_cmdSendLine"] 0) ∅ (<[2 := true]> ∅) ∅ ∅ ∅ in
  sent_since (world g) (world (link_group_bypass Output "off" [Some 2; Some 2; Some 11] g)) =
    [mkCmd (link_group_path Output 2) (VQuote "false");
     mkCmd (link_group_path Output 2) (VQuote "false")].
Proof.
  cbv zeta.
  destruct (link_group_toggle_twice Output [Some 2; Some 2; Some 11]
    (mkGalaxy (idle_world ["_cmdSendLine"] 0) ∅ (<[2 := true]> ∅) ∅ ∅ ∅)) as (_ & H & _).
  - reflexivity.
  - rewrite (H "off") by (by right). reflexivity.
Defined.


(** ** High-pass and low-pass bypass *)

Lemma filter_bypass_loop_sent (f : Filter) (op : string) (b : bool) (l : list Z) (g : Galaxy) :
  op ≠ "toggle" →
  String.eqb op (filter_engage_id f) = negb b →
  has ("_setOutput" +:+ Filter_Name f +:+ "Bypass") (world g) = false →
  has "_cmdSendLine" (world g) = true →
  sent (world (foldl (filter_bypass_body f op) g l)) =
    sent (world g) ++ map (λ ch, mkCmd (filter_bypass_path f ch) (VText (bool_text b))) l.
Proof.
  intros Hop Heng. apply String.eqb_neq in Hop.
  revert g. induction l as [|c l IH]; intros g Hset Hsend; cbn [foldl map].
  { by rewrite app_nil_r. }
  assert (E : filter_bypass_body f op g c = in_world (filter_bypass_send f c b) g).
  { unfold filter_bypass_body. cbv zeta. rewrite Hop, Hset, Heng. by rewrite negb_involutive. }
  rewrite E. rewrite IH.
  - unfold in_world, filter_bypass_send, call_if_defined. cbn [world]. rewrite Hsend.
    unfold has, call, _cmdSendLine. cbn [methods sent].
    destruct (bool_decide _); cbn [sent]; by rewrite <- app_assoc.
  - unfold in_world, filter_bypass_send, call_if_defined. cbn [world]. rewrite Hsend.
    unfold has in *. unfold call, _cmdSendLine. cbn [methods].
    destruct (bool_decide ("_applyOutputFilter" ∈ _)); cbn [methods]; done.
  - unfold in_world, filter_bypass_send, call_if_defined. cbn [world]. rewrite Hsend.
    unfold has in *. unfold call, _cmdSendLine. cbn [methods].
    destruct (bool_decide ("_applyOutputFilter" ∈ _)); cbn [methods]; done.
Qed.

(** X19: the high-pass bypass action cannot engage the filter by
    operation.  Its operation "on" (labelled Enabled) does exactly what
    "off" does, in every configuration of helpers: on an instance with
    [_cmdSendLine] and without [_setOutputHighpassBypass] it transmits
    [bypass=true] for every selected output.  The low-pass action, written
    the same way but comparing with 'on', transmits [bypass=false] for "on"
    and [bypass=true] for "off". *)
Theorem highpass_on_bypasses (NUM_OUTPUTS : Z) (chs : list Token) (g : Galaxy) :
  has "_cmdSendLine" (world g) = true →
  let sel := safeGetChannels chs NUM_OUTPUTS in
  let lines := λ (f : Filter) (op : string),
    sent_since (world g) (world (output_filter_bypass f NUM_OUTPUTS chs op g)) in
  output_filter_bypass Highpass NUM_OUTPUTS chs "on" g
    = output_filter_bypass Highpass NUM_OUTPUTS chs "off" g ∧
  (has "_setOutputHighpassBypass" (world g) = false →
     lines Highpass "on" =
       map (λ ch, mkCmd (filter_bypass_path Highpass ch) (VText "true")) sel) ∧
  (has "_setOutputLowpassBypass" (world g) = false →
     lines Lowpass "on" =
       map (λ ch, mkCmd (filter_bypass_path Lowpass ch) (VText "false")) sel ∧
     lines Lowpass "off" =
       map (λ ch, mkCmd (filter_bypass_path Lowpass ch) (VText "true")) sel).
Proof.
  intros Hsend sel lines.
  assert (Hfold : ∀ (l : list Z) g0, foldl (filter_bypass_body Highpass "on") g0 l
                         = foldl (filter_bypass_body Highpass "off") g0 l).
  { clear. induction l as [|c l IH]; intros g0; [done|]. cbn [foldl]. by rewrite IH. }
  assert (Hlines : ∀ f op b, op ≠ "" → op ≠ "toggle" →
    String.eqb op (filter_engage_id f) = negb b →
    has ("_setOutput" +:+ Filter_Name f +:+ "Bypass") (world g) = false →
    lines f op = map (λ ch, mkCmd (filter_bypass_path f ch) (VText (bool_text b))) sel).
  { intros f op b Hne Hop Heng Hset. unfold lines, output_filter_bypass. fold sel.
    destruct sel as [|c l] eqn:E.
    { cbn [is_empty]. unfold sent_since, in_world, log. cbn [world sent]. by rewrite drop_all. }
    cbn [is_empty]. apply String.eqb_neq in Hne. rewrite Hne.
    apply sent_since_app. by apply filter_bypass_loop_sent. }
  split; [|split].
  - unfold output_filter_bypass. destruct (is_empty _); [done|]. cbv zeta.
    change (String.eqb "on" "") with false. change (String.eqb "off" "") with false. cbv iota.
    apply Hfold.
  - intros Hset. by apply (Hlines Highpass "on" true).
  - intros Hset. split.
    + by apply (Hlines Lowpass "on" false).
    + by apply (Hlines Lowpass "off" true).
Qed.

(** The theorem for outputs 1 and 2 of a plain instance. *)
Lemma highpass_on_bypasses_witness :
  let g := mkGalaxy (idle_world ["_cmdSendLine"] 0) ∅ ∅ ∅ ∅ ∅ in
  sent_since (world g) (world (output_filter_bypass Highpass 16 [Some 1; Some 2] "on" g)) =
    [mkCmd (filter_bypass_path Highpass 1) (VText "true");
     mkCmd (filter_bypass_path Highpass 2) (VText "true")].
Proof.
  cbv zeta.
  destruct (highpass_on_bypasses 16 [Some 1; Some 2]
    (mkGalaxy (idle_world ["_cmdSendLine"] 0) ∅ ∅ ∅ ∅ ∅)) as (_ & H & _).
  - reflexivity.
  - rewrite H by reflexivity. reflexivity.
Defined.
